(** * Batch image generator: the orchestration core, embedded and verified

    The development follows the Python sources:
    - [main.py]: [extract_image_names], [start_generation], the
      workers behind the semaphore, the result handlers, [get_unique_filename]
      and [download_image_async];
    - [services/api_client.py]: [generate_image_async] (retry loop and
      response parsing);
    - [services/history.py]: [save_history_record].

    Python [str] values whose individual characters matter (regular
    expressions with character classes over code points) are lists of
    code points; all other text is a [string] holding UTF-8. *)

From Stdlib Require Import ZArith NArith Arith List String Ascii Bool Lia.
From Stdlib Require Import Sorted FinFun.
From Stdlib Require Import QArith Qminmax Qpower.
From Stdlib Require Import DecimalString DecimalNat.
Import ListNotations.
Close Scope Q_scope.
Open Scope nat_scope.

Set Warnings "-register-all".

(* ------------------------------------------------------------------ *)
(** ** Python [str] as a sequence of code points *)

Module Unicode.

Definition cp := N.
Definition pystr := list cp.

Definition byte_of (a : ascii) : N := N_of_ascii a.

(** Continuation payload of a UTF-8 byte (low six bits). *)
Definition low6 (b : N) : N := N.land b 63.

(** UTF-8 decoding of a [string] literal into code points. *)
Fixpoint utf8_decode_bytes (fuel : nat) (bs : list N) : pystr :=
  match fuel with
  | O => []
  | S fuel' =>
    match bs with
    | [] => []
    | b0 :: r0 =>
      if (b0 <? 128)%N then b0 :: utf8_decode_bytes fuel' r0
      else if (b0 <? 224)%N then
        match r0 with
        | b1 :: r1 =>
          (N.land b0 31 * 64 + low6 b1)%N :: utf8_decode_bytes fuel' r1
        | _ => [b0]
        end
      else if (b0 <? 240)%N then
        match r0 with
        | b1 :: b2 :: r2 =>
          (N.land b0 15 * 4096 + low6 b1 * 64 + low6 b2)%N
            :: utf8_decode_bytes fuel' r2
        | _ => [b0]
        end
      else
        match r0 with
        | b1 :: b2 :: b3 :: r3 =>
          (N.land b0 7 * 262144 + low6 b1 * 4096 + low6 b2 * 64 + low6 b3)%N
            :: utf8_decode_bytes fuel' r3
        | _ => [b0]
        end
    end
  end.

Definition u (s : string) : pystr :=
  let bs := map byte_of (list_ascii_of_string s) in
  utf8_decode_bytes (List.length bs) bs.

Definition pystr_eqb (a b : pystr) : bool :=
  if list_eq_dec N.eq_dec a b then true else false.

(** The character class [[A-Za-z0-9一-龥]] of the boundary pattern. *)
Definition is_word_char (c : cp) : bool :=
  ((65 <=? c) && (c <=? 90) || (97 <=? c) && (c <=? 122)
   || (48 <=? c) && (c <=? 57) || (19968 <=? c) && (c <=? 40869))%N.

(** Characters removed by [str.strip()] without argument. *)
Definition py_isspace (c : cp) : bool :=
  ((9 <=? c) && (c <=? 13) || (28 <=? c) && (c <=? 32)
   || (c =? 133) || (c =? 160) || (c =? 5760)
   || (8192 <=? c) && (c <=? 8202)
   || (c =? 8232) || (c =? 8233) || (c =? 8239) || (c =? 8287)
   || (c =? 12288))%N.

Fixpoint lstrip (s : pystr) : pystr :=
  match s with
  | c :: r => if py_isspace c then lstrip r else s
  | [] => []
  end.

Definition strip (s : pystr) : pystr := rev (lstrip (rev (lstrip s))).

(** [str.replace] for a single-character pattern and replacement. *)
Definition replace_char (old new : cp) (s : pystr) : pystr :=
  map (fun c => if (c =? old)%N then new else c) s.

End Unicode.

(* ------------------------------------------------------------------ *)
(** ** [MainWindow.extract_image_names] *)

Module Matcher.
Import Unicode.

(** One entry of [category_links]: [link.get('name')] may be absent. *)
Record link := { name : option pystr; url : string; path : string }.

(** [text.replace('　',' ').replace('(', '（').replace(')', '）')] *)
Definition normalize (prompt : pystr) : pystr :=
  replace_char 41%N 65289%N
    (replace_char 40%N 65288%N (replace_char 12288%N 32%N prompt)).

(** The loop collecting every non-empty stripped name. *)
Definition collect_names (category_links : list (list link)) : list pystr :=
  flat_map
    (fun cat_links =>
       flat_map
         (fun l =>
            let n := strip (match name l with Some s => s | None => [] end) in
            match n with [] => [] | _ => [n] end)
         cat_links)
    category_links.

(** [set(names)] iterates in an order Python does not fix: any
    duplicate-free listing of the same elements may come out. *)
Definition enumerates (names uniq : list pystr) : Prop :=
  NoDup uniq /\ forall x, In x uniq <-> In x names.

(** One concrete iteration order: first occurrences. *)
Definition set_first_seen (names : list pystr) : list pystr :=
  rev (nodup (list_eq_dec N.eq_dec) (rev names)).

(** [sorted(..., key=len, reverse=True)]: stable, longest first. *)
Fixpoint insert_by_len (x : pystr) (l : list pystr) : list pystr :=
  match l with
  | [] => [x]
  | y :: r =>
    if (List.length y <? List.length x)%nat then x :: l
    else y :: insert_by_len x r
  end.

Definition sorted_by_len_desc (l : list pystr) : list pystr :=
  fold_left (fun acc x => insert_by_len x acc) l [].

Fixpoint starts_with (n text : pystr) : bool :=
  match n, text with
  | [], _ => true
  | a :: n', b :: t' => (a =? b)%N && starts_with n' t'
  | _ :: _, [] => false
  end.

Definition boundary (c : option cp) : bool :=
  match c with Some x => negb (is_word_char x) | None => true end.

(** [pat.finditer(text)] for
    [(?<![A-Za-z0-9一-龥])<escaped n>(?![A-Za-z0-9一-龥])]:
    the spans of the matches, scanned left to right; after a match the
    scan resumes at its end.  [prev] is the character before [pos],
    [skip] the number of positions still covered by the last match. *)
Fixpoint finditer (n : pystr) (prev : option cp) (rest : pystr)
         (pos skip : nat) : list (nat * nat) :=
  match rest with
  | [] => []
  | c :: rest' =>
    match skip with
    | S k => finditer n (Some c) rest' (S pos) k
    | O =>
      if starts_with n rest
         && boundary prev
         && boundary (nth_error rest (List.length n))
      then (pos, pos + List.length n)%nat
             :: finditer n (Some c) rest' (S pos) (List.length n - 1)
      else finditer n (Some c) rest' (S pos) 0
    end
  end.

(** [any(ch == '\0' for ch in masked[s:e])] *)
Definition covered (masked : pystr) (s e : nat) : bool :=
  existsb (fun ch => (ch =? 0)%N) (firstn (e - s) (skipn s masked)).

(** [for i in range(s, e): masked[i] = '\0'] *)
Fixpoint mask_from (masked : pystr) (s e : nat) (i : nat) : pystr :=
  match masked with
  | [] => []
  | ch :: r =>
    (if (s <=? i)%nat && (i <? e)%nat then 0%N else ch)
      :: mask_from r s e (S i)
  end.

Definition mask (masked : pystr) (s e : nat) : pystr := mask_from masked s e 0.

Record scan := { matched : list pystr; masked : pystr }.

(** Body of the inner loop for one match [m] of candidate [n]. *)
Definition visit (n : pystr) (st : scan) (span : nat * nat) : scan :=
  let '(s, e) := span in
  if covered (masked st) s e then st
  else {| matched := matched st ++ [n]; masked := mask (masked st) s e |}.

Definition scan_name (text : pystr) (st : scan) (n : pystr) : scan :=
  fold_left (visit n) (finditer n None text 0 0) st.

Definition scan_all (text : pystr) (names : list pystr) : scan :=
  fold_left (scan_name text) names {| matched := []; masked := text |}.

(** The final order-preserving removal of duplicates. *)
Fixpoint dedup (seen : list pystr) (l : list pystr) : list pystr :=
  match l with
  | [] => []
  | n :: r =>
    if existsb (pystr_eqb n) seen then dedup seen r
    else n :: dedup (n :: seen) r
  end.

(** The function after [set(names)] has been enumerated as [uniq]. *)
Definition extract_sorted (uniq : list pystr) (prompt : pystr) : list pystr :=
  dedup [] (matched (scan_all (normalize prompt) (sorted_by_len_desc uniq))).

Definition extract_image_names (category_links : list (list link))
           (prompt : pystr) : list pystr :=
  extract_sorted (set_first_seen (collect_names category_links)) prompt.

(** The same scan, additionally recording the span of every accepted
    match (the source keeps only the names). *)
Record trace := { accepted : list (pystr * (nat * nat)); tmasked : pystr }.

Definition tvisit (n : pystr) (st : trace) (span : nat * nat) : trace :=
  let '(s, e) := span in
  if covered (tmasked st) s e then st
  else {| accepted := accepted st ++ [(n, (s, e))];
          tmasked := mask (tmasked st) s e |}.

Definition tscan_name (text : pystr) (st : trace) (n : pystr) : trace :=
  fold_left (tvisit n) (finditer n None text 0 0) st.

Definition tscan_all (text : pystr) (names : list pystr) : trace :=
  fold_left (tscan_name text) names {| accepted := []; tmasked := text |}.

Definition named (s : string) : link :=
  {| name := Some (u s); url := ""%string; path := ""%string |}.

(** *** Notions used in the statements about this module *)

(** [a] may stand before [b] in the candidate order: it is not shorter. *)
Definition len_ge (a b : pystr) : Prop := List.length b <= List.length a.

(** The recorded scan and the scan of the source agree. *)
Definition agree (st : scan) (tst : trace) : Prop :=
  matched st = map fst (accepted tst) /\ masked st = tmasked tst.

(** The span [sp] of [text] holds a copy of [n]. *)
Definition occurs (n text : pystr) (sp : nat * nat) : Prop :=
  snd sp = fst sp + List.length n
  /\ snd sp <= List.length text
  /\ firstn (List.length n) (skipn (fst sp) text) = n.

(** Position [i] of the mask has been consumed. *)
Definition zero_at (m : pystr) (i : nat) : Prop := nth_error m i = Some 0%N.

(** Two spans share no position. *)
Definition spans_disjoint (a b : nat * nat) : Prop :=
  forall i, ~ (fst a <= i < snd a /\ fst b <= i < snd b).

(** Every position of the span has been consumed. *)
Definition all_masked (m : pystr) (sp : nat * nat) : Prop :=
  forall i, fst sp <= i < snd sp -> zero_at m i.

(** What the recorded scan maintains. *)
Record trace_ok (names : list pystr) (text : pystr) (tr : trace) : Prop := {
  ok_length : List.length (tmasked tr) = List.length text;
  ok_masked : Forall (fun a => all_masked (tmasked tr) (snd a)) (accepted tr);
  ok_disjoint :
    ForallOrdPairs (fun a b => spans_disjoint (snd a) (snd b)) (accepted tr);
  ok_occurs :
    Forall (fun a => In (fst a) names /\ occurs (fst a) text (snd a)) (accepted tr)
}.

(** Start of the first accepted match of [n]. *)
Definition first_start (tr : list (pystr * (nat * nat))) (n : pystr) : option nat :=
  option_map (fun a => fst (snd a))
             (find (fun a => pystr_eqb (fst a) n) tr).

(** All positions are known and strictly increasing. *)
Fixpoint increasing (l : list (option nat)) : bool :=
  match l with
  | Some a :: ((Some b :: _) as r) => (a <? b) && increasing r
  | [] | [Some _] => true
  | _ => false
  end.

(** The order the specification asks for: [result] lists the names by
    the position of their first accepted match. *)
Definition in_text_order (tr : list (pystr * (nat * nat)))
           (result : list pystr) : bool :=
  increasing (map (first_start tr) result).

(** Two spans have a position in common. *)
Definition shares_position (a b : nat * nat) : Prop :=
  exists i, (fst a <= i < snd a) /\ (fst b <= i < snd b).

(** Every consumed position of the mask lies in an accepted span, or
    the text itself holds a NUL there. *)
Definition zeros_explained (text : pystr) (tr : trace) : Prop :=
  forall i, zero_at (tmasked tr) i ->
            (exists b, In b (accepted tr) /\ fst (snd b) <= i < snd (snd b))
            \/ zero_at text i.

End Matcher.

(* ------------------------------------------------------------------ *)
(** ** JSON values as [json.loads] produces them *)

Module Json.
Open Scope string_scope.

(** A float is identified by the text [repr] prints for it. *)
Inductive json :=
| JNull
| JBool (b : bool)
| JInt (z : Z)
| JFloat (repr : string)
| JStr (s : string)
| JArr (l : list json)
| JObj (kv : list (string * json)).

Fixpoint lookup (k : string) (kv : list (string * json)) : option json :=
  match kv with
  | [] => None
  | (k', v) :: r => if String.eqb k k' then Some v else lookup k r
  end.

(** [d[k] = v] on a dict: replaces in place, or appends a new key. *)
Fixpoint assign (k : string) (v : json) (kv : list (string * json))
  : list (string * json) :=
  match kv with
  | [] => [(k, v)]
  | (k', v') :: r =>
    if String.eqb k k' then (k, v) :: r else (k', v') :: assign k v r
  end.

(** Python truthiness of a decoded JSON value. *)
Definition truthy (v : json) : bool :=
  match v with
  | JNull => false
  | JBool b => b
  | JInt z => negb (z =? 0)%Z
  | JFloat r => negb (String.eqb r "0.0" || String.eqb r "-0.0")
  | JStr s => negb (String.eqb s "")
  | JArr l => match l with [] => false | _ => true end
  | JObj kv => match kv with [] => false | _ => true end
  end.

Definition string_of_Z (z : Z) : string :=
  NilEmpty.string_of_int (Z.to_int z).

Definition hex_digit (n : N) : ascii :=
  match n with
  | 10 => "a" | 11 => "b" | 12 => "c" | 13 => "d" | 14 => "e" | 15 => "f"
  | _ => ascii_of_N (48 + n)
  end%N%char.

Definition dquote : ascii := ascii_of_N 34.
Definition backslash : ascii := ascii_of_N 92.

(** Escaping done by [json.dumps(..., ensure_ascii=False)]. *)
Definition escape_char (c : ascii) : string :=
  let n := N_of_ascii c in
  if (n =? 34)%N then String backslash (String dquote "")
  else if (n =? 92)%N then String backslash (String backslash "")
  else if (n =? 10)%N then "\n"
  else if (n =? 13)%N then "\r"
  else if (n =? 9)%N then "\t"
  else if (n =? 8)%N then "\b"
  else if (n =? 12)%N then "\f"
  else if (n <? 32)%N then
    "\u00" ++ String (hex_digit (n / 16)) (String (hex_digit (n mod 16)) "")
  else String c "".

Fixpoint escape (s : string) : string :=
  match s with
  | "" => ""
  | String c r => escape_char c ++ escape r
  end.

Definition quote (s : string) : string :=
  String dquote (escape s ++ String dquote "").

Fixpoint join (sep : string) (l : list string) : string :=
  match l with
  | [] => ""
  | [x] => x
  | x :: r => x ++ sep ++ join sep r
  end.

(** [json.dumps(v, ensure_ascii=False)] with the default separators. *)
Fixpoint dumps (v : json) : string :=
  match v with
  | JNull => "null"
  | JBool true => "true"
  | JBool false => "false"
  | JInt z => string_of_Z z
  | JFloat r => r
  | JStr s => quote s
  | JArr l => "[" ++ join ", " (map dumps l) ++ "]"
  | JObj kv =>
    "{" ++ join ", " (map (fun p => quote (fst p) ++ ": " ++ dumps (snd p)) kv)
        ++ "}"
  end.

End Json.

(* ------------------------------------------------------------------ *)
(** ** Exceptions and results *)

Module Exn.

Inductive exn :=
| ValueError (msg : string)
| ClientError (msg : string)
| TimeoutError
| AttributeError
| IndexError
| KeyError
| TypeError
| OverflowError
| UnboundLocalError
| OSError (msg : string)
| RuntimeError (msg : string).

Inductive result (A : Type) :=
| Ok (a : A)
| Raise (e : exn).
Arguments Ok {A} a.
Arguments Raise {A} e.

Definition bind {A B} (r : result A) (k : A -> result B) : result B :=
  match r with
  | Ok a => k a
  | Raise e => Raise e
  end.

Declare Scope exn_scope.
Notation "x <- c ;; k" := (bind c (fun x => k))
  (at level 61, c at next level, right associativity) : exn_scope.

End Exn.

(* ------------------------------------------------------------------ *)
(** ** Python operations on decoded JSON values *)

Module PyVal.
Import Json Exn.
Open Scope string_scope.
Open Scope exn_scope.

(** [d.get(k, default)] on a value that must be a dict. *)
Definition py_get (d : json) (k : string) (default : json) : result json :=
  match d with
  | JObj kv => Ok (match lookup k kv with Some v => v | None => default end)
  | _ => Raise AttributeError
  end.

(** [v == s] for a string literal [s]. *)
Definition json_is_str (v : json) (s : string) : bool :=
  match v with JStr t => String.eqb t s | _ => false end.

Definition is_continuation (c : ascii) : bool :=
  let n := N_of_ascii c in (128 <=? n)%N && (n <? 192)%N.

(** The bytes that complete the first character of a UTF-8 string. *)
Fixpoint continuation_run (s : string) : string :=
  match s with
  | String c r =>
    if is_continuation c then String c (continuation_run r) else ""
  | "" => ""
  end.

Definition first_char (s : string) : option string :=
  match s with
  | "" => None
  | String c r => Some (String c (continuation_run r))
  end.

(** The characters of a UTF-8 string, one string each. *)
Fixpoint utf8_chars (s : string) : list string :=
  match s with
  | "" => []
  | String c r =>
    let starts_inside :=
      match r with String d _ => is_continuation d | "" => false end in
    match utf8_chars r with
    | h :: t =>
      if starts_inside then String c h :: t else String c "" :: h :: t
    | [] => [String c ""]
    end
  end.

(** [for p in v]: the items a loop over [v] visits. *)
Definition py_iter (v : json) : result (list json) :=
  match v with
  | JArr l => Ok l
  | JStr s => Ok (map JStr (utf8_chars s))
  | JObj kv => Ok (map (fun p => JStr (fst p)) kv)
  | _ => Raise TypeError
  end.

(** A comprehension whose element expression may raise. *)
Fixpoint map_result {A B} (f : A -> result B) (l : list A)
  : result (list B) :=
  match l with
  | [] => Ok []
  | a :: r => b <- f a ;; bs <- map_result f r ;; Ok (b :: bs)
  end.

End PyVal.

(* ------------------------------------------------------------------ *)
(** ** [services/api_client.py] *)

Module ApiClient.
Import Json Exn PyVal.
Open Scope string_scope.
Open Scope exn_scope.

(** *** The three regular expressions *)

Fixpoint strip_prefix (p s : string) : option string :=
  match p, s with
  | "", _ => Some s
  | String a p', String b s' =>
    if Ascii.eqb a b then strip_prefix p' s' else None
  | String _ _, "" => None
  end.

Definition newline : ascii := ascii_of_N 10.

(** [(.*?)\)]: the shortest run without a line feed that is followed
    by a closing parenthesis. *)
Fixpoint lazy_group (s : string) : option string :=
  match s with
  | "" => None
  | String c r =>
    if Ascii.eqb c ")" then Some ""
    else if Ascii.eqb c newline then None
    else option_map (String c) (lazy_group r)
  end.

(** [re.search(<lit>\((.*?)\), s)], giving [m.group(1)];
    [lit] already ends with the opening parenthesis. *)
Fixpoint search_link (lit : string) (s : string) : option string :=
  let here :=
    match strip_prefix lit s with
    | Some rest => lazy_group rest
    | None => None
    end in
  match here with
  | Some g => Some g
  | None =>
    match s with
    | "" => None
    | String _ r => search_link lit r
    end
  end.

Definition click_download : string := "[点击下载](".
Definition image_markdown : string := "![图片](".

Definition is_b64_char (c : ascii) : bool :=
  let n := N_of_ascii c in
  ((65 <=? n) && (n <=? 90) || (97 <=? n) && (n <=? 122)
   || (48 <=? n) && (n <=? 57) || (n =? 43) || (n =? 47) || (n =? 61))%N.

Definition not_semicolon (c : ascii) : bool := negb (Ascii.eqb c ";").

(** Longest prefix whose characters satisfy [f], and the remainder. *)
Fixpoint span (f : ascii -> bool) (s : string) : string * string :=
  match s with
  | "" => ("", "")
  | String c r =>
    if f c then let '(a, b) := span f r in (String c a, b)
    else ("", s)
  end.

(** A match of [data:image/[^;]+;base64,[A-Za-z0-9+/=]+] anchored at
    the start of [s]. *)
Definition data_uri_here (s : string) : option string :=
  match strip_prefix "data:image/" s with
  | None => None
  | Some r1 =>
    let '(mime, r2) := span not_semicolon r1 in
    match mime with
    | "" => None
    | _ =>
      match strip_prefix ";base64," r2 with
      | None => None
      | Some r3 =>
        let '(payload, _) := span is_b64_char r3 in
        match payload with
        | "" => None
        | _ => Some ("data:image/" ++ mime ++ ";base64," ++ payload)
        end
      end
    end
  end.

(** [re.search(r"data:image/[^;]+;base64,[A-Za-z0-9+/=]+", s)],
    giving [m.group(0)]. *)
Fixpoint search_data_uri (s : string) : option string :=
  match data_uri_here s with
  | Some m => Some m
  | None =>
    match s with
    | "" => None
    | String _ r => search_data_uri r
    end
  end.

(** *** Reading the content field *)

(** [x[0]] *)
Definition py_item0 (x : json) : result json :=
  match x with
  | JArr (v :: _) => Ok v
  | JArr [] => Raise IndexError
  | JStr s =>
    match first_char s with
    | Some c => Ok (JStr c)
    | None => Raise IndexError
    end
  | JObj _ => Raise KeyError
  | _ => Raise TypeError
  end.

(** [data.get("choices", [{}])[0].get("message", {}).get("content")] *)
Definition get_content (data : json) : result json :=
  choices <- py_get data "choices" (JArr [JObj []]) ;;
  first <- py_item0 choices ;;
  message <- py_get first "message" (JObj []) ;;
  py_get message "content" JNull.

(** The loop over the parts of a list content. *)
Fixpoint scan_parts (parts : list json) : result (option json) :=
  match parts with
  | [] => Ok None
  | part :: rest =>
    match part with
    | JObj kv =>
      if match lookup "type" kv with
         | Some t => json_is_str t "image_url"
         | None => false
         end
      then
        holder <- py_get part "image_url" (JObj []) ;;
        url <- py_get holder "url" JNull ;;
        if truthy url then Ok (Some url) else scan_parts rest
      else scan_parts rest
    | _ => scan_parts rest
    end
  end.

Definition no_image_data : exn := ValueError "响应中没有找到图片数据".
Definition no_image_data_list : exn := ValueError "响应中没有找到图片数据(list)".
Definition unparseable : exn := ValueError "响应格式无法解析".

Definition or_else {A} (a b : option A) : option A :=
  match a with Some _ => a | None => b end.

(** Step 1 of the parser, on a string content. *)
Definition markdown_link (model_type content : string) : option string :=
  if negb (String.eqb model_type "nano-banana")
  then or_else (search_link click_download content)
               (search_link image_markdown content)
  else None.

(** Lines 101-134: from the decoded body to the locator. *)
Definition parse_response (model_type : string) (data : json) : result json :=
  content <- get_content data ;;
  match content with
  | JStr s =>
    match markdown_link model_type s with
    | Some g => Ok (JStr g)
    | None =>
      match search_data_uri s with
      | Some m2 => Ok (JStr m2)
      | None => Raise no_image_data
      end
    end
  | JArr parts =>
    found <- scan_parts parts ;;
    match found with
    | Some url => Ok url
    | None => Raise no_image_data_list
    end
  | _ =>
    match search_data_uri (dumps data) with
    | Some m3 => Ok (JStr m3)
    | None => Raise unparseable
    end
  end.

(** *** The request and the retry loop *)

Record http_response := {
  status : Z;
  text : string;            (* [await resp.text()] *)
  body : result json        (* [await resp.json()] *)
}.

Inductive post_outcome :=
| PostRaised (e : exn)
| PostResponse (r : http_response).

(** [text[:200]] counts characters: the first [n] characters of a
    UTF-8 string. *)
Fixpoint utf8_take (n : nat) (s : string) : string :=
  match n, s with
  | S n', String c r =>
    let k := continuation_run r in
    String c k ++ utf8_take n' (substring (String.length k)
                                          (String.length r) r)
  | _, _ => ""
  end.

Definition http_error (r : http_response) : exn :=
  ValueError ("HTTP " ++ string_of_Z (status r) ++ ": "
                      ++ utf8_take 200 (text r)).

(** One pass through the [try] body after the back-off. *)
Definition attempt_result (model_type : string) (o : post_outcome)
  : result json :=
  match o with
  | PostRaised e => Raise e
  | PostResponse r =>
    if negb (status r =? 200)%Z then Raise (http_error r)
    else data <- body r ;; parse_response model_type data
  end.

(** The [except] clause catches exactly these. *)
Definition caught (e : exn) : bool :=
  match e with
  | ValueError _ | ClientError _ | TimeoutError => true
  | _ => false
  end.

(** [min(8, 0.5 * (2 ** (attempt - 1)))] for [attempt > 0].  The
    product converts the integer power to a double, which raises
    [OverflowError] from [2 ** 1024] on; below that every value is
    exact. *)
Definition backoff_delay (attempt : Z) : result Q :=
  let p := (2 ^ (attempt - 1))%Z in
  if (2 ^ 1024 <=? p)%Z then Raise OverflowError
  else
    let x := Qmult (1 # 2) (inject_Z p) in
    Ok (if Qle_bool 8 x then inject_Z 8 else x).

Inductive event :=
| Sleep (seconds : Q)
| Post (attempt : Z).

Inductive outcome :=
| Returned (v : option json)
| Raised (e : exn)
| OutOfFuel.

Section Loop.
Variable model_type : string.
Variable retry_count : Z.
(** What the network answers to the request of each attempt. *)
Variable network : Z -> post_outcome.

(** [session.post] inside [async with aiohttp.ClientSession(timeout=...,
    connector=connector)].  The one [TCPConnector] is built before the
    loop; a session owns the connector it is given and closes it when
    its [async with] block is left.  A session over a closed connector
    is itself closed, and its [post] raises [RuntimeError] before
    anything is sent. *)
Definition session_post (connector_closed : bool) (attempt : Z)
  : list event * post_outcome :=
  if connector_closed
  then ([], PostRaised (RuntimeError "Session is closed"))
  else ([Post attempt], network attempt).

(** The [while attempt <= retry_count] loop; [fuel] bounds the
    number of iterations.  [connector_closed] is the state of the
    shared connector on entry: every pass through the session block
    leaves it closed. *)
Fixpoint retry_loop (fuel : nat) (connector_closed : bool) (attempt : Z)
  : list event * outcome :=
  match fuel with
  | O => ([], OutOfFuel)
  | S fuel' =>
    if (attempt <=? retry_count)%Z then
      match (if (attempt >? 0)%Z
             then d <- backoff_delay attempt ;; Ok [Sleep d]
             else Ok []) with
      | Raise e => ([], Raised e)
      | Ok slept =>
        let '(sent, answer) := session_post connector_closed attempt in
        match attempt_result model_type answer with
        | Ok v => ((slept ++ sent)%list, Returned (Some v))
        | Raise e =>
          if caught e then
            let attempt' := (attempt + 1)%Z in
            if (attempt' >? retry_count)%Z
            then ((slept ++ sent)%list, Raised e)
            else
              let '(evs, out) := retry_loop fuel' true attempt' in
              ((slept ++ sent ++ evs)%list, out)
          else ((slept ++ sent)%list, Raised e)
        end
      end
    else ([], Returned None)
  end.

(** The connector is fresh when the loop is entered. *)
Definition generate_image_async (api_key : string)
  : list event * outcome :=
  if String.eqb api_key "" then ([], Raised (ValueError "API密钥不能为空"))
  else retry_loop (S (Z.to_nat (retry_count + 1))) false 0%Z.

End Loop.

Fixpoint count_posts (evs : list event) : nat :=
  match evs with
  | [] => 0
  | Post _ :: r => S (count_posts r)
  | Sleep _ :: r => count_posts r
  end.

(** *** Notions used in the statements about this module *)

(** The delay the retry policy prescribes before attempt [i] (counted
    from 1), in seconds: [min(8, 0.5 * 2^(i-2))]. *)
Definition delay_before (i : Z) : Q :=
  Qmin (inject_Z 8) ((1 # 2) * (inject_Z 2) ^ (i - 2))%Q.


Fixpoint all_chars (f : ascii -> bool) (s : string) : bool :=
  match s with
  | "" => true
  | String c r => f c && all_chars f r
  end.

(** [m] is a base64 data URI of an image. *)
Definition is_data_uri (m : string) : Prop :=
  exists mime payload,
    m = "data:image/" ++ mime ++ ";base64," ++ payload
    /\ mime <> "" /\ all_chars not_semicolon mime = true
    /\ payload <> "" /\ all_chars is_b64_char payload = true.

(** A base64 data URI is embedded somewhere in [t]. *)
Definition contains_data_uri (t : string) : Prop :=
  exists pre m post, t = pre ++ m ++ post /\ is_data_uri m.

(** [isinstance(content, str)] or [isinstance(content, list)] *)
Definition str_or_list (v : json) : bool :=
  match v with JStr _ | JArr _ => true | _ => false end.

(** A response whose content is a list with a single text part; the
    text is a data URI. *)
Definition list_with_embedded_uri : json :=
  JObj [("choices",
         JArr [JObj [("message",
                      JObj [("content",
                             JArr [JObj [("type", JStr "text");
                                         ("text", JStr "data:image/png;base64,AAAA")]])])]])].

(** [s] does not start with a character accepted by [f]. *)
Definition stops (f : ascii -> bool) (s : string) : Prop :=
  match s with "" => True | String c _ => f c = false end.

End ApiClient.

(* ------------------------------------------------------------------ *)
(** ** Small string utilities shared by the remaining modules *)

Module Str.
Open Scope string_scope.

Definition nat_to_string (n : nat) : string :=
  NilEmpty.string_of_uint (Nat.to_uint n).

Fixpoint starts_with (p s : string) : bool :=
  match p, s with
  | "", _ => true
  | String a p', String b s' => Ascii.eqb a b && starts_with p' s'
  | String _ _, "" => false
  end.

(** [needle in hay] *)
Fixpoint contains (needle hay : string) : bool :=
  starts_with needle hay
  || match hay with
     | "" => false
     | String _ r => contains needle r
     end.

Definition ends_with (suffix s : string) : bool :=
  let n := String.length s in
  let k := String.length suffix in
  (k <=? n)%nat && String.eqb (substring (n - k) k s) suffix.

Definition mem (x : string) (l : list string) : bool :=
  existsb (String.eqb x) l.

End Str.

(* ------------------------------------------------------------------ *)
(** ** Result files: [get_unique_filename] and [download_image_async] *)

Module Download.
Import Exn Str.
Open Scope string_scope.

(** [os.path.join] of two components (POSIX flavour). *)
Definition path_join (a b : string) : string :=
  if starts_with "/" b then b
  else if String.eqb a "" || ends_with "/" a then a ++ b
  else a ++ "/" ++ b.

(** The file system as far as [os.path.exists] sees it: the paths
    that exist. *)
Definition fs := list string.

Definition path_exists (files : fs) (p : string) : bool := mem p files.

Definition base_filename (number : string) : string := number ++ ".png".

Definition numbered_filename (number : string) (counter : nat) : string :=
  number ++ "-" ++ nat_to_string counter ++ ".png".

(** The [while True] loop; [fuel] bounds the number of probes. *)
Fixpoint probe (files : fs) (number save_path : string)
         (fuel counter : nat) : option string :=
  match fuel with
  | O => None
  | S fuel' =>
    let new_filename := numbered_filename number counter in
    let new_path := path_join save_path new_filename in
    if negb (path_exists files new_path) then Some new_filename
    else probe files number save_path fuel' (S counter)
  end.

(** [None] only if the loop has not ended after one probe more than
    there are paths. *)
Definition get_unique_filename (files : fs) (number save_path : string)
  : option string :=
  let base_path := path_join save_path (base_filename number) in
  if negb (path_exists files base_path) then Some (base_filename number)
  else probe files number save_path (S (List.length files)) 2.

(** What the outside world does to one download. *)
Inductive write_outcome :=
| Written
| OpenFails (e : exn)       (* nothing is created *)
| WriteFails (e : exn).     (* the file exists, incomplete *)

Inductive get_outcome :=
| GetRaises (e : exn)
| GetStatus (code : Z).

Record world := {
  makedirs : option exn;    (* [os.makedirs] raising *)
  decode : option exn;      (* [base64.b64decode] raising *)
  get : get_outcome;        (* [session.get] *)
  write : write_outcome
}.

(** What a download does to the rest of the program. *)
Inductive effect :=
| Get (url : string)
| Complete (original_prompt filename : string)  (* direct call *)
| DeferFailed (original_prompt error_msg : string). (* QTimer.singleShot *)

(** [str(e)] *)
Definition str_exn (e : exn) : string :=
  match e with
  | ValueError m | ClientError m | OSError m | RuntimeError m => m
  | TimeoutError => ""
  | AttributeError => "AttributeError"
  | IndexError => "list index out of range"
  | KeyError => "KeyError"
  | TypeError => "TypeError"
  | OverflowError => "int too large to convert to float"
  | UnboundLocalError =>
    "cannot access local variable 'QTimer' where it is not associated with a value"
  end.

Definition has_comma (s : string) : bool := contains "," s.

(** Writing [file_path]: the new file system and whether it raised. *)
Definition write_file (w : world) (files : fs) (file_path : string)
  : fs * option exn :=
  match write w with
  | Written => (file_path :: files, None)
  | OpenFails e => (files, Some e)
  | WriteFails e => (file_path :: files, Some e)
  end.

(** The body of the outer [try]: effects, file system, and the
    exception that reaches the outer handler, if any. *)
Definition download_body (w : world) (files : fs)
           (save_path image_url number original_prompt : string)
  : list effect * fs * option exn :=
  match makedirs w with
  | Some e => ([], files, Some e)
  | None =>
    match get_unique_filename files number save_path with
    | None => ([], files, None)
    | Some filename =>
      let file_path := path_join save_path filename in
      if starts_with "data:image/" image_url then
        if negb (has_comma image_url)
        then ([], files, Some (ValueError "not enough values to unpack (expected 2, got 1)"))
        else
          match decode w with
          | Some e => ([], files, Some e)
          | None =>
            match write_file w files file_path with
            | (files', Some e) => ([], files', Some e)
            | (files', None) =>
              ([Complete original_prompt filename], files', None)
            end
          end
      else
        match get w with
        | GetRaises e => ([Get image_url], files, Some e)
        | GetStatus code =>
          if (code =? 200)%Z then
            match write_file w files file_path with
            | (files', Some e) => ([Get image_url], files', Some e)
            | (files', None) =>
              ([Get image_url; Complete original_prompt filename],
               files', None)
            end
          else
            (* [QTimer] is a local name of the function (imported in
               the handler below) and not yet bound here *)
            ([Get image_url], files, Some UnboundLocalError)
        end
    end
  end.

Definition save_failed (e : exn) : string := "保存图片失败: " ++ str_exn e.

(** [download_image_async]: the outer handler turns every exception
    into one deferred [mark_download_failed]. *)
Definition download_image_async (w : world) (files : fs)
           (save_path image_url number original_prompt : string)
  : list effect * fs :=
  match download_body w files save_path image_url number original_prompt with
  | (effs, files', None) => (effs, files')
  | (effs, files', Some e) =>
    ((effs ++ [DeferFailed original_prompt (save_failed e)])%list, files')
  end.

Definition count_gets (effs : list effect) : nat :=
  List.length (filter (fun e => match e with Get _ => true | _ => false end) effs).

(** *** Notions used in the statements about this module *)

(** The directory prefix [os.path.join] puts before a file name that
    starts with [number]. *)
Definition join_prefix (save_path number : string) : string :=
  match number with
  | String c _ =>
    if Ascii.eqb "/" c then ""
    else if String.eqb save_path "" || ends_with "/" save_path then save_path
         else save_path ++ "/"
  | "" =>
    if String.eqb save_path "" || ends_with "/" save_path then save_path
    else save_path ++ "/"
  end.

(** The name with counter [k] is in use. *)
Definition taken (files : fs) (number save_path : string) (k : nat) : Prop :=
  path_exists files (path_join save_path (numbered_filename number k)) = true.

(** The download reached [mark_download_complete]. *)
Definition completes (effs : list effect) : bool :=
  existsb (fun e => match e with Complete _ _ => true | _ => false end) effs.

(** The server answers 404. *)
Definition http_404 : world :=
  {| makedirs := None; decode := None; get := GetStatus 404; write := Written |}.

End Download.

(* ------------------------------------------------------------------ *)
(** ** [services/history.py]: [save_history_record] *)

Module History.
Import Json Exn PyVal Str.
Open Scope string_scope.
Open Scope exn_scope.

(** What opening a file and [json.load] come to: one of the errors
    the scan passes over, a decoding error it does not, or a JSON
    document. *)
Inductive content :=
| Unreadable       (* [IOError] or [json.JSONDecodeError] *)
| Undecodable      (* bytes that are not UTF-8: [UnicodeDecodeError] *)
| Doc (v : json).

(** The files of the history directory, in the order a listing
    returns them; [None] when the directory does not exist. *)
Definition dir := list (string * content).

Record world := {
  mkdir_error : option exn;            (* [mkdir] raising *)
  write_error : string -> option exn;  (* opening that file to write *)
  created_time : string;     (* [time.strftime("%Y-%m-%d %H:%M:%S")] *)
  timestamp : string         (* [time.strftime("%Y%m%d_%H%M%S")] *)
}.

Fixpoint read_file (name : string) (d : dir) : option content :=
  match d with
  | [] => None
  | (n, c) :: r => if String.eqb n name then Some c else read_file name r
  end.

(** Writing a file replaces its content, or adds the file. *)
Fixpoint put_file (name : string) (c : content) (d : dir) : dir :=
  match d with
  | [] => [(name, c)]
  | (n, c') :: r =>
    if String.eqb n name then (n, c) :: r else (n, c') :: put_file name c r
  end.

(** [ensure_history_directory] *)
Definition ensure_history_directory (w : world) (disk : option dir)
  : result dir :=
  match disk with
  | Some d => Ok d
  | None =>
    match mkdir_error w with
    | Some e => Raise e
    | None => Ok []
    end
  end.

(** [len([p for p in prompt_data if p.get("status") == s])] *)
Fixpoint count_status (s : string) (prompt_data : list json) : result Z :=
  match prompt_data with
  | [] => Ok 0%Z
  | p :: r =>
    st <- py_get p "status" JNull ;;
    n <- count_status s r ;;
    Ok (if json_is_str st s then (n + 1)%Z else n)
  end.

Definition get_or (config_data : list (string * json)) (k : string)
           (default : json) : json :=
  match lookup k config_data with Some v => v | None => default end.

Definition config_snapshot (config_data : list (string * json)) : json :=
  JObj [ ("api_platform", get_or config_data "api_platform" (JStr ""));
         ("model_type", get_or config_data "model_type" (JStr ""));
         ("thread_count", get_or config_data "thread_count" (JInt 5));
         ("retry_count", get_or config_data "retry_count" (JInt 3));
         ("image_ratio", get_or config_data "image_ratio" (JStr "3:2"));
         ("current_style", get_or config_data "current_style" (JStr ""));
         ("custom_style_content",
          get_or config_data "custom_style_content" (JStr "")) ].

Definition build_record (w : world) (prompt_data : list json)
           (config_data : list (string * json)) : result json :=
  ok <- count_status "成功" prompt_data ;;
  ko <- count_status "失败" prompt_data ;;
  Ok (JObj [ ("version", JStr "3.4");
             ("created_time", JStr (created_time w));
             ("total_prompts", JInt (Z.of_nat (List.length prompt_data)));
             ("success_count", JInt ok);
             ("failed_count", JInt ko);
             ("config", config_snapshot config_data);
             ("prompts", JArr prompt_data) ]).

(** [[{"prompt": p.get("prompt", "")} for p in items]] *)
Definition prompt_texts (items : list json) : result (list json) :=
  map_result
    (fun p => t <- py_get p "prompt" (JStr "") ;; Ok (JObj [("prompt", t)]))
    items.

Definition hashed_content (config : json) (texts : list json) : json :=
  JObj [("config", config); ("prompts", JArr texts)].

(** [sort_keys=True]: every dict is written with its keys in order. *)
Fixpoint insert_key (p : string * json) (l : list (string * json))
  : list (string * json) :=
  match l with
  | [] => [p]
  | q :: r =>
    if String.leb (fst p) (fst q) then p :: l else q :: insert_key p r
  end.

Fixpoint sort_keys (v : json) : json :=
  match v with
  | JArr l => JArr (map sort_keys l)
  | JObj kv =>
    JObj (fold_right insert_key []
            (map (fun p => (fst p, sort_keys (snd p))) kv))
  | _ => v
  end.

(** [fnmatch] against [sora_history_*.json] *)
Definition is_history_name (name : string) : bool :=
  starts_with "sora_history_" name && ends_with ".json" name
  && (18 <=? String.length name)%nat.

Section Hashing.
(** [hashlib.md5(...).hexdigest()] of the encoded text. *)
Variable md5 : string -> string.

Definition content_hash (v : json) : string := md5 (dumps (sort_keys v)).

(** The scan of the existing files; a file that cannot be read is
    passed over, any other exception leaves the loop. *)
Fixpoint find_duplicate (h : string) (files : dir)
  : result (option string) :=
  match files with
  | [] => Ok None
  | (name, c) :: rest =>
    match c with
    | Unreadable => find_duplicate h rest
    | Undecodable =>
      Raise (ValueError "'utf-8' codec can't decode byte")
    | Doc existing_data =>
      config <- py_get existing_data "config" (JObj []) ;;
      prompts <- py_get existing_data "prompts" (JArr []) ;;
      items <- py_iter prompts ;;
      texts <- prompt_texts items ;;
      if String.eqb (content_hash (hashed_content config texts)) h
      then Ok (Some name)
      else find_duplicate h rest
    end
  end.

(** [glob.glob(str(history_path / "sora_history_*.json"))] for a
    directory path that holds none of the characters [*], [?] and [[]:
    the pattern then selects among the files of this directory, by
    name.  With one of these characters in the path the directory part
    is a pattern too, which this definition does not follow; see
    [literal_path]. *)
Definition glob (d : dir) : dir :=
  filter (fun f => is_history_name (fst f)) d.

Definition field (history_record : json) (k : string) : json :=
  match history_record with
  | JObj kv => match lookup k kv with Some v => v | None => JNull end
  | _ => JNull
  end.

(** The [if duplicate_file:] block: [Some] directory when the record
    was rewritten in place, [None] when the attempt raised (which is
    only logged). *)
Definition update_in_place (w : world) (history_record : json)
           (prompt_data : list json) (duplicate_file : string) (d : dir)
  : option dir :=
  match read_file duplicate_file d with
  | Some (Doc (JObj kv)) =>
    let kv1 := assign "created_time" (field history_record "created_time") kv in
    let kv2 := assign "total_prompts" (field history_record "total_prompts") kv1 in
    let kv3 := assign "success_count" (field history_record "success_count") kv2 in
    let kv4 := assign "failed_count" (field history_record "failed_count") kv3 in
    let kv5 := assign "prompts" (JArr prompt_data) kv4 in
    match write_error w duplicate_file with
    | Some _ => None
    | None => Some (put_file duplicate_file (Doc (JObj kv5)) d)
    end
  | _ => None
  end.

Definition default_name (w : world) : string :=
  "sora_history_" ++ timestamp w ++ ".json".

Definition target_name (w : world) (filename : option string) : string :=
  let filename :=
    match filename with
    | None | Some "" => default_name w
    | Some f => f
    end in
  if negb (ends_with ".json" filename) then filename ++ ".json"
  else filename.

Definition history_path (app_path : string) : string :=
  app_path ++ "/history".

(** [str(history_path / name)] for a name that is a single path
    component, as the names of a listing and the default name are.  A
    name with a separator in it (an absolute path, a step to the parent
    directory) joins to a path outside this scheme; see [plain_name]. *)
Definition file_path (app_path name : string) : string :=
  history_path app_path ++ "/" ++ name.

(** The body of the outer [try]. *)
Definition save_body (w : world) (prompt_data : list json)
           (config_data : list (string * json)) (app_path : string)
           (filename : option string) (disk : option dir)
  : option dir * result string :=
  match ensure_history_directory w disk with
  | Raise e => (disk, Raise e)
  | Ok d =>
    match build_record w prompt_data config_data with
    | Raise e => (Some d, Raise e)
    | Ok history_record =>
      match prompt_texts prompt_data with
      | Raise e => (Some d, Raise e)
      | Ok texts =>
        let h := content_hash
                   (hashed_content (field history_record "config") texts) in
        match find_duplicate h (glob d) with
        | Raise e => (Some d, Raise e)
        | Ok duplicate_file =>
          let create :=
            let name := target_name w filename in
            match write_error w name with
            | Some e => (Some d, Raise e)
            | None =>
              (Some (put_file name (Doc history_record) d),
               Ok (file_path app_path name))
            end in
          match duplicate_file with
          | Some dup =>
            match update_in_place w history_record prompt_data dup d with
            | Some d' => (Some d', Ok (file_path app_path dup))
            | None => create
            end
          | None => create
          end
        end
      end
    end
  end.

(** [save_history_record]: [except Exception] answers [None]. *)
Definition save_history_record (w : world) (prompt_data : list json)
           (config_data : list (string * json)) (app_path : string)
           (filename : option string) (disk : option dir)
  : option dir * result (option string) :=
  match save_body w prompt_data config_data app_path filename disk with
  | (disk', Ok p) => (disk', Ok (Some p))
  | (disk', Raise _) => (disk', Ok None)
  end.

End Hashing.

(** The stored records: files that hold a JSON document. *)
Definition records (disk : option dir) : list string :=
  match disk with
  | None => []
  | Some d =>
    map fst (filter (fun f => match snd f with Doc _ => true
                                          | _ => false end) d)
  end.

(** *** Notions used in the statements about this module *)

(** The name is a single path component: it has no separator, so the
    file it names lies in the history directory itself. *)
Definition plain_name (name : string) : bool := negb (contains "/" name).

(** The path holds none of the characters [glob] reads as a pattern. *)
Definition literal_path (path : string) : bool :=
  negb (contains "*" path || contains "?" path || contains "[" path).

(** Two saves, two hours apart, with nothing failing. *)
Definition morning : world :=
  {| mkdir_error := None; write_error := fun _ => None;
     created_time := "2024-01-01 10:00:00"; timestamp := "20240101_100000" |}.

Definition noon : world :=
  {| mkdir_error := None; write_error := fun _ => None;
     created_time := "2024-01-01 12:00:00"; timestamp := "20240101_120000" |}.

(** The same batch before and after its only task succeeded. *)
Definition batch_failed : list json :=
  [JObj [("number", JStr "1"); ("prompt", JStr "cat"); ("status", JStr "失败")]].

Definition batch_done : list json :=
  [JObj [("number", JStr "1"); ("prompt", JStr "cat"); ("status", JStr "成功")]].

Definition demo_config : list (string * json) :=
  [("api_platform", JStr "apicore"); ("thread_count", JInt 9)].

(** [isinstance(v, dict)] *)
Definition is_dict (v : json) : bool :=
  match v with JObj _ => true | _ => false end.



End History.

(* ------------------------------------------------------------------ *)
(** ** [main.py]: the prompt table, its handlers and the scheduler *)

Module Scheduler.
Import Exn Str Download.
Open Scope string_scope.

(** The values the [status] entry of a row takes. *)
Inductive task_status :=
| Waiting                    (* 等待中 *)
| Generating                 (* 生成中 *)
| Retrying (text : string)   (* any text containing 重试 *)
| Downloading                (* 下载中 *)
| Succeeded                  (* 成功 *)
| Failed.                    (* 失败 *)

Record row := {
  number : string;
  prompt : string;
  status : task_status;
  image_url : string;
  error_msg : string;
  actual_filename : option string
}.

Definition table := list row.

Definition is_waiting (r : row) : bool :=
  match status r with Waiting => true | _ => false end.

Definition is_generating (r : row) : bool :=
  match status r with Generating | Retrying _ => true | _ => false end.

(** Generating, Retrying or Downloading. *)
Definition is_active (r : row) : bool :=
  match status r with
  | Generating | Retrying _ | Downloading => true
  | _ => false
  end.

(** [for data in self.prompt_table_data:
       if data['prompt'] == original_prompt: <f data>; break] *)
Fixpoint update_first (original_prompt : string) (f : row -> row)
         (t : table) : table :=
  match t with
  | [] => []
  | data :: rest =>
    if String.eqb (prompt data) original_prompt then f data :: rest
    else data :: update_first original_prompt f rest
  end.

Fixpoint find_first (original_prompt : string) (t : table) : option row :=
  match t with
  | [] => None
  | data :: rest =>
    if String.eqb (prompt data) original_prompt then Some data
    else find_first original_prompt rest
  end.

Definition set_status (st : task_status) (r : row) : row :=
  {| number := number r; prompt := prompt r; status := st;
     image_url := image_url r; error_msg := error_msg r;
     actual_filename := actual_filename r |}.

Definition handle_progress (t : table) (status_text original_prompt : string)
  : table :=
  update_first original_prompt
    (set_status (if contains "重试" status_text
                 then Retrying status_text else Generating))
    t.

Definition row_number (r : row) : string := number r.

Definition handle_success_row (url : string) (r : row) : row :=
  {| number := number r; prompt := prompt r; status := Downloading;
     image_url := url; error_msg := "";
     actual_filename := actual_filename r |}.

(** The first loop of [handle_success]: the new table and
    [actual_number]. *)
Definition handle_success (t : table) (url number original_prompt : string)
  : table * string :=
  (update_first original_prompt (handle_success_row url) t,
   match find_first original_prompt t with
   | Some data => row_number data
   | None => number
   end).

Definition mark_download_complete (t : table) (original_prompt : string)
           (filename : option string) : table :=
  update_first original_prompt
    (fun r =>
       {| number := number r; prompt := prompt r; status := Succeeded;
          image_url := image_url r; error_msg := error_msg r;
          actual_filename :=
            match filename with
            | None | Some "" => actual_filename r
            | Some f => Some f
            end |})
    t.

Definition download_failed_prefix : string := "下载失败: ".

Definition mark_download_failed (t : table) (original_prompt msg : string)
  : table :=
  update_first original_prompt
    (fun r =>
       {| number := number r; prompt := prompt r; status := Failed;
          image_url := image_url r;
          error_msg := download_failed_prefix ++ msg;
          actual_filename := actual_filename r |})
    t.

Definition handle_error (t : table) (error original_prompt : string)
  : table :=
  update_first original_prompt
    (fun r =>
       {| number := number r; prompt := prompt r; status := Failed;
          image_url := ""; error_msg := error;
          actual_filename := actual_filename r |})
    t.

(** *** [start_generation] *)

Record settings := {
  api_key : string;
  save_path : string;
  style_content : string;    (* as resolved by lines 4577-4584 *)
  image_ratio : string;
  prompt_numbers : list (string * string);
  category_links : list (list Matcher.link)
}.

(** The arguments of one [run_async_worker] call. *)
Record job := {
  j_prompt : string;
  j_images : list Matcher.link;
  j_number : string;
  j_index : nat;
  j_original : string
}.

Definition ratio_tag (cfg : settings) : string :=
  "图片比例【" ++ image_ratio cfg ++ "】".

Definition process_prompt (cfg : settings) (p : string) : string :=
  if negb (contains (ratio_tag cfg) p) then
    let p1 :=
      if negb (String.eqb (style_content cfg) "")
         && negb (contains (style_content cfg) p)
      then p ++ " " ++ style_content cfg
      else p in
    p1 ++ " " ++ ratio_tag cfg
  else p.

(** [get_image_data_map()[name]]: the last link stored under that
    name. *)
Definition get_image_data_map (cfg : settings) (n : Unicode.pystr)
  : option Matcher.link :=
  find (fun l => match Matcher.name l with
                 | Some m => Unicode.pystr_eqb m n
                 | None => false
                 end)
       (rev (List.concat (category_links cfg))).

Definition image_data_list (cfg : settings) (p : string)
  : list Matcher.link :=
  flat_map (fun n => match get_image_data_map cfg n with
                     | Some l => [l]
                     | None => []
                     end)
           (Matcher.extract_image_names (category_links cfg) (Unicode.u p)).

Fixpoint lookup_number (original_prompt : string)
         (numbers : list (string * string)) : option string :=
  match numbers with
  | [] => None
  | (k, v) :: r =>
    if String.eqb k original_prompt then Some v
    else lookup_number original_prompt r
  end.

(** The prompts of the rows whose status is 等待中. *)
Definition waiting_prompts (t : table) : list string :=
  map prompt (filter is_waiting t).

Fixpoint make_jobs (cfg : settings) (i : nat) (originals : list string)
  : list job :=
  match originals with
  | [] => []
  | original :: rest =>
    let p := process_prompt cfg original in
    {| j_prompt := p;
       j_images := image_data_list cfg p;
       j_number := match lookup_number original (prompt_numbers cfg) with
                   | Some n => n
                   | None => nat_to_string (i + 1)
                   end;
       j_index := i;
       j_original := original |}
      :: make_jobs cfg (S i) rest
  end.

Definition creation_failed (e : exn) : string :=
  "任务创建失败: " ++ str_exn e.

(** [run_async_worker]: the coroutine is scheduled on the event
    loop, or the exception of the scheduling is reported through
    [handle_error]. *)
Definition run_async_worker (spawn : job -> option exn) (j : job)
           (t : table) : table * list job :=
  match spawn j with
  | None => (t, [j])
  | Some e => (handle_error t (creation_failed e) (j_original j), [])
  end.

(** The final loop of [start_generation] over the prompts. *)
Fixpoint dispatch (spawn : job -> option exn) (jobs : list job) (t : table)
  : table * list job :=
  match jobs with
  | [] => (t, [])
  | j :: rest =>
    let '(t1, started) := run_async_worker spawn j t in
    let '(t2, others) := dispatch spawn rest t1 in
    (t2, (started ++ others)%list)
  end.

Definition start_generation (cfg : settings) (spawn : job -> option exn)
           (t : table) : table * list job :=
  if String.eqb (api_key cfg) "" then (t, [])
  else if String.eqb (save_path cfg) "" then (t, [])
  else match t with
       | [] => (t, [])
       | _ => dispatch spawn (make_jobs cfg 0 (waiting_prompts t)) t
       end.

(** *** The workers behind the semaphore *)

Record download_task := {
  d_url : string;
  d_number : string;
  d_original : string
}.

Record state := {
  rows : table;
  permits : nat;                 (* value of [self.semaphore] *)
  queued : list job;             (* waiting in [async with self.semaphore] *)
  running : list job;            (* inside [worker.run], holding a permit *)
  downloads : list download_task;(* [download_image_async] tasks *)
  timers : list (string * string);
                                 (* pending [mark_download_failed] calls *)
  files : fs
}.

Inductive event :=
| Submit (spawn : job -> option exn)    (* [start_generation] *)
| Acquire (i : nat)       (* a queued worker enters the semaphore *)
| Finish (i : nat) (r : result string)
                          (* [generate_image_async] returns or raises *)
| RunDownload (i : nat) (w : Download.world)
| Fire (i : nat).         (* a pending timer callback runs *)

Fixpoint remove_nth {A} (i : nat) (l : list A) : list A :=
  match i, l with
  | _, [] => []
  | O, _ :: r => r
  | S k, a :: r => a :: remove_nth k r
  end.

Definition request_failed (e : exn) : string := "请求失败: " ++ str_exn e.

(** The direct calls a download makes on the table, and the timers it
    leaves behind. *)
Fixpoint apply_effects (effs : list effect) (t : table)
         (pending : list (string * string))
  : table * list (string * string) :=
  match effs with
  | [] => (t, pending)
  | Get _ :: r => apply_effects r t pending
  | Complete p f :: r =>
    apply_effects r (mark_download_complete t p (Some f)) pending
  | DeferFailed p m :: r =>
    apply_effects r t (pending ++ [(p, m)])%list
  end.

Section Run.
Variable cfg : settings.

Definition step (s : state) (e : event) : option state :=
  match e with
  | Submit spawn =>
    let '(t, started) := start_generation cfg spawn (rows s) in
    Some {| rows := t; permits := permits s;
            queued := (queued s ++ started)%list; running := running s;
            downloads := downloads s; timers := timers s;
            files := files s |}
  | Acquire i =>
    match nth_error (queued s) i, permits s with
    | Some j, S k =>
      Some {| rows := handle_progress (rows s) "生成中..." (j_original j);
              permits := k;
              queued := remove_nth i (queued s);
              running := (running s ++ [j])%list;
              downloads := downloads s; timers := timers s;
              files := files s |}
    | _, _ => None
    end
  | Finish i r =>
    match nth_error (running s) i with
    | None => None
    | Some j =>
      let original := j_original j in
      match r with
      | Ok url =>
        let '(t, actual_number) :=
          handle_success (rows s) url (j_number j) original in
        if negb (String.eqb (save_path cfg) "") then
          Some {| rows := t; permits := S (permits s);
                  queued := queued s;
                  running := remove_nth i (running s);
                  downloads :=
                    (downloads s ++
                       [{| d_url := url; d_number := actual_number;
                           d_original := original |}])%list;
                  timers := timers s; files := files s |}
        else
          Some {| rows := mark_download_complete t original None;
                  permits := S (permits s);
                  queued := queued s;
                  running := remove_nth i (running s);
                  downloads := downloads s;
                  timers := timers s; files := files s |}
      | Raise e =>
        Some {| rows := handle_error (rows s) (request_failed e) original;
                permits := S (permits s);
                queued := queued s;
                running := remove_nth i (running s);
                downloads := downloads s;
                timers := timers s; files := files s |}
      end
    end
  | RunDownload i w =>
    match nth_error (downloads s) i with
    | None => None
    | Some d =>
      let '(effs, files') :=
        download_image_async w (files s) (save_path cfg)
                             (d_url d) (d_number d) (d_original d) in
      let '(t, pending) := apply_effects effs (rows s) (timers s) in
      Some {| rows := t; permits := permits s;
              queued := queued s; running := running s;
              downloads := remove_nth i (downloads s);
              timers := pending; files := files' |}
    end
  | Fire i =>
    match nth_error (timers s) i with
    | None => None
    | Some (p, m) =>
      Some {| rows := mark_download_failed (rows s) p m;
              permits := permits s;
              queued := queued s; running := running s;
              downloads := downloads s;
              timers := remove_nth i (timers s);
              files := files s |}
    end
  end.

Fixpoint run (s : state) (evs : list event) : option state :=
  match evs with
  | [] => Some s
  | e :: r =>
    match step s e with
    | Some s' => run s' r
    | None => None
    end
  end.

End Run.

(** *** The concurrency limit and the semaphore *)

(** The three attributes of the main window that decide the capacity:
    [thread_count], [max_concurrent_tasks] and [semaphore], the latter
    [None] until the first worker creates it, then known by the
    capacity it was created with. *)
Record limits := {
  thread_count : Z;
  max_concurrent_tasks : Z;
  semaphore : option nat
}.

(** [__init__], lines 2903 and 2931-2932. *)
Definition initial_limits : limits :=
  {| thread_count := 50; max_concurrent_tasks := 50; semaphore := None |}.

(** [refresh_ui_after_settings], lines 3724-3725: the limit follows
    the thread count; the semaphore is not touched. *)
Definition refresh_ui_after_settings (l : limits) : limits :=
  {| thread_count := thread_count l;
     max_concurrent_tasks := thread_count l;
     semaphore := semaphore l |}.

(** [accept_settings], [load_config] and [load_history_data] store a
    thread count and refresh. *)
Definition set_thread_count (n : Z) (l : limits) : limits :=
  refresh_ui_after_settings
    {| thread_count := n;
       max_concurrent_tasks := max_concurrent_tasks l;
       semaphore := semaphore l |}.

(** [_execute_async_worker], lines 3790-3791:
    [if not self.semaphore:
       self.semaphore = asyncio.Semaphore(self.max_concurrent_tasks)]. *)
Definition ensure_semaphore (l : limits) : result limits :=
  match semaphore l with
  | Some _ => Ok l
  | None =>
    if (max_concurrent_tasks l <? 0)%Z
    then Raise (ValueError "Semaphore initial value must be >= 0")
    else Ok {| thread_count := thread_count l;
               max_concurrent_tasks := max_concurrent_tasks l;
               semaphore := Some (Z.to_nat (max_concurrent_tasks l)) |}
  end.

(** What happens to the limit during a session: a new thread count is
    stored, or a worker starts (an exception of the latter stays inside
    its coroutine). *)
Inductive change :=
| SetThreadCount (n : Z)
| WorkerStarts.

Definition apply_change (l : limits) (c : change) : limits :=
  match c with
  | SetThreadCount n => set_thread_count n l
  | WorkerStarts =>
    match ensure_semaphore l with
    | Ok l' => l'
    | Raise _ => l
    end
  end.

(** Nothing in flight: the table as submitted, a fresh semaphore of
    [K] permits. *)
Definition idle (K : nat) (t : table) (disk : fs) : state :=
  {| rows := t; permits := K; queued := []; running := [];
     downloads := []; timers := []; files := disk |}.

Definition count_active (t : table) : nat :=
  List.length (filter is_active t).


Definition fresh (n p : string) : row :=
  {| number := n; prompt := p; status := Waiting; image_url := "";
     error_msg := ""; actual_filename := None |}.

(** *** Notions used in the statements about this module *)



(** Row updates that leave the prompt text alone. *)
Definition keeps_prompt (f : row -> row) : Prop :=
  forall r, prompt (f r) = prompt r.



(** Settings with a key and an output directory. *)
Definition demo_settings : settings :=
  {| api_key := "k"; save_path := "/out"; style_content := "";
     image_ratio := "3:2"; prompt_numbers := []; category_links := [] |}.

(** Every coroutine is scheduled. *)
Definition always_spawns (j : job) : option exn := None.

(** A finished row with the prompt text [a]. *)
Definition done_row : row :=
  {| number := "1"; prompt := "a"; status := Succeeded;
     image_url := "http://h/a.png"; error_msg := "";
     actual_filename := Some "1.png" |}.

Definition two_waiting : table := [fresh "1" "a"; fresh "2" "b"].




(** One download in flight for the first of two rows. *)
Definition downloading_state : state :=
  {| rows := [set_status Downloading (fresh "1" "a"); fresh "2" "b"];
     permits := 1; queued := []; running := [];
     downloads := [{| d_url := "http://h/a.png"; d_number := "1";
                      d_original := "a" |}];
     timers := []; files := [] |}.

End Scheduler.

(* ------------------------------------------------------------------ *)
(** ** Further notions about [extract_image_names] *)

Module Matching.
Import Unicode Matcher.

(** The character before position [i] of [text], if any. *)
Definition char_before (text : pystr) (i : nat) : option cp :=
  match i with
  | O => None
  | S k => nth_error text k
  end.

(** Neither the character before the span nor the one after it is a
    letter, a digit or an ideograph. *)
Definition delimited (text : pystr) (sp : nat * nat) : Prop :=
  boundary (char_before text (fst sp)) = true
  /\ boundary (nth_error text (snd sp)) = true.

(** The characters the normalization of the prompt removes. *)
Definition unified_away (c : cp) : bool :=
  ((c =? 40) || (c =? 41) || (c =? 12288))%N.

End Matching.

(* ------------------------------------------------------------------ *)
(** ** Further notions about the response parser and the retry loop *)

Module Parsing.
Import Json Exn PyVal ApiClient.
Open Scope string_scope.

(** What [(.*?)] may hold before the closing parenthesis. *)
Definition link_char (c : ascii) : bool :=
  negb (Ascii.eqb c ")" || Ascii.eqb c newline).

(** [isinstance(part, dict) and part.get("type") == "image_url"] *)
Definition is_image_part (part : json) : bool :=
  match part with
  | JObj kv =>
    match lookup "type" kv with
    | Some t => json_is_str t "image_url"
    | None => false
    end
  | _ => false
  end.

(** An image part that carries the non-empty locator [url]. *)
Definition usable (part url : json) : Prop :=
  exists kv holder,
    part = JObj kv
    /\ lookup "type" kv = Some (JStr "image_url")
    /\ lookup "image_url" kv = Some (JObj holder)
    /\ lookup "url" holder = Some url
    /\ truthy url = true.

(** How the call ends when an attempt is not followed by another. *)
Definition settle (r : result json) : outcome :=
  match r with
  | Ok v => Returned (Some v)
  | Raise e => Raised e
  end.

(** The attempt ends the loop: it succeeds, raises something the
    [except] clause does not catch, or is the last one allowed. *)
Definition decisive (retry_count k : Z) (r : result json) : Prop :=
  match r with
  | Ok _ => True
  | Raise e => caught e = false \/ k = retry_count
  end.

(** A server that answers every request with the body [data]. *)
Definition always_answers (data : json) (attempt : Z) : post_outcome :=
  PostResponse {| status := 200; text := ""; body := Ok data |}.

Definition with_content (content : json) : json :=
  JObj [("choices", JArr [JObj [("message", JObj [("content", content)])]])].

(** An image part whose [image_url] is the locator itself instead of
    an object holding it. *)
Definition flat_image_part : json :=
  JObj [("type", JStr "image_url"); ("image_url", JStr "http://h/a.png")].

End Parsing.

(* ------------------------------------------------------------------ *)
(** ** Worlds for the statements about downloads *)

Module Saving.
Import Exn Download.
Open Scope string_scope.

(** The server answers, the file can be opened, and the disk is full. *)
Definition disk_full : world :=
  {| makedirs := None; decode := None; get := GetStatus 200;
     write := WriteFails (OSError "No space left on device") |}.

End Saving.

(* ------------------------------------------------------------------ *)
(** ** The progress display and further notions about the scheduler *)

Module Tracking.
Import Exn Str Download Scheduler.
Open Scope string_scope.

Definition is_succeeded (r : row) : bool :=
  match status r with Succeeded => true | _ => false end.

Definition is_failed (r : row) : bool :=
  match status r with Failed => true | _ => false end.

Definition is_downloading (r : row) : bool :=
  match status r with Downloading => true | _ => false end.

(** The numbers [update_generation_progress] computes. *)
Record progress := {
  waiting_count : nat;
  generating_count : nat;
  success_count : nat;
  failed_count : nat;
  total_tasks : nat;
  completed_tasks : nat
}.

Definition update_generation_progress (t : table) : progress :=
  let success := List.length (filter is_succeeded t) in
  let failed := List.length (filter is_failed t) in
  {| waiting_count := List.length (filter is_waiting t);
     generating_count := List.length (filter is_generating t);
     success_count := success;
     failed_count := failed;
     total_tasks := List.length t;
     completed_tasks := success + failed |}.

(** The text of the progress label; [None] when the table is empty
    and the label is left as it is. *)
Definition progress_label (t : table) : option string :=
  let c := update_generation_progress t in
  if (0 <? total_tasks c)%nat then
    Some (if (0 <? generating_count c)%nat
          then "进行中: 等待" ++ nat_to_string (waiting_count c)
               ++ "个 | 生成中" ++ nat_to_string (generating_count c)
               ++ "个 | 已完成" ++ nat_to_string (success_count c)
               ++ "个 | 失败" ++ nat_to_string (failed_count c) ++ "个"
          else "已处理 " ++ nat_to_string (completed_tasks c) ++ "/"
               ++ nat_to_string (total_tasks c)
               ++ " 个任务 | 成功" ++ nat_to_string (success_count c)
               ++ "个 | 失败" ++ nat_to_string (failed_count c) ++ "个")
  else None.

(** The rows [check_generation_completion] counts as unfinished. *)
Definition active_tasks (t : table) : table :=
  filter (fun r => is_waiting r || is_active r) t.

(** Whether [check_generation_completion] calls
    [generation_finished], given the enabled flags of the three
    buttons. *)
Definition check_generation_completion (t : table)
           (generate regenerate_selected regenerate_all : bool) : bool :=
  match active_tasks t with
  | [] => negb generate || negb regenerate_selected || negb regenerate_all
  | _ => false
  end.

(** Every row that is generating or downloading is the first row with
    its prompt text. *)
Fixpoint first_active (seen : list string) (t : table) : Prop :=
  match t with
  | [] => True
  | r :: rest =>
    (is_active r = true -> ~ In (prompt r) seen)
    /\ first_active (prompt r :: seen) rest
  end.

(** The prompts that a running worker, a download or a pending
    failure call works for. *)
Definition in_flight (s : state) : list string :=
  (map j_original (running s) ++ map d_original (downloads s)
     ++ map fst (timers s))%list.

(** Every row that is generating or downloading has its prompt among
    [P]. *)
Definition accounted (t : table) (P : list string) : Prop :=
  forall r, In r t -> is_active r = true -> In (prompt r) P.

(** Row updates that end in a status that is not in progress. *)
Definition quiets (f : row -> row) : Prop :=
  forall r, is_active (f r) = false.

Record tracked (s : state) : Prop := {
  tr_first : first_active [] (rows s);
  tr_flight : accounted (rows s) (in_flight s)
}.

(** The row names a file that exists in the save directory. *)
Definition has_file (save_path : string) (files : fs) (r : row) : Prop :=
  exists f, actual_filename r = Some f
            /\ path_exists files (path_join save_path f) = true.

Definition files_recorded (save_path : string) (t : table) (files : fs)
  : Prop :=
  forall r, In r t -> is_succeeded r = true -> has_file save_path files r.

(** A complete run of one task: generation, then the download. *)
Definition one_task_trace : list event :=
  [Submit always_spawns; Acquire 0; Finish 0 (Ok "http://h/a.png");
   RunDownload 0 {| makedirs := None; decode := None;
                    get := GetStatus 200; write := Written |}].

End Tracking.

(* ------------------------------------------------------------------ *)
(** ** [services/history.py]: reading the records back *)

Module HistoryRead.
Import Json Exn PyVal Str History.
Open Scope string_scope.

(** [load_history_record]: the document of the file, or [None].
    Only the history directory is modelled; [elsewhere] stands for
    the files at other paths. *)
Definition load_history_record (elsewhere : string -> content)
           (app_path : string) (path : string) (disk : option dir)
  : option json :=
  let opened :=
    match ApiClient.strip_prefix (history_path app_path ++ "/") path with
    | Some name =>
      match disk with
      | Some d => read_file name d
      | None => None
      end
    | None => Some (elsewhere path)
    end in
  match opened with
  | Some (Doc history_record) => Some history_record
  | _ => None
  end.

(** [file_path.stat()]: the size and the formatted modification
    time. *)
Record file_stat := {
  st_size : Z;
  modified_time : string   (* [time.strftime(..., time.localtime(st_mtime))] *)
}.

(** One entry of the listing. *)
Record file_info := {
  info_path : string;
  info_name : string;
  info_size : Z;
  info_modified_time : string;
  info_created_time : json;
  info_version : json;
  info_total_prompts : json;
  info_success_count : json;
  info_failed_count : json
}.

(** The body of the loop of [get_history_files]: [None] when
    anything in it raises. *)
Definition file_entry (stat : string -> option file_stat)
           (app_path : string) (f : string * content) : option file_info :=
  match stat (fst f) with
  | None => None
  | Some st =>
    match snd f with
    | Doc (JObj data) =>
      Some {| info_path := file_path app_path (fst f);
              info_name := fst f;
              info_size := st_size st;
              info_modified_time := modified_time st;
              info_created_time :=
                get_or data "created_time" (JStr (modified_time st));
              info_version := get_or data "version" (JStr "未知");
              info_total_prompts := get_or data "total_prompts" (JInt 0);
              info_success_count := get_or data "success_count" (JInt 0);
              info_failed_count := get_or data "failed_count" (JInt 0) |}
    | _ => None
    end
  end.

(** [history_path.glob("*.json")] *)
Definition glob_json (d : dir) : dir :=
  filter (fun f => ends_with ".json" (fst f)) d.

(** [sort(key=lambda x: x["modified_time"], reverse=True)]: stable,
    the latest first. *)
Fixpoint insert_newest (x : file_info) (l : list file_info)
  : list file_info :=
  match l with
  | [] => [x]
  | y :: r =>
    if String.ltb (info_modified_time x) (info_modified_time y)
    then y :: insert_newest x r
    else x :: l
  end.

Definition sort_newest (l : list file_info) : list file_info :=
  fold_right insert_newest [] l.

Definition get_history_files (w : world) (stat : string -> option file_stat)
           (app_path : string) (disk : option dir)
  : option dir * list file_info :=
  match ensure_history_directory w disk with
  | Raise _ => (disk, [])
  | Ok d =>
    (Some d,
     sort_newest
       (flat_map (fun f => match file_entry stat app_path f with
                           | Some i => [i]
                           | None => []
                           end)
                 (glob_json d)))
  end.

(** *** Notions used in the statements about this module *)


(** Every file has the same size and time. *)
Definition same_stat (name : string) : option file_stat :=
  Some {| st_size := 100; modified_time := "2024-01-01 12:00:00" |}.

(** No file outside the history directory can be read. *)
Definition nothing_elsewhere (path : string) : content := Unreadable.

End HistoryRead.

(* ------------------------------------------------------------------ *)
(** ** [main.py]: the names of the reference images *)

Module Gallery.
Import Exn Str.
Open Scope string_scope.

(** An entry of a category: [{'name': ..., 'path': ...}]. *)
Record image := { img_name : string; img_path : string }.

(** [self.category_links]: the categories in the order of the dict,
    each with its images. *)
Definition gallery := list (string * list image).

(** Python truthiness of an optional string argument. *)
Definition given (s : option string) : bool :=
  match s with
  | None | Some "" => false
  | Some _ => true
  end.

(** The inner loops of [check_image_name_unique] over the images of
    one category: whether [name] is found. *)
Definition found_in (images : list image) (skip : option string)
           (name : string) : bool :=
  existsb (fun img =>
             match skip with
             | Some exclude_name =>
               negb (String.eqb (img_name img) exclude_name)
               && String.eqb (img_name img) name
             | None => String.eqb (img_name img) name
             end)
          images.

(** [check_image_name_unique]: [(True, None)], or [False] and the
    first category that holds the name. *)
Fixpoint check_image_name_unique (links : gallery) (name : string)
         (exclude_category exclude_name : option string)
  : bool * option string :=
  match links with
  | [] => (true, None)
  | (category, images) :: rest =>
    let skip :=
      if given exclude_category && given exclude_name
         && (match exclude_category with
             | Some c => String.eqb category c
             | None => false
             end)
      then exclude_name else None in
    if found_in images skip name then (false, Some category)
    else check_image_name_unique rest name exclude_category exclude_name
  end.

Definition suffixed (base_name : string) (counter : nat) : string :=
  base_name ++ "_" ++ nat_to_string counter.

(** The [while True] loop; [fuel] bounds the number of probes. *)
Fixpoint probe_name (links : gallery) (base_name : string)
         (exclude_category exclude_name : option string)
         (fuel counter : nat) : option string :=
  match fuel with
  | O => None
  | S fuel' =>
    let new_name := suffixed base_name counter in
    if fst (check_image_name_unique links new_name exclude_category exclude_name)
    then Some new_name
    else probe_name links base_name exclude_category exclude_name
                    fuel' (S counter)
  end.

Definition all_images (links : gallery) : list image :=
  flat_map snd links.

(** [None] only if the loop has not ended after one probe more than
    there are images. *)
Definition get_unique_image_name (links : gallery) (base_name : string)
           (exclude_category exclude_name : option string) : option string :=
  if fst (check_image_name_unique links base_name exclude_category exclude_name)
  then Some base_name
  else probe_name links base_name exclude_category exclude_name
                  (S (List.length (all_images links))) 1.

(** [self.category_links[category]] *)
Fixpoint images_of (links : gallery) (category : string)
  : option (list image) :=
  match links with
  | [] => None
  | (c, images) :: rest =>
    if String.eqb c category then Some images else images_of rest category
  end.

(** [self.category_links[category].append(img)] *)
Fixpoint append_image (links : gallery) (category : string) (img : image)
  : gallery :=
  match links with
  | [] => []
  | (c, images) :: rest =>
    if String.eqb c category then (c, (images ++ [img])%list) :: rest
    else (c, images) :: append_image rest category img
  end.

Section AddImage.
(** [Path(fp).stem] *)
Variable stem : string -> string.
(** [copy_image_to_category(fp, category, name)]: the relative path
    of the copy, or the exception of the copy. *)
Variable copy_image_to_category : string -> string -> string -> result string.

(** The loop of [add_image] over the chosen files; a file whose copy
    fails is passed over. *)
Fixpoint add_files (category : string) (file_paths : list string)
         (links : gallery) : gallery :=
  match file_paths with
  | [] => links
  | fp :: rest =>
    let base_name := stem fp in
    match get_unique_image_name links base_name None None with
    | None => add_files category rest links
    | Some unique_name =>
      match copy_image_to_category fp category unique_name with
      | Raise _ => add_files category rest links
      | Ok relative_path =>
        add_files category rest
                  (append_image links category
                     {| img_name := unique_name; img_path := relative_path |})
      end
    end
  end.

(** [add_image] after the file dialog has returned [file_paths]. *)
Definition add_image (current_category : string) (file_paths : list string)
           (links : gallery) : result gallery :=
  if String.eqb current_category "" then Ok links
  else match file_paths with
       | [] => Ok links
       | _ =>
         match images_of links current_category with
         | None => Raise KeyError
         | Some _ => Ok (add_files current_category file_paths links)
         end
       end.

End AddImage.

(** *** Notions used in the statements about this module *)

Definition all_names (links : gallery) : list string :=
  map img_name (all_images links).

(** [check_image_name_unique] accepts the name. *)
Definition name_free (links : gallery)
           (exclude_category exclude_name : option string) (name : string)
  : bool :=
  fst (check_image_name_unique links name exclude_category exclude_name).

(** The part of a path after the last slash, without the extension
    (for the paths used in the examples). *)
Definition demo_stem (fp : string) : string :=
  if String.eqb fp "/tmp/cat.png" then "cat"
  else if String.eqb fp "/home/me/cat.png" then "cat" else fp.

Definition demo_copy (fp category name : string) : result string :=
  Ok ("images/" ++ category ++ "/" ++ name ++ ".png").

Definition demo_gallery : gallery :=
  [("pets", [{| img_name := "cat"; img_path := "images/pets/cat.png" |}]);
   ("toys", [{| img_name := "cat_1"; img_path := "images/toys/cat_1.png" |}])].

End Gallery.

(* ------------------------------------------------------------------ *)
(** ** [services/images.py] and the request of
       [services/api_client.py] *)

Module Request.
Import Json Exn Str Download.
Open Scope string_scope.

(** *** [base64.b64encode] *)

(** The character of a six-bit value. *)
Definition b64_digit (n : N) : ascii :=
  if (n <? 26)%N then ascii_of_N (65 + n)
  else if (n <? 52)%N then ascii_of_N (97 + (n - 26))
  else if (n <? 62)%N then ascii_of_N (48 + (n - 52))
  else if (n =? 62)%N then "+" else "/".

Fixpoint b64encode (data : string) : string :=
  match data with
  | "" => ""
  | String a "" =>
    let x := N_of_ascii a in
    String (b64_digit (x / 4))
      (String (b64_digit ((x mod 4) * 16)) "==")
  | String a (String b "") =>
    let x := N_of_ascii a in
    let y := N_of_ascii b in
    String (b64_digit (x / 4))
      (String (b64_digit ((x mod 4) * 16 + y / 16))
         (String (b64_digit ((y mod 16) * 4)) "="))
  | String a (String b (String c rest)) =>
    let x := N_of_ascii a in
    let y := N_of_ascii b in
    let z := N_of_ascii c in
    String (b64_digit (x / 4))
      (String (b64_digit ((x mod 4) * 16 + y / 16))
         (String (b64_digit ((y mod 16) * 4 + z / 64))
            (String (b64_digit (z mod 64)) (b64encode rest))))
  end.

(** *** [Path(image_path).suffix.lower()] *)

(** The text after the last slash. *)
Fixpoint final_component (p : string) : string :=
  match p with
  | "" => ""
  | String c r =>
    if contains "/" r then final_component r
    else if Ascii.eqb c "/" then r else p
  end.

(** The text from the last dot on, if there is a dot. *)
Fixpoint from_last_dot (s : string) : option string :=
  match s with
  | "" => None
  | String c r =>
    match from_last_dot r with
    | Some t => Some t
    | None => if Ascii.eqb c "." then Some s else None
    end
  end.

(** [name[i:]] for [i = name.rfind('.')] when [0 < i < len(name) - 1],
    and the empty string otherwise. *)
Definition suffix (p : string) : string :=
  match final_component p with
  | "" => ""
  | String _ r =>
    match from_last_dot r with
    | Some t => if (String.length t =? 1)%nat then "" else t
    | None => ""
    end
  end.

Definition lower_ascii (c : ascii) : ascii :=
  let n := N_of_ascii c in
  if ((65 <=? n) && (n <=? 90))%N then ascii_of_N (n + 32) else c.

Fixpoint lower (s : string) : string :=
  match s with
  | "" => ""
  | String c r => String (lower_ascii c) (lower r)
  end.

Definition mime_type (image_path : string) : string :=
  let ext := lower (suffix image_path) in
  if String.eqb ext ".jpg" || String.eqb ext ".jpeg" then "image/jpeg"
  else if String.eqb ext ".png" then "image/png"
  else if String.eqb ext ".gif" then "image/gif"
  else if String.eqb ext ".webp" then "image/webp"
  else "image/png".

Section Files.
(** Whether a path exists, and the bytes of a file that can be
    read. *)
Variable path_present : string -> bool.
Variable read_bytes : string -> option string.

(** [image_to_base64] *)
Definition image_to_base64 (image_path : string) : option string :=
  match read_bytes image_path with
  | None => None
  | Some data =>
    Some ("data:" ++ mime_type image_path ++ ";base64," ++ b64encode data)
  end.

Definition text_part (prompt : string) : json :=
  JObj [("type", JStr "text"); ("text", JStr prompt)].

Definition image_part (url : string) : json :=
  JObj [("type", JStr "image_url"); ("image_url", JObj [("url", JStr url)])].

(** The part one entry of [image_data] contributes, if any. *)
Definition image_entry (app_path : string) (img : Matcher.link)
  : list json :=
  if negb (String.eqb (Matcher.path img) "") then
    let p := path_join app_path (Matcher.path img) in
    match (if path_present p then image_to_base64 p else None) with
    | Some base64_url =>
      if negb (String.eqb base64_url "") then [image_part base64_url] else []
    | None => []
    end
  else if negb (String.eqb (Matcher.url img) "") then
    [image_part (Matcher.url img)]
  else [].

(** [_build_content] *)
Definition _build_content (prompt : string) (image_data : list Matcher.link)
           (app_path : string) : list json :=
  text_part prompt :: flat_map (image_entry app_path) image_data.

End Files.

(** *** Notions used in the statements about this module *)

(** A disk with one image file of three bytes. *)
Definition one_image (p : string) : option string :=
  if String.eqb p "/app/images/pets/Cat.JPG" then Some "Man" else None.

End Request.

(* ------------------------------------------------------------------ *)
(** ** Settings for the statements about attached images *)

Module Attaching.
Import Unicode Matcher Scheduler.
Open Scope string_scope.

Definition cat_link : link :=
  {| name := Some (u "小猫"); url := ""; path := "images/pets/cat.png" |}.

(** The stored name starts with a space. *)
Definition dog_link : link :=
  {| name := Some (u " 狗"); url := "http://h/dog.png"; path := "" |}.

Definition pets_settings : settings :=
  {| api_key := "k"; save_path := "/out"; style_content := "水彩";
     image_ratio := "3:2"; prompt_numbers := [];
     category_links := [[cat_link; dog_link]] |}.

End Attaching.

(* ================================================================== *)
(** * Properties *)

Module StrFacts.
Open Scope string_scope.

Lemma sapp_assoc (a b c : string) : (a ++ b) ++ c = a ++ (b ++ c).
Proof. induction a as [|x a IH]; simpl; [reflexivity|rewrite IH; reflexivity]. Qed.

Lemma sapp_nil_r (a : string) : a ++ "" = a.
Proof. induction a as [|x a IH]; simpl; [reflexivity|rewrite IH; reflexivity]. Qed.

Lemma sapp_inv_head (a x y : string) : a ++ x = a ++ y -> x = y.
Proof.
  induction a as [|c a IH]; simpl; intros H; [assumption|].
  injection H as H. auto.
Qed.

Lemma list_ascii_app (a b : string) :
  list_ascii_of_string (a ++ b)
  = (list_ascii_of_string a ++ list_ascii_of_string b)%list.
Proof. induction a as [|c a IH]; simpl; [reflexivity|rewrite IH; reflexivity]. Qed.

Lemma sapp_inv_tail (a b c : string) : a ++ c = b ++ c -> a = b.
Proof.
  intros H. apply (f_equal list_ascii_of_string) in H.
  rewrite !list_ascii_app in H. apply app_inv_tail in H.
  apply (f_equal string_of_list_ascii) in H.
  rewrite !string_of_list_ascii_of_string in H. exact H.
Qed.

End StrFacts.

Module MatcherFacts.
Import Unicode Matcher Matching.

(** * Facts about the matcher *)

Lemma pystr_eqb_eq (a b : pystr) : pystr_eqb a b = true <-> a = b.
Proof.
  unfold pystr_eqb. destruct (list_eq_dec N.eq_dec a b); split; congruence.
Qed.

Lemma insert_by_len_In x l z : In z (insert_by_len x l) <-> z = x \/ In z l.
Proof.
  induction l as [|y r IH]; simpl.
  - intuition.
  - destruct (List.length y <? List.length x); simpl; rewrite ?IH; intuition.
Qed.

Lemma insert_by_len_sorted x l :
  StronglySorted len_ge l -> StronglySorted len_ge (insert_by_len x l).
Proof.
  induction l as [|y r IH]; simpl; intros Hs.
  - repeat constructor.
  - apply StronglySorted_inv in Hs as [Hr Hy].
    destruct (Nat.ltb_spec (List.length y) (List.length x)) as [Hlt|Hge].
    + constructor; [constructor; assumption|].
      constructor; [unfold len_ge; lia|].
      eapply Forall_impl; [|exact Hy]. unfold len_ge. intros; lia.
    + constructor; [auto|].
      apply Forall_forall. intros z Hz. apply insert_by_len_In in Hz as [->|Hz].
      * exact Hge.
      * rewrite Forall_forall in Hy. auto.
Qed.

Lemma fold_insert_sorted l : forall acc,
  StronglySorted len_ge acc ->
  StronglySorted len_ge (fold_left (fun a x => insert_by_len x a) l acc).
Proof.
  induction l as [|x l IH]; simpl; intros acc Ha; auto using insert_by_len_sorted.
Qed.

Lemma fold_insert_In l : forall acc z,
  In z (fold_left (fun a x => insert_by_len x a) l acc) <-> In z l \/ In z acc.
Proof.
  induction l as [|x l IH]; simpl; intros acc z.
  - intuition.
  - rewrite IH, insert_by_len_In. intuition.
Qed.

Lemma sorted_by_len_desc_sorted l : StronglySorted len_ge (sorted_by_len_desc l).
Proof. apply fold_insert_sorted. constructor. Qed.

Lemma sorted_by_len_desc_In l z : In z (sorted_by_len_desc l) <-> In z l.
Proof. unfold sorted_by_len_desc. rewrite fold_insert_In. simpl. intuition. Qed.

Lemma visit_agree n st tst sp : agree st tst -> agree (visit n st sp) (tvisit n tst sp).
Proof.
  intros [Hm Hk]. destruct sp as [s e]. unfold visit, tvisit. rewrite <- Hk.
  destruct (covered (masked st) s e); [split; assumption|].
  split; simpl; [|congruence]. rewrite map_app, Hm. reflexivity.
Qed.

Lemma scan_name_agree text n st tst :
  agree st tst -> agree (scan_name text st n) (tscan_name text tst n).
Proof.
  unfold scan_name, tscan_name. generalize (finditer n None text 0 0) as spans.
  intros spans; revert st tst.
  induction spans as [|sp spans IH]; simpl; intros; auto using visit_agree.
Qed.

Lemma scan_all_agree text names :
  agree (scan_all text names) (tscan_all text names).
Proof.
  unfold scan_all, tscan_all.
  assert (H0 : agree {| matched := []; masked := text |}
                     {| accepted := []; tmasked := text |}) by (split; reflexivity).
  revert H0. generalize {| matched := []; masked := text |} as st.
  generalize {| accepted := []; tmasked := text |} as tst.
  induction names as [|n names IH]; simpl; intros; auto using scan_name_agree.
Qed.

(** ** Where matches lie *)

Lemma starts_with_firstn n : forall t,
  starts_with n t = true ->
  firstn (List.length n) t = n /\ List.length n <= List.length t.
Proof.
  induction n as [|a n IH]; simpl; intros t H.
  - split; [reflexivity|lia].
  - destruct t as [|b t]; [discriminate|].
    apply andb_true_iff in H as [Hab H]. apply N.eqb_eq in Hab. subst b.
    destruct (IH _ H) as [H1 H2]. simpl. split; [f_equal; assumption|lia].
Qed.

Lemma finditer_occurs n text : forall rest prev pos skip sp,
  rest = skipn pos text ->
  In sp (finditer n prev rest pos skip) ->
  occurs n text sp.
Proof.
  induction rest as [|c rest IH]; simpl; intros prev pos skip sp Hrest Hin.
  - contradiction.
  - assert (Hnext : rest = skipn (S pos) text).
    { clear - Hrest. revert text Hrest. induction pos as [|p IHp]; intros text H.
      - simpl in H. subst text. reflexivity.
      - destruct text as [|x text]; [discriminate|]. simpl in H.
        apply IHp in H. exact H. }
    destruct skip as [|k].
    + destruct (starts_with n (c :: rest) && boundary prev
                && boundary (nth_error (c :: rest) (List.length n))) eqn:Hm.
      * destruct Hin as [<-|Hin]; [|eauto].
        apply andb_true_iff in Hm as [Hm _]. apply andb_true_iff in Hm as [Hm _].
        apply starts_with_firstn in Hm as [Hf Hl].
        unfold occurs; simpl. rewrite <- Hrest. repeat split; auto.
        assert (List.length (c :: rest) = List.length text - pos)
          by (rewrite Hrest; apply length_skipn).
        assert (List.length (c :: rest) > 0) by (simpl; lia). lia.
      * eauto.
    + eauto.
Qed.

(** ** Masking *)

Lemma mask_from_length m s e : forall i, List.length (mask_from m s e i) = List.length m.
Proof. induction m; simpl; intros; auto. Qed.

Lemma mask_from_nth m s e : forall i j,
  nth_error (mask_from m s e i) j =
  match nth_error m j with
  | Some ch => Some (if (s <=? i + j) && (i + j <? e) then 0%N else ch)
  | None => None
  end.
Proof.
  induction m as [|ch m IH]; simpl; intros i j.
  - destruct j; reflexivity.
  - destruct j as [|j]; simpl.
    + rewrite Nat.add_0_r. reflexivity.
    + rewrite IH. replace (S i + j) with (i + S j) by lia. reflexivity.
Qed.

Lemma mask_keeps_zero m s e i : zero_at m i -> zero_at (mask m s e) i.
Proof.
  unfold zero_at, mask. intros H. rewrite mask_from_nth, H. simpl.
  destruct ((s <=? i) && (i <? e)); reflexivity.
Qed.

Lemma mask_zeroes m s e i :
  s <= i < e -> e <= List.length m -> zero_at (mask m s e) i.
Proof.
  unfold zero_at, mask. intros Hi He. rewrite mask_from_nth. simpl.
  destruct (nth_error m i) eqn:Hn.
  - destruct (Nat.leb_spec s i); [|lia]. destruct (Nat.ltb_spec i e); [|lia]. reflexivity.
  - apply nth_error_None in Hn. lia.
Qed.

Lemma covered_false m s e i :
  covered m s e = false -> s <= i < e -> ~ zero_at m i.
Proof.
  unfold covered, zero_at. intros Hc Hi Hz.
  assert (Hin : In 0%N (firstn (e - s) (skipn s m))).
  { replace i with (s + (i - s)) in Hz by lia.
    rewrite <- nth_error_skipn in Hz.
    apply nth_error_In with (n := i - s).
    rewrite nth_error_firstn. destruct (Nat.ltb_spec (i - s) (e - s)); [assumption|lia]. }
  assert (existsb (fun ch => (ch =? 0)%N) (firstn (e - s) (skipn s m)) = true).
  { apply existsb_exists. exists 0%N. split; [assumption|reflexivity]. }
  congruence.
Qed.

(** ** The recorded spans never overlap *)

Lemma ForallOrdPairs_snoc {A} (R : A -> A -> Prop) l x :
  ForallOrdPairs R l -> Forall (fun a => R a x) l -> ForallOrdPairs R (l ++ [x]).
Proof.
  induction 1 as [|a l Ha Hl IH]; simpl; intros Hx.
  - repeat constructor.
  - inversion Hx; subst. constructor; auto.
    apply Forall_app. split; [assumption|]. constructor; auto.
Qed.

Lemma tvisit_ok names text n tr sp :
  In n names -> occurs n text sp ->
  trace_ok names text tr -> trace_ok names text (tvisit n tr sp).
Proof.
  intros Hn Hocc [Hlen Hmask Hdis Hoc]. destruct sp as [s e]. unfold tvisit.
  destruct (covered (tmasked tr) s e) eqn:Hc; [constructor; assumption|].
  assert (He : e <= List.length (tmasked tr))
    by (destruct Hocc as (_ & He & _); simpl in He; lia).
  constructor; simpl.
  - unfold mask. rewrite mask_from_length. assumption.
  - apply Forall_app. split.
    + eapply Forall_impl; [|exact Hmask]. intros a Ha i Hi.
      apply mask_keeps_zero. auto.
    + constructor; [|constructor]. intros i Hi. simpl in Hi.
      apply mask_zeroes; assumption.
  - apply ForallOrdPairs_snoc; [assumption|].
    eapply Forall_impl; [|exact Hmask]. intros a Ha i [Hi1 Hi2]. simpl in Hi2.
    eapply covered_false; eauto.
  - apply Forall_app. split; [assumption|]. constructor; [|constructor]. auto.
Qed.

Lemma tscan_name_ok names text n tr :
  In n names -> trace_ok names text tr -> trace_ok names text (tscan_name text tr n).
Proof.
  intros Hn. unfold tscan_name.
  assert (Hsp : forall sp, In sp (finditer n None text 0 0) -> occurs n text sp)
    by (intros sp; apply finditer_occurs; reflexivity).
  revert tr Hsp. generalize (finditer n None text 0 0) as spans.
  induction spans as [|sp spans IH]; simpl; intros tr Hsp Hok; [assumption|].
  apply IH; [intros; apply Hsp; auto|].
  apply tvisit_ok; auto.
Qed.

Lemma tscan_fold_ok names text : forall remaining tr,
  (forall n, In n remaining -> In n names) ->
  trace_ok names text tr ->
  trace_ok names text (fold_left (tscan_name text) remaining tr).
Proof.
  induction remaining as [|n remaining IH]; simpl; intros tr Hin Hok; [assumption|].
  apply IH; [auto|]. apply tscan_name_ok; auto.
Qed.

Lemma tscan_all_ok names text :
  trace_ok names text (tscan_all text names).
Proof.
  apply tscan_fold_ok; [auto|]. constructor; simpl; constructor.
Qed.

(** ** Order of the matched names *)

Lemma StronglySorted_app {A} (R : A -> A -> Prop) l1 l2 :
  StronglySorted R l1 -> StronglySorted R l2 ->
  (forall x y, In x l1 -> In y l2 -> R x y) ->
  StronglySorted R (l1 ++ l2).
Proof.
  induction 1 as [|a l Hl IH Ha]; simpl; intros H2 Hc; [assumption|].
  constructor; [apply IH; auto|].
  apply Forall_app. split; [assumption|]. apply Forall_forall. auto.
Qed.

Lemma visits_repeat n spans : forall st,
  exists k, matched (fold_left (visit n) spans st) = matched st ++ repeat n k.
Proof.
  induction spans as [|[s e] spans IH]; intros st; cbn [fold_left].
  - exists 0. simpl. rewrite app_nil_r. reflexivity.
  - destruct (IH (visit n st (s, e))) as [k Hk]. rewrite Hk.
    unfold visit. destruct (covered (masked st) s e).
    + exists k. reflexivity.
    + exists (S k). simpl. rewrite <- app_assoc. reflexivity.
Qed.

Lemma scan_name_repeat text n st :
  exists k, matched (scan_name text st n) = matched st ++ repeat n k.
Proof. apply visits_repeat. Qed.

Lemma repeat_sorted n k : StronglySorted len_ge (repeat n k).
Proof.
  induction k as [|k IH]; simpl; constructor; [assumption|].
  apply Forall_forall. intros y Hy. apply repeat_spec in Hy. subst. unfold len_ge. lia.
Qed.

Lemma scan_fold_sorted text : forall names st,
  StronglySorted len_ge names ->
  StronglySorted len_ge (matched st) ->
  (forall m n, In m (matched st) -> In n names -> len_ge m n) ->
  StronglySorted len_ge (matched (fold_left (scan_name text) names st)).
Proof.
  induction names as [|n names IH]; simpl; intros st Hs Hm Hc; [assumption|].
  apply StronglySorted_inv in Hs as [Hs Hn]. rewrite Forall_forall in Hn.
  destruct (scan_name_repeat text n st) as [k Hk].
  apply IH; [assumption| |].
  - rewrite Hk. apply StronglySorted_app; auto using repeat_sorted.
    intros x y Hx Hy. apply repeat_spec in Hy. subst. auto.
  - intros m n' Hin Hn'. rewrite Hk in Hin. apply in_app_or in Hin as [Hin|Hin].
    + auto.
    + apply repeat_spec in Hin. subst. auto.
Qed.

(** ** Removing duplicates *)

Lemma dedup_In l : forall seen x,
  In x (dedup seen l) <-> In x l /\ ~ In x seen.
Proof.
  induction l as [|n l IH]; simpl; intros seen x.
  - intuition.
  - destruct (existsb (pystr_eqb n) seen) eqn:He.
    + apply existsb_exists in He as (y & Hy & Heq). apply pystr_eqb_eq in Heq. subst y.
      rewrite IH. intuition. subst. contradiction.
    + assert (Hn : ~ In n seen).
      { intros Hin. assert (existsb (pystr_eqb n) seen = true); [|congruence].
        apply existsb_exists. exists n. split; [assumption|]. apply pystr_eqb_eq. reflexivity. }
      simpl. rewrite IH. simpl.
      destruct (list_eq_dec N.eq_dec n x); [subst; intuition|intuition].
Qed.

Lemma dedup_NoDup l : forall seen, NoDup (dedup seen l).
Proof.
  induction l as [|n l IH]; simpl; intros seen; [constructor|].
  destruct (existsb (pystr_eqb n) seen); [apply IH|].
  constructor; [|apply IH]. rewrite dedup_In. simpl. intuition.
Qed.

Lemma dedup_sorted (R : pystr -> pystr -> Prop) l : forall seen,
  StronglySorted R l -> StronglySorted R (dedup seen l).
Proof.
  induction l as [|n l IH]; simpl; intros seen Hs; [constructor|].
  apply StronglySorted_inv in Hs as [Hs Hn].
  destruct (existsb (pystr_eqb n) seen); [apply IH; assumption|].
  constructor; [apply IH; assumption|].
  rewrite Forall_forall in *. intros y Hy. apply dedup_In in Hy as [Hy _]. auto.
Qed.

Lemma skipn_cons_nth {A} (text : list A) : forall pos c rest,
  c :: rest = skipn pos text ->
  nth_error text pos = Some c /\ rest = skipn (S pos) text.
Proof.
  induction text as [|x text IH]; intros pos c rest H.
  - destruct pos; discriminate.
  - destruct pos as [|pos]; simpl in H.
    + injection H as -> ->. split; reflexivity.
    + apply IH in H. exact H.
Qed.

Lemma finditer_delimited n text : forall rest prev pos skip sp,
  rest = skipn pos text ->
  prev = char_before text pos ->
  In sp (finditer n prev rest pos skip) ->
  delimited text sp.
Proof.
  induction rest as [|c rest IH]; intros prev pos skip sp Hrest Hprev Hin;
    [contradiction|].
  destruct (skipn_cons_nth _ _ _ _ Hrest) as [Hc Hnext].
  assert (Hprev' : Some c = char_before text (S pos)) by (simpl; congruence).
  cbn [finditer] in Hin. destruct skip as [|k]; [|eauto].
  destruct (starts_with n (c :: rest) && boundary prev
            && boundary (nth_error (c :: rest) (List.length n))) eqn:Hm; [|eauto].
  destruct Hin as [<-|Hin]; [|eauto].
  apply andb_true_iff in Hm as [Hm Hafter]. apply andb_true_iff in Hm as [_ Hbefore].
  split; simpl.
  - rewrite <- Hprev. exact Hbefore.
  - rewrite Hrest, nth_error_skipn in Hafter. exact Hafter.
Qed.

Lemma tvisits_origin n spans : forall tr a,
  In a (accepted (fold_left (tvisit n) spans tr)) ->
  In a (accepted tr) \/ (fst a = n /\ In (snd a) spans).
Proof.
  induction spans as [|[s e] spans IH]; cbn [fold_left]; intros tr a Hin; [auto|].
  apply IH in Hin as [Hin|[Hn Hs]]; [|right; split; [assumption|right; assumption]].
  unfold tvisit in Hin. destruct (covered (tmasked tr) s e); [auto|].
  simpl in Hin. apply in_app_or in Hin as [Hin|[<-|[]]]; [auto|].
  right. split; [reflexivity|left; reflexivity].
Qed.

Lemma tscan_origin text : forall names tr a,
  In a (accepted (fold_left (tscan_name text) names tr)) ->
  In a (accepted tr)
  \/ (In (fst a) names /\ In (snd a) (finditer (fst a) None text 0 0)).
Proof.
  induction names as [|n names IH]; cbn [fold_left]; intros tr a Hin; [auto|].
  apply IH in Hin as [Hin|[Hn Hs]]; [|right; split; [right|]; assumption].
  unfold tscan_name in Hin. apply tvisits_origin in Hin as [Hin|[Hn Hs]]; [auto|].
  right. subst n. split; [left; reflexivity|assumption].
Qed.

(** ** What becomes of a match *)

Lemma covered_true m s e :
  covered m s e = true -> exists i, s <= i < e /\ zero_at m i.
Proof.
  unfold covered, zero_at. intros Hc.
  apply existsb_exists in Hc as (x & Hin & Hx). apply N.eqb_eq in Hx. subst x.
  apply In_nth_error in Hin as [k Hk].
  assert (Hlt : k < e - s).
  { destruct (Nat.ltb_spec k (e - s)) as [|Hge]; [assumption|].
    rewrite nth_error_firstn in Hk.
    destruct (Nat.ltb_spec k (e - s)); [lia|discriminate]. }
  rewrite nth_error_firstn in Hk.
  destruct (Nat.ltb_spec k (e - s)); [|lia].
  rewrite nth_error_skipn in Hk.
  exists (s + k). split; [lia|assumption].
Qed.

Lemma tvisit_keeps n tr sp b :
  In b (accepted tr) -> In b (accepted (tvisit n tr sp)).
Proof.
  destruct sp as [s e]. unfold tvisit.
  destruct (covered (tmasked tr) s e); [auto|].
  simpl. intros H. apply in_or_app. left. exact H.
Qed.

Lemma tvisits_keep n spans : forall tr b,
  In b (accepted tr) -> In b (accepted (fold_left (tvisit n) spans tr)).
Proof.
  induction spans as [|sp spans IH]; cbn [fold_left]; intros tr b H; [assumption|].
  apply IH. apply tvisit_keeps. assumption.
Qed.

Lemma tscans_keep text names : forall tr b,
  In b (accepted tr) -> In b (accepted (fold_left (tscan_name text) names tr)).
Proof.
  induction names as [|n names IH]; cbn [fold_left]; intros tr b H; [assumption|].
  apply IH. apply tvisits_keep. assumption.
Qed.

Lemma occurs_nul n text sp i :
  occurs n text sp -> fst sp <= i < snd sp -> zero_at text i -> In 0%N n.
Proof.
  intros (He & _ & Hf) Hi Hz. unfold zero_at in Hz.
  rewrite <- Hf. apply nth_error_In with (n := i - fst sp).
  rewrite nth_error_firstn.
  destruct (Nat.ltb_spec (i - fst sp) (List.length n)); [|lia].
  rewrite nth_error_skipn. replace (fst sp + (i - fst sp)) with i by lia.
  exact Hz.
Qed.

(** One match: it is recorded, or a span recorded before it holds one
    of its positions, or the text has a NUL inside it. *)
Lemma tvisit_verdict text n tr sp :
  zeros_explained text tr ->
  snd sp <= List.length (tmasked tr) ->
  zeros_explained text (tvisit n tr sp)
  /\ (In (n, sp) (accepted (tvisit n tr sp))
      \/ (exists b, In b (accepted tr) /\ shares_position (snd b) sp)
      \/ (exists i, fst sp <= i < snd sp /\ zero_at text i)).
Proof.
  intros Hz Hlen. destruct sp as [s e]. unfold tvisit.
  destruct (covered (tmasked tr) s e) eqn:Hc.
  - split; [assumption|]. right.
    apply covered_true in Hc as (i & Hi & Hzi).
    destruct (Hz i Hzi) as [(b & Hb & Hbi)|Ht].
    + left. exists b. split; [assumption|]. exists i. simpl. split; assumption.
    + right. exists i. simpl. split; assumption.
  - split; [|left; simpl; apply in_or_app; right; left; reflexivity].
    intros i Hzi. simpl in Hzi. unfold zero_at, mask in Hzi.
    rewrite mask_from_nth in Hzi. simpl in Hzi.
    destruct (nth_error (tmasked tr) i) as [ch|] eqn:Hn; [|discriminate].
    destruct ((s <=? i) && (i <? e)) eqn:Hin.
    + apply andb_true_iff in Hin as [H1 H2].
      apply Nat.leb_le in H1. apply Nat.ltb_lt in H2.
      left. exists (n, (s, e)). simpl. split; [|lia].
      apply in_or_app. right. left. reflexivity.
    + injection Hzi as ->.
      destruct (Hz i Hn) as [(b & Hb & Hbi)|Ht]; [|right; assumption].
      left. exists b. split; [|assumption].
      simpl. apply in_or_app. left. assumption.
Qed.

Lemma tvisit_length n tr sp :
  List.length (tmasked (tvisit n tr sp)) = List.length (tmasked tr).
Proof.
  destruct sp as [s e]. unfold tvisit.
  destruct (covered (tmasked tr) s e); [reflexivity|].
  simpl. unfold mask. apply mask_from_length.
Qed.

Lemma tvisits_verdict text n : forall spans tr,
  zeros_explained text tr ->
  List.length (tmasked tr) = List.length text ->
  (forall sp, In sp spans -> occurs n text sp) ->
  zeros_explained text (fold_left (tvisit n) spans tr)
  /\ List.length (tmasked (fold_left (tvisit n) spans tr)) = List.length text
  /\ forall sp, In sp spans ->
       In (n, sp) (accepted (fold_left (tvisit n) spans tr))
       \/ (exists b, In b (accepted (fold_left (tvisit n) spans tr))
                     /\ (In b (accepted tr) \/ fst b = n)
                     /\ shares_position (snd b) sp)
       \/ In 0%N n.
Proof.
  induction spans as [|sp0 spans IH]; cbn [fold_left]; intros tr Hz Hlen Hocc.
  - split; [assumption|]. split; [assumption|]. intros sp [].
  - assert (Ho : occurs n text sp0) by (apply Hocc; left; reflexivity).
    assert (Hfit : snd sp0 <= List.length (tmasked tr))
      by (destruct Ho as (_ & H & _); lia).
    destruct (tvisit_verdict text n tr sp0 Hz Hfit) as [Hz1 Hv].
    destruct (IH (tvisit n tr sp0) Hz1) as (HzF & HlenF & Hrest).
    { rewrite tvisit_length. assumption. }
    { intros sp Hsp. apply Hocc. right. assumption. }
    split; [assumption|]. split; [assumption|].
    intros sp [<-|Hsp].
    + destruct Hv as [Hacc|[(b & Hb & Hsh)|(i & Hi & Hzi)]].
      * left. apply tvisits_keep. assumption.
      * right. left. exists b. split; [|split; [left; assumption|assumption]].
        apply tvisits_keep, tvisit_keeps. assumption.
      * right. right. eapply occurs_nul; eassumption.
    + destruct (Hrest sp Hsp) as [Hacc|[(b & Hb & Hor & Hsh)|Hnul]].
      * left. assumption.
      * right. left. exists b. split; [assumption|]. split; [|assumption].
        destruct Hor as [Hin|Hn]; [|right; assumption].
        destruct sp0 as [s0 e0]. unfold tvisit in Hin.
        destruct (covered (tmasked tr) s0 e0); [left; assumption|].
        simpl in Hin. apply in_app_or in Hin as [Hin|[<-|[]]];
          [left; assumption|right; reflexivity].
      * right. right. assumption.
Qed.

Lemma tscan_verdict text : forall names tr,
  zeros_explained text tr ->
  List.length (tmasked tr) = List.length text ->
  StronglySorted len_ge names ->
  (forall b m, In b (accepted tr) -> In m names -> len_ge (fst b) m) ->
  forall n sp,
    In n names -> In sp (finditer n None text 0 0) ->
    In (n, sp) (accepted (fold_left (tscan_name text) names tr))
    \/ (exists b, In b (accepted (fold_left (tscan_name text) names tr))
                  /\ len_ge (fst b) n
                  /\ shares_position (snd b) sp)
    \/ In 0%N n.
Proof.
  induction names as [|n0 names IH]; cbn [fold_left];
    intros tr Hz Hlen Hs Hge n sp Hn Hsp; [contradiction|].
  apply StronglySorted_inv in Hs as [Hs Hall]. rewrite Forall_forall in Hall.
  destruct (tvisits_verdict text n0 (finditer n0 None text 0 0) tr Hz Hlen)
    as (Hz1 & Hlen1 & Hv).
  { intros sp' Hsp'. eapply finditer_occurs; [|eassumption]. reflexivity. }
  fold (tscan_name text tr n0) in Hz1, Hlen1, Hv.
  assert (Hhead : forall sp', In sp' (finditer n0 None text 0 0) ->
    In (n0, sp') (accepted (fold_left (tscan_name text) names (tscan_name text tr n0)))
    \/ (exists b, In b (accepted (fold_left (tscan_name text) names
                                            (tscan_name text tr n0)))
                  /\ len_ge (fst b) n0
                  /\ shares_position (snd b) sp')
    \/ In 0%N n0).
  { intros sp' Hsp'.
    destruct (Hv sp' Hsp') as [Hacc|[(b & Hb & Hor & Hsh)|Hnul]].
    - left. apply tscans_keep. assumption.
    - right. left. exists b. split; [apply tscans_keep; assumption|].
      split; [|assumption].
      destruct Hor as [Hin| ->]; [apply (Hge b n0 Hin); left; reflexivity|].
      unfold len_ge. lia.
    - right. right. assumption. }
  destruct (list_eq_dec N.eq_dec n0 n) as [->|Hne]; [apply Hhead; assumption|].
  destruct Hn as [Heq|Hn]; [congruence|].
  apply IH; try assumption.
  intros b m Hb Hm. unfold tscan_name in Hb.
  apply tvisits_origin in Hb as [Hb|[Hb _]].
  - apply (Hge b m Hb). right. assumption.
  - rewrite Hb. apply Hall. assumption.
Qed.

(** C5, as amended: the result has no duplicates; the candidates are
    tried longest first and the result lists the matched names in that
    order (descending length), not in text order; every accepted match
    is a match of a candidate in the normalized text, a copy of the
    name that is delimited on both sides; accepted spans never overlap,
    so a match that shares a position with another accepted match is
    not accepted; and every match of a candidate is accepted unless it
    shares a position with an accepted match of a candidate that is not
    shorter (or the candidate holds a NUL character). *)
Theorem extract_sorted_properties :
  forall (uniq : list pystr) (prompt : pystr),
    let text := normalize prompt in
    let names := sorted_by_len_desc uniq in
    let tr := tscan_all text names in
    let result := extract_sorted uniq prompt in
    NoDup result
    /\ StronglySorted len_ge names
    /\ StronglySorted len_ge result
    /\ map fst (accepted tr) = matched (scan_all text names)
    /\ (forall n, In n result <-> exists sp, In (n, sp) (accepted tr))
    /\ Forall (fun a => In (fst a) uniq
                        /\ In (snd a) (finditer (fst a) None text 0 0)
                        /\ occurs (fst a) text (snd a)
                        /\ delimited text (snd a)) (accepted tr)
    /\ ForallOrdPairs (fun a b => spans_disjoint (snd a) (snd b)) (accepted tr)
    /\ (forall a b, In a (accepted tr) -> In b (accepted tr) ->
                    shares_position (snd a) (snd b) -> a = b)
    /\ (forall n sp,
           In n uniq -> In sp (finditer n None text 0 0) ->
           In (n, sp) (accepted tr)
           \/ (exists b, In b (accepted tr)
                         /\ len_ge (fst b) n
                         /\ shares_position (snd b) sp)
           \/ In 0%N n).
Proof.
  intros uniq prompt text names tr result.
  destruct (scan_all_agree text names) as [Hm _]. fold tr in Hm.
  destruct (tscan_all_ok names text) as [_ _ Hdis Hocc]. fold tr in Hdis, Hocc.
  split; [apply dedup_NoDup|].
  split; [apply sorted_by_len_desc_sorted|].
  split.
  { apply dedup_sorted. apply scan_fold_sorted.
    - apply sorted_by_len_desc_sorted.
    - constructor.
    - simpl. contradiction. }
  split; [symmetry; exact Hm|].
  split.
  { intros n. unfold result, extract_sorted. fold text names.
    rewrite dedup_In, Hm. split.
    - intros [Hin _]. apply in_map_iff in Hin as ([n' sp] & Heq & Hin).
      simpl in Heq. subst n'. eauto.
    - intros [sp Hin]. split; [|simpl; tauto].
      apply in_map_iff. exists (n, sp). auto. }
  split.
  { apply Forall_forall. intros a Ha.
    assert (Horig := Ha). unfold tr, tscan_all in Horig.
    apply tscan_origin in Horig as [[]|[Hn Hsp]].
    split; [apply sorted_by_len_desc_In; assumption|].
    split; [assumption|]. split.
    - eapply finditer_occurs; [|eassumption]. reflexivity.
    - eapply finditer_delimited; [| |eassumption]; reflexivity. }
  split; [exact Hdis|].
  split.
  { intros a b Ha Hb (i & Hia & Hib).
    destruct (ForallOrdPairs_In Hdis a b Ha Hb) as [Heq|[Hd|Hd]];
      [assumption| |]; exfalso; apply (Hd i); split; assumption. }
  intros n sp Hn Hsp. unfold tr, tscan_all.
  apply tscan_verdict.
  - intros i Hz. right. exact Hz.
  - reflexivity.
  - apply sorted_by_len_desc_sorted.
  - simpl. intros b m [].
  - apply sorted_by_len_desc_In. assumption.
  - assumption.
Qed.

Lemma two_names_enumerated (a b : pystr) uniq :
  a <> b -> enumerates [a; b] uniq -> uniq = [a; b] \/ uniq = [b; a].
Proof.
  intros Hab [Hnd Hin].
  assert (Ha : In a uniq) by (apply Hin; simpl; auto).
  assert (Hb : In b uniq) by (apply Hin; simpl; auto).
  assert (Hall : forall x, In x uniq -> x = a \/ x = b).
  { intros x Hx. apply Hin in Hx. simpl in Hx. intuition. }
  destruct uniq as [|x [|y [|z r]]].
  - contradiction.
  - simpl in Ha, Hb. intuition congruence.
  - inversion Hnd as [|? ? Hx _]; subst. simpl in Hx.
    destruct (Hall x) as [->| ->]; simpl; auto;
      destruct (Hall y) as [->| ->]; simpl; auto; intuition.
  - exfalso. inversion Hnd as [|? ? Hx Hnd']; subst.
    inversion Hnd' as [|? ? Hy _]; subst. simpl in Hx, Hy.
    destruct (Hall x) as [->| ->]; simpl; auto;
      destruct (Hall y) as [->| ->]; simpl; auto;
        destruct (Hall z) as [->| ->]; simpl; auto; intuition.
Qed.

(** C4 fails as stated: the result is not [小猫]. *)
Lemma extract_cat_names_counterexample :
  extract_image_names [[named "猫"; named "小猫"]] (u "一只小猫") <> [u "小猫"].
Proof. vm_compute. discriminate. Qed.

(** C4, as amended: with the candidate names 猫 and 小猫, in whichever
    order the set lists them, the text 一只小猫 yields the empty list:
    each name follows an ideographic character, which is no boundary.
    When the name is delimited (一只 小猫, or the text 小猫 alone) the
    result is exactly [小猫]. *)
Theorem extract_cat_names :
  forall uniq,
    enumerates [u "猫"; u "小猫"] uniq ->
    extract_sorted uniq (u "一只小猫") = []
    /\ extract_sorted uniq (u "一只 小猫") = [u "小猫"]
    /\ extract_sorted uniq (u "小猫") = [u "小猫"].
Proof.
  intros uniq Hen.
  apply two_names_enumerated in Hen; [|vm_compute; discriminate].
  destruct Hen as [-> | ->]; vm_compute; auto.
Qed.

(** The set listed as 猫, 小猫. *)
Lemma extract_cat_names_witness :
  enumerates [u "猫"; u "小猫"] [u "猫"; u "小猫"]
  /\ extract_sorted [u "猫"; u "小猫"] (u "一只小猫") = [].
Proof.
  assert (H : enumerates [u "猫"; u "小猫"] [u "猫"; u "小猫"]).
  { split; [|tauto].
    constructor; [simpl; intros [H|[]]; vm_compute in H; discriminate|].
    constructor; [simpl; tauto|constructor]. }
  split; [exact H|].
  exact (proj1 (extract_cat_names _ H)).
Defined.

(** C5 fails as stated: in "ab xyz" the name ab occurs first, yet the
    result lists xyz before it. *)
Lemma extract_order_counterexample :
  let prompt := u "ab xyz" in
  let links := [[named "ab"; named "xyz"]] in
  let uniq := set_first_seen (collect_names links) in
  let tr := tscan_all (normalize prompt) (sorted_by_len_desc uniq) in
  accepted tr = [(u "xyz", (3, 6)); (u "ab", (0, 2))]
  /\ extract_image_names links prompt = [u "xyz"; u "ab"]
  /\ in_text_order (accepted tr) (extract_image_names links prompt) = false.
Proof. vm_compute. auto. Qed.

(** In the text [a b] the shorter name [a] matches at the start, meets
    the span of the accepted [a b] and is passed over. *)
Lemma extract_sorted_properties_witness :
  In (0, 1) (finditer (u "a") None (normalize (u "a b")) 0 0)
  /\ extract_sorted [u "a"; u "a b"] (u "a b") = [u "a b"]
  /\ exists b,
       In b (accepted (tscan_all (normalize (u "a b"))
                                 (sorted_by_len_desc [u "a"; u "a b"])))
       /\ len_ge (fst b) (u "a")
       /\ shares_position (snd b) (0, 1).
Proof.
  assert (Hsp : In (0, 1) (finditer (u "a") None (normalize (u "a b")) 0 0))
    by (vm_compute; auto).
  assert (Hn : In (u "a") [u "a"; u "a b"]) by (left; reflexivity).
  split; [exact Hsp|]. split; [reflexivity|].
  destruct (extract_sorted_properties [u "a"; u "a b"] (u "a b"))
    as (_ & _ & _ & _ & _ & _ & _ & _ & Hv).
  destruct (Hv (u "a") (0, 1) Hn Hsp) as [Hacc|[Hb|Hnul]].
  - exfalso. vm_compute in Hacc. destruct Hacc as [Hacc|[]]. discriminate Hacc.
  - exact Hb.
  - exfalso. vm_compute in Hnul. destruct Hnul as [Hnul|[]]. discriminate Hnul.
Defined.

End MatcherFacts.

Module ApiFacts.
Import Json Exn PyVal ApiClient StrFacts.
Open Scope string_scope.

(** * The retry loop *)

Lemma backoff_delay_spec attempt d :
  (0 < attempt)%Z -> backoff_delay attempt = Ok d ->
  Qeq d (delay_before (attempt + 1)).
Proof.
  intros Hpos. unfold backoff_delay, delay_before.
  destruct (2 ^ 1024 <=? 2 ^ (attempt - 1))%Z; [discriminate|].
  intros H. injection H as <-.
  replace (attempt + 1 - 2)%Z with (attempt - 1)%Z by lia.
  assert (Hp : Qeq (inject_Z (2 ^ (attempt - 1))) (inject_Z 2 ^ (attempt - 1))%Q)
    by (apply Zpower_Qpower; lia).
  destruct (Qle_bool 8 ((1 # 2) * inject_Z (2 ^ (attempt - 1)))) eqn:Hb.
  - apply Qle_bool_iff in Hb. symmetry. apply Q.min_l. rewrite <- Hp. exact Hb.
  - rewrite <- Hp. symmetry. apply Q.min_r.
    apply Qlt_le_weak. apply Qnot_le_lt. intros Hle.
    apply Qle_bool_iff in Hle.
    pose proof (eq_trans (eq_sym Hle) Hb). discriminate.
Qed.

Section LoopFacts.
Variable model_type : string.
Variable retry_count : Z.
Variable network : Z -> post_outcome.

(** An attempt that finds the connector closed sleeps and ends the
    call with the error of the closed session. *)
Lemma retry_loop_closed fuel attempt d :
  (attempt <= retry_count)%Z ->
  (attempt >? 0)%Z = true ->
  backoff_delay attempt = Ok d ->
  retry_loop model_type retry_count network (S fuel) true attempt
  = ([Sleep d], Raised (RuntimeError "Session is closed")).
Proof.
  intros Hle Hpos Hd. cbn [retry_loop].
  destruct (Z.leb_spec attempt retry_count) as [_|Hgt]; [|lia].
  rewrite Hpos, Hd. reflexivity.
Qed.

(** What the call does, by the result of its first request. *)
Lemma retry_loop_first fuel :
  (0 <= retry_count)%Z ->
  retry_loop model_type retry_count network (S (S fuel)) false 0%Z
  = match attempt_result model_type (network 0%Z) with
    | Ok v => ([Post 0], Returned (Some v))
    | Raise e =>
      if caught e && (1 <=? retry_count)%Z
      then ([Post 0; Sleep (1 # 2)], Raised (RuntimeError "Session is closed"))
      else ([Post 0], Raised e)
    end.
Proof.
  intros Hrc.
  assert (Hnext : (1 <= retry_count)%Z ->
                  retry_loop model_type retry_count network (S fuel) true 1%Z
                  = ([Sleep (1 # 2)], Raised (RuntimeError "Session is closed")))
    by (intros Hle; apply retry_loop_closed; [assumption|reflexivity|reflexivity]).
  remember (S fuel) as fuel' eqn:Hfuel. clear Hfuel. cbn [retry_loop].
  destruct (Z.leb_spec 0 retry_count) as [_|Hgt]; [|lia].
  change (0 >? 0)%Z with false. cbn iota. cbn [session_post app].
  destruct (attempt_result model_type (network 0%Z)) as [v|e]; [reflexivity|].
  destruct (caught e); [|reflexivity]. cbn [andb].
  change (0 + 1)%Z with 1%Z.
  destruct (Z.leb_spec 1 retry_count) as [Hle|Hlt].
  - destruct (Z.gtb_spec 1 retry_count) as [Hgt|_]; [lia|].
    rewrite (Hnext Hle). reflexivity.
  - destruct (Z.gtb_spec 1 retry_count) as [_|Hle]; [reflexivity|lia].
Qed.

Lemma generate_image_async_first api_key :
  api_key <> "" -> (0 <= retry_count)%Z ->
  generate_image_async model_type retry_count network api_key
  = match attempt_result model_type (network 0%Z) with
    | Ok v => ([Post 0], Returned (Some v))
    | Raise e =>
      if caught e && (1 <=? retry_count)%Z
      then ([Post 0; Sleep (1 # 2)], Raised (RuntimeError "Session is closed"))
      else ([Post 0], Raised e)
    end.
Proof.
  intros Hkey Hrc. unfold generate_image_async.
  apply String.eqb_neq in Hkey. rewrite Hkey.
  replace (Z.to_nat (retry_count + 1)) with (S (Z.to_nat retry_count)) by lia.
  apply retry_loop_first. assumption.
Qed.

End LoopFacts.


(** * Response parsing *)



Lemma strip_prefix_app p : forall s, strip_prefix p (p ++ s) = Some s.
Proof.
  induction p as [|a p IH]; simpl; intros s; [reflexivity|].
  rewrite Ascii.eqb_refl. apply IH.
Qed.

Lemma strip_prefix_sound p : forall s r, strip_prefix p s = Some r -> s = p ++ r.
Proof.
  induction p as [|a p IH]; simpl; intros s r H.
  - congruence.
  - destruct s as [|b s]; [discriminate|].
    destruct (Ascii.eqb_spec a b); [|discriminate].
    subst b. simpl. f_equal. auto.
Qed.

Lemma span_sound f : forall s a b,
  span f s = (a, b) -> s = a ++ b /\ all_chars f a = true /\ stops f b.
Proof.
  induction s as [|c s IH]; simpl; intros a b H.
  - injection H as <- <-. repeat split.
  - destruct (f c) eqn:Hc.
    + destruct (span f s) as [a' b'] eqn:Hs. injection H as <- <-.
      destruct (IH _ _ eq_refl) as (-> & Ha & Hb). simpl. rewrite Hc. auto.
    + injection H as <- <-. simpl. auto.
Qed.

Lemma span_app f : forall a b,
  all_chars f a = true ->
  span f (a ++ b) = (a ++ fst (span f b), snd (span f b)).
Proof.
  induction a as [|c a IH]; simpl; intros b Ha.
  - destruct (span f b); reflexivity.
  - apply andb_true_iff in Ha as [Hc Ha]. rewrite Hc, (IH _ Ha). reflexivity.
Qed.

Lemma span_stops f b : stops f b -> span f b = ("", b).
Proof. destruct b as [|c b]; simpl; intros H; [reflexivity|rewrite H; reflexivity]. Qed.

Lemma data_uri_here_sound s m :
  data_uri_here s = Some m -> is_data_uri m /\ exists post, s = m ++ post.
Proof.
  unfold data_uri_here.
  destruct (strip_prefix "data:image/" s) as [r1|] eqn:H1; [|discriminate].
  destruct (span not_semicolon r1) as [mime r2] eqn:H2.
  destruct mime as [|c mime]; [discriminate|].
  destruct (strip_prefix ";base64," r2) as [r3|] eqn:H3; [|discriminate].
  destruct (span is_b64_char r3) as [payload r4] eqn:H4.
  destruct payload as [|d payload]; [discriminate|].
  intros H. injection H as <-.
  apply strip_prefix_sound in H1, H3.
  apply span_sound in H2 as (-> & Hm & _).
  apply span_sound in H4 as (-> & Hp & _).
  split.
  - exists (String c mime), (String d payload). repeat split; auto; discriminate.
  - exists r4. subst s r2. simpl. rewrite sapp_assoc. reflexivity.
Qed.

Lemma data_uri_here_complete m post :
  is_data_uri m -> data_uri_here (m ++ post) <> None.
Proof.
  intros (mime & payload & -> & Hm0 & Hm & Hp0 & Hp).
  unfold data_uri_here.
  assert (E1 : strip_prefix "data:image/"
                 (("data:image/" ++ mime ++ ";base64," ++ payload) ++ post)
               = Some (mime ++ ";base64," ++ payload ++ post)).
  { rewrite !sapp_assoc. apply strip_prefix_app. }
  rewrite E1.
  assert (E2 : span not_semicolon (mime ++ ";base64," ++ payload ++ post)
               = (mime, ";base64," ++ payload ++ post)).
  { rewrite (span_app _ _ _ Hm). rewrite span_stops by reflexivity.
    cbn [fst snd]. rewrite sapp_nil_r. reflexivity. }
  rewrite E2.
  destruct mime as [|c mime]; [congruence|].
  rewrite strip_prefix_app.
  rewrite (span_app _ _ _ Hp).
  destruct (span is_b64_char post) as [x y]. cbn [fst snd].
  destruct payload as [|d payload]; [congruence|]. simpl. discriminate.
Qed.

Lemma search_data_uri_sound : forall t m,
  search_data_uri t = Some m ->
  is_data_uri m /\ exists pre post, t = pre ++ m ++ post.
Proof.
  induction t as [|c t IH]; intros m H.
  - vm_compute in H. discriminate.
  - cbn [search_data_uri] in H. destruct (data_uri_here (String c t)) eqn:Hh.
    + injection H as ->. apply data_uri_here_sound in Hh as [Hu [post Hp]].
      split; [assumption|]. exists "", post. exact Hp.
    + apply IH in H as [Hu (pre & post & ->)].
      split; [assumption|]. exists (String c pre), post. reflexivity.
Qed.

Lemma search_data_uri_here t :
  data_uri_here t <> None -> search_data_uri t <> None.
Proof.
  intros H. destruct t as [|c t]; cbn [search_data_uri];
    destruct (data_uri_here _); congruence.
Qed.

Lemma search_data_uri_complete : forall t,
  contains_data_uri t -> search_data_uri t <> None.
Proof.
  intros t (pre & m & post & -> & Hu). induction pre as [|c pre IH].
  - apply search_data_uri_here. exact (data_uri_here_complete m post Hu).
  - change (String c pre ++ m ++ post) with (String c (pre ++ m ++ post)).
    cbn [search_data_uri].
    destruct (data_uri_here (String c (pre ++ m ++ post))); [discriminate|].
    exact IH.
Qed.

(** C3 fails as stated: a list content without image part raises the
    parse error although the serialized response holds a data URI. *)
Lemma parse_fallback_counterexample :
  search_data_uri (dumps list_with_embedded_uri) = Some "data:image/png;base64,AAAA"
  /\ contains_data_uri (dumps list_with_embedded_uri)
  /\ parse_response "nano-banana" list_with_embedded_uri = Raise no_image_data_list
  /\ parse_response "sora_image" list_with_embedded_uri = Raise no_image_data_list.
Proof.
  assert (H : search_data_uri (dumps list_with_embedded_uri)
              = Some "data:image/png;base64,AAAA") by (vm_compute; reflexivity).
  split; [exact H|]. split; [|split; vm_compute; reflexivity].
  apply search_data_uri_sound in H as [Hu (pre & post & Ht)].
  exists pre, "data:image/png;base64,AAAA", post. auto.
Qed.

Lemma get_content_raises data e :
  get_content data = Raise e -> caught e = false /\ e <> unparseable.
Proof.
  unfold get_content, py_get, py_item0, bind. intros H.
  assert (Hcases : e = AttributeError \/ e = IndexError
                   \/ e = KeyError \/ e = TypeError).
  { destruct data as [| | | | | |top]; try (injection H as <-; auto).
    destruct (match lookup "choices" top with
              | Some v => v
              | None => JArr [JObj []]
              end) as [| | | |s|l|kv]; try (injection H as <-; auto 6).
    - destruct (first_char s); injection H as <-; auto 6.
    - destruct l as [|first l]; [injection H as <-; auto 6|].
      destruct first as [| | | | | |fkv]; try (injection H as <-; auto).
      destruct (match lookup "message" fkv with
                | Some v => v
                | None => JObj []
                end); try (injection H as <-; auto); discriminate H. }
  destruct Hcases as [-> | [-> | [-> | ->]]]; split; reflexivity || discriminate.
Qed.

(** C3, as amended: when the message content can be read, the
    serialized response is scanned for a base64 data URI only when the
    content is neither a string nor a list; then a parse error is
    raised exactly when the serialization holds no data URI.  For a
    string content without markdown link and data URI, and for a list
    content without image part, the parse error is raised at once,
    whatever the rest of the response holds.  When reading the content
    raises (the response is no object, the choices are empty or no
    list, the first choice or its message is no object), that error
    ends the parsing before any scan; it is none of the parse errors
    and none the retry loop catches. *)
Theorem parse_response_fallback :
  forall model_type data,
    (forall e, get_content data = Raise e ->
               parse_response model_type data = Raise e
               /\ caught e = false
               /\ e <> unparseable)
    /\ (forall content,
          get_content data = Ok content ->
          (forall s, content = JStr s ->
                     markdown_link model_type s = None ->
                     search_data_uri s = None ->
                     parse_response model_type data = Raise no_image_data)
          /\ (forall parts, content = JArr parts ->
                            scan_parts parts = Ok None ->
                            parse_response model_type data
                            = Raise no_image_data_list)
          /\ (str_or_list content = false ->
              (contains_data_uri (dumps data) ->
               exists m, parse_response model_type data = Ok (JStr m)
                         /\ is_data_uri m
                         /\ exists pre post, dumps data = pre ++ m ++ post)
              /\ (~ contains_data_uri (dumps data) ->
                  parse_response model_type data = Raise unparseable))).
Proof.
  intros model_type data. split.
  { intros e He. destruct (get_content_raises data e He) as [Hc Hu].
    split; [|split; assumption].
    unfold parse_response. rewrite He. reflexivity. }
  intros content Hc. unfold parse_response. rewrite Hc. simpl.
  split; [|split].
  - intros s -> H1 H2. rewrite H1, H2. reflexivity.
  - intros parts -> H. rewrite H. reflexivity.
  - intros Hk.
    assert (Hfb :
      (contains_data_uri (dumps data) ->
       exists m, match search_data_uri (dumps data) with
                 | Some m3 => Ok (JStr m3)
                 | None => Raise unparseable
                 end = Ok (JStr m)
                 /\ is_data_uri m /\ exists pre post, dumps data = pre ++ m ++ post)
      /\ (~ contains_data_uri (dumps data) ->
          match search_data_uri (dumps data) with
          | Some m3 => Ok (JStr m3)
          | None => Raise unparseable
          end = Raise unparseable)).
    { destruct (search_data_uri (dumps data)) as [m|] eqn:Hs.
      - apply search_data_uri_sound in Hs as [Hu Hocc]. split.
        + intros _. exists m. auto.
        + intros Hn. exfalso. apply Hn. destruct Hocc as (pre & post & Ht).
          exists pre, m, post. auto.
      - split; [|reflexivity].
        intros Hcon. apply search_data_uri_complete in Hcon. congruence. }
    destruct content; simpl in Hk; try discriminate; exact Hfb.
Qed.

(** The fallback on an empty response object, and a response with an
    empty list of choices. *)
Lemma parse_response_fallback_witness :
  get_content (JObj []) = Ok JNull
  /\ parse_response "sora_image" (JObj []) = Raise unparseable
  /\ get_content (JObj [("choices", JArr [])]) = Raise IndexError
  /\ parse_response "sora_image" (JObj [("choices", JArr [])]) = Raise IndexError.
Proof.
  split; [reflexivity|]. split; [|split; [reflexivity|]].
  - destruct (parse_response_fallback "sora_image" (JObj [])) as [_ H].
    destruct (H JNull eq_refl) as (_ & _ & Hf).
    apply (proj2 (Hf eq_refl)).
    intros Hc. apply search_data_uri_complete in Hc. apply Hc. reflexivity.
  - destruct (parse_response_fallback "sora_image" (JObj [("choices", JArr [])]))
      as [H _].
    exact (proj1 (H IndexError eq_refl)).
Defined.


(** The two literal cases of the specification. *)
Example parse_click_download :
  parse_response "sora_image"
    (JObj [("choices",
            JArr [JObj [("message",
                         JObj [("content",
                                JStr "done [点击下载](http://h/x.png)")])]])])
  = Ok (JStr "http://h/x.png").
Proof. reflexivity. Qed.

Example parse_image_part :
  forall model_type,
    parse_response model_type
      (JObj [("choices",
              JArr [JObj [("message",
                           JObj [("content",
                                  JArr [JObj [("type", JStr "image_url");
                                              ("image_url",
                                               JObj [("url", JStr "http://h/y.png")])]])])]])])
    = Ok (JStr "http://h/y.png").
Proof. intros model_type. reflexivity. Qed.

(** The first delays, and where the conversion to a double gives out. *)
Example first_delays :
  Qeq (delay_before 2) (1 # 2) /\ Qeq (delay_before 3) (inject_Z 1)
  /\ Qeq (delay_before 4) (inject_Z 2) /\ Qeq (delay_before 5) (inject_Z 4)
  /\ Qeq (delay_before 6) (inject_Z 8) /\ Qeq (delay_before 7) (inject_Z 8).
Proof. repeat split; vm_compute; reflexivity. Qed.

Example backoff_delay_overflow :
  backoff_delay 1024 = Ok (inject_Z 8) /\ backoff_delay 1025 = Raise OverflowError.
Proof. split; vm_compute; reflexivity. Qed.

End ApiFacts.

Module DownloadFacts.
Import Exn Str Download StrFacts.
Open Scope string_scope.

(** * Unique file names *)

Lemma nat_to_string_inj j k : nat_to_string j = nat_to_string k -> j = k.
Proof.
  unfold nat_to_string. intros H.
  apply (f_equal NilEmpty.uint_of_string) in H. rewrite !NilEmpty.usu in H.
  injection H as H. apply (f_equal Nat.of_uint) in H.
  rewrite !Unsigned.of_to in H. exact H.
Qed.

Lemma mem_In x l : mem x l = true <-> In x l.
Proof.
  unfold mem. rewrite existsb_exists. split.
  - intros (y & Hy & He). apply String.eqb_eq in He. subst. assumption.
  - intros H. exists x. split; [assumption|apply String.eqb_refl].
Qed.

Lemma path_join_numbered save_path number k :
  path_join save_path (numbered_filename number k)
  = join_prefix save_path number ++ numbered_filename number k.
Proof.
  unfold path_join, join_prefix, numbered_filename.
  destruct number as [|c number].
  - change (starts_with "/" ("" ++ "-" ++ nat_to_string k ++ ".png")) with false.
    cbv iota.
    destruct (String.eqb save_path "" || ends_with "/" save_path);
      [reflexivity|rewrite sapp_assoc; reflexivity].
  - change (String c number ++ "-" ++ nat_to_string k ++ ".png")
      with (String c (number ++ "-" ++ nat_to_string k ++ ".png")).
    cbn [starts_with]. rewrite andb_true_r.
    destruct (Ascii.eqb "/" c); [reflexivity|].
    destruct (String.eqb save_path "" || ends_with "/" save_path);
      [reflexivity|rewrite sapp_assoc; reflexivity].
Qed.

Lemma numbered_path_inj save_path number j k :
  path_join save_path (numbered_filename number j)
  = path_join save_path (numbered_filename number k) -> j = k.
Proof.
  rewrite !path_join_numbered. intros H. apply sapp_inv_head in H.
  unfold numbered_filename in H. apply sapp_inv_head in H.
  simpl in H. injection H as H. apply sapp_inv_tail in H.
  apply nat_to_string_inj. exact H.
Qed.

Lemma probe_sound files number save_path : forall fuel counter name,
  probe files number save_path fuel counter = Some name ->
  exists k, counter <= k /\ name = numbered_filename number k
            /\ ~ taken files number save_path k
            /\ forall j, counter <= j < k -> taken files number save_path j.
Proof.
  induction fuel as [|fuel IH]; simpl; intros counter name H; [discriminate|].
  destruct (path_exists files
              (path_join save_path (numbered_filename number counter))) eqn:He;
    simpl in H.
  - apply IH in H as (k & Hk & Hn & Hfree & Hall).
    exists k. repeat split; auto; [lia|].
    intros j Hj. destruct (Nat.eq_dec j counter) as [->|Hne]; [exact He|].
    apply Hall. lia.
  - injection H as <-. exists counter. repeat split; auto.
    + unfold taken. congruence.
    + intros j Hj. lia.
Qed.

Lemma probe_none files number save_path : forall fuel counter,
  probe files number save_path fuel counter = None ->
  forall j, counter <= j < counter + fuel -> taken files number save_path j.
Proof.
  induction fuel as [|fuel IH]; simpl; intros counter H j Hj; [lia|].
  destruct (path_exists files
              (path_join save_path (numbered_filename number counter))) eqn:He;
    simpl in H; [|discriminate].
  destruct (Nat.eq_dec j counter) as [->|Hne]; [exact He|].
  apply (IH (S counter)); [assumption|lia].
Qed.

Lemma probe_total files number save_path counter :
  probe files number save_path (S (List.length files)) counter <> None.
Proof.
  intros Hnone.
  pose proof (probe_none _ _ _ _ _ Hnone) as Hall.
  set (names := map (fun k => path_join save_path (numbered_filename number k))
                    (seq counter (S (List.length files)))).
  assert (Hnd : NoDup names).
  { unfold names. apply Injective_map_NoDup.
    - intros j k. apply numbered_path_inj.
    - apply seq_NoDup. }
  assert (Hincl : incl names files).
  { intros p Hp. unfold names in Hp. apply in_map_iff in Hp as (k & <- & Hk).
    apply in_seq in Hk. apply mem_In. apply Hall. lia. }
  pose proof (NoDup_incl_length Hnd Hincl) as Hlen.
  unfold names in Hlen. rewrite length_map, length_seq in Hlen. lia.
Qed.

Lemma get_unique_filename_spec :
  forall (files : fs) (number save_path : string),
    exists name,
      get_unique_filename files number save_path = Some name
      /\ path_exists files (path_join save_path name) = false
      /\ (path_exists files (path_join save_path (base_filename number)) = false ->
          name = base_filename number)
      /\ (path_exists files (path_join save_path (base_filename number)) = true ->
          exists k, 2 <= k /\ name = numbered_filename number k
                    /\ forall j, 2 <= j < k ->
                         path_exists files
                           (path_join save_path (numbered_filename number j)) = true).
Proof.
  intros files number save_path. unfold get_unique_filename.
  destruct (path_exists files (path_join save_path (base_filename number))) eqn:Hb;
    cbn [negb].
  - destruct (probe files number save_path (S (List.length files)) 2) as [name|] eqn:Hp.
    + apply probe_sound in Hp as (k & Hk & -> & Hfree & Hall).
      exists (numbered_filename number k). repeat split.
      * apply not_true_is_false. exact Hfree.
      * discriminate.
      * intros _. exists k. auto.
    + exfalso. eapply probe_total. exact Hp.
  - exists (base_filename number). repeat split; auto. discriminate.
Qed.

(** C7: the derived name is [<n>.png] when that path is free, and
    otherwise [<n>-k.png] for the least [k >= 2] whose path is free; the
    returned name never names an existing path, and the search always
    ends.  With [7.png] present the result is [7-2.png], with both
    present [7-3.png]. *)
Theorem get_unique_filename_derivation :
  (forall (files : fs) (number save_path : string),
      exists name,
        get_unique_filename files number save_path = Some name
        /\ path_exists files (path_join save_path name) = false
        /\ (path_exists files (path_join save_path (base_filename number)) = false ->
            name = base_filename number)
        /\ (path_exists files (path_join save_path (base_filename number)) = true ->
            exists k, 2 <= k /\ name = numbered_filename number k
                      /\ forall j, 2 <= j < k ->
                           path_exists files
                             (path_join save_path (numbered_filename number j))
                           = true))
  /\ numbered_filename "7" 2 = "7-2.png"
  /\ get_unique_filename [] "7" "/out" = Some "7.png"
  /\ get_unique_filename ["/out/7.png"] "7" "/out" = Some "7-2.png"
  /\ get_unique_filename ["/out/7-2.png"; "/out/7.png"] "7" "/out" = Some "7-3.png".
Proof.
  split; [exact get_unique_filename_spec|]. repeat split.
Qed.

(** The derivation when [7.png] is present. *)
Lemma get_unique_filename_derivation_witness :
  path_exists ["/out/7.png"] (path_join "/out" (base_filename "7")) = true
  /\ exists k, 2 <= k
               /\ get_unique_filename ["/out/7.png"] "7" "/out"
                  = Some (numbered_filename "7" k).
Proof.
  assert (Hb : path_exists ["/out/7.png"] (path_join "/out" (base_filename "7")) = true)
    by reflexivity.
  split; [exact Hb|].
  destruct (proj1 get_unique_filename_derivation ["/out/7.png"] "7" "/out")
    as (name & Hname & _ & _ & Hk).
  destruct (Hk Hb) as (k & Hk2 & -> & _).
  exists k. split; assumption.
Defined.

End DownloadFacts.

Module SchedulerFacts.
Import Exn Str Download Scheduler DownloadFacts.
Open Scope string_scope.

(** * Facts about [update_first] *)


Lemma update_first_In p f t r' :
  In r' (update_first p f t) ->
  In r' t \/ exists r, In r t /\ prompt r = p /\ r' = f r.
Proof.
  induction t as [|r t IH]; simpl; [tauto|].
  destruct (String.eqb_spec (prompt r) p) as [He|Hne]; simpl.
  - intros [<-|Hin]; [right; exists r; auto|auto].
  - intros [<-|Hin]; [auto|].
    destruct (IH Hin) as [H|(r0 & H0 & H1 & H2)]; [auto|].
    right. exists r0. auto.
Qed.









Lemma remove_nth_keeps {A B} (g : A -> B) (l : list A) : forall i a b,
  nth_error l i = Some a -> In b (map g l) -> b <> g a ->
  In b (map g (remove_nth i l)).
Proof.
  induction l as [|x l IH]; intros [|i] a b Hn Hin Hne; simpl in *; try discriminate.
  - injection Hn as ->. destruct Hin as [H|H]; [congruence|assumption].
  - destruct Hin as [H|H]; [auto|right; eauto].
Qed.

(** * The semaphore invariant *)



Lemma dispatch_cons spawn j rest t :
  dispatch spawn (j :: rest) t
  = (fst (dispatch spawn rest (fst (run_async_worker spawn j t))),
     (snd (run_async_worker spawn j t)
        ++ snd (dispatch spawn rest (fst (run_async_worker spawn j t))))%list).
Proof.
  cbn [dispatch]. destruct (run_async_worker spawn j t) as [t1 started].
  cbn [fst snd]. destruct (dispatch spawn rest t1) as [t2 others]. reflexivity.
Qed.

Lemma run_async_worker_table spawn j t :
  fst (run_async_worker spawn j t) = t
  \/ exists e, fst (run_async_worker spawn j t)
               = handle_error t (creation_failed e) (j_original j).
Proof.
  unfold run_async_worker. destruct (spawn j) as [e|]; [right; exists e|left];
    reflexivity.
Qed.










(** Once created, the semaphore stays the one it is. *)
Lemma apply_change_keeps_semaphore l c K :
  semaphore l = Some K -> semaphore (apply_change l c) = Some K.
Proof.
  intros H. destruct c as [n|]; cbn [apply_change]; [exact H|].
  unfold ensure_semaphore. rewrite H. exact H.
Qed.

Lemma changes_keep_semaphore changes : forall l K,
  semaphore l = Some K -> semaphore (fold_left apply_change changes l) = Some K.
Proof.
  induction changes as [|c changes IH]; intros l K H; [exact H|].
  cbn [fold_left]. apply IH. apply apply_change_keeps_semaphore. exact H.
Qed.




(** The thread count is raised to 5 after the semaphore was created
    with capacity 1: the limit shown is 5, the semaphore the same. *)
Example limit_raised_later :
  let l := fold_left apply_change
             [SetThreadCount 1; WorkerStarts; SetThreadCount 5; WorkerStarts]
             initial_limits in
  max_concurrent_tasks l = 5%Z /\ semaphore l = Some 1.
Proof. split; reflexivity. Qed.

(** * Re-submission *)

Lemma make_jobs_originals cfg : forall originals i,
  map j_original (make_jobs cfg i originals) = originals.
Proof.
  induction originals as [|p l IH]; simpl; intros i; [reflexivity|].
  rewrite IH. reflexivity.
Qed.


Lemma dispatch_all_spawn spawn : forall jobs t,
  (forall j, spawn j = None) -> dispatch spawn jobs t = (t, jobs).
Proof.
  intros jobs t Hs. induction jobs as [|j jobs IH]; [reflexivity|].
  rewrite dispatch_cons. unfold run_async_worker at 1 2 3. rewrite Hs.
  cbn [fst snd]. rewrite IH. reflexivity.
Qed.













(** * Download failures *)

Lemma download_outcome w files sp url num p :
  let effs := fst (download_image_async w files sp url num p) in
  exists gets,
    (gets = [] \/ gets = [Get url])
    /\ ((completes effs = true /\ exists f, effs = (gets ++ [Complete p f])%list)
        \/ (completes effs = false
            /\ exists e, effs = (gets ++ [DeferFailed p (save_failed e)])%list)).
Proof.
  unfold download_image_async, download_body, write_file.
  destruct (makedirs w) as [e|].
  { exists []. split; [auto|]. right. split; [reflexivity|]. exists e. reflexivity. }
  destruct (get_unique_filename_spec files num sp) as (name & -> & _).
  destruct (starts_with "data:image/" url).
  - exists []. split; [auto|]. destruct (negb (has_comma url)).
    { right. split; [reflexivity|]. eexists. reflexivity. }
    destruct (decode w) as [e|].
    { right. split; [reflexivity|]. exists e. reflexivity. }
    destruct (write w) as [|e|e].
    + left. split; [reflexivity|]. exists name. reflexivity.
    + right. split; [reflexivity|]. exists e. reflexivity.
    + right. split; [reflexivity|]. exists e. reflexivity.
  - exists [Get url]. split; [auto|]. destruct (get w) as [e|code].
    { right. split; [reflexivity|]. exists e. reflexivity. }
    destruct (code =? 200)%Z.
    + destruct (write w) as [|e|e].
      * left. split; [reflexivity|]. exists name. reflexivity.
      * right. split; [reflexivity|]. exists e. reflexivity.
      * right. split; [reflexivity|]. exists e. reflexivity.
    + right. split; [reflexivity|]. exists UnboundLocalError. reflexivity.
Qed.

Lemma http_error_fails w files sp url num p code :
  starts_with "data:image/" url = false ->
  get w = GetStatus code -> (code <> 200)%Z ->
  completes (fst (download_image_async w files sp url num p)) = false.
Proof.
  intros Hu Hg Hc. unfold download_image_async, download_body.
  destruct (makedirs w); [reflexivity|].
  destruct (get_unique_filename files num sp); [|reflexivity].
  rewrite Hu, Hg. apply Z.eqb_neq in Hc. rewrite Hc. reflexivity.
Qed.

Lemma write_error_fails w files sp url num p :
  write w <> Written ->
  completes (fst (download_image_async w files sp url num p)) = false.
Proof.
  intros Hw. unfold download_image_async, download_body, write_file.
  destruct (makedirs w); [reflexivity|].
  destruct (get_unique_filename files num sp); [|reflexivity].
  destruct (starts_with "data:image/" url).
  - destruct (negb (has_comma url)); [reflexivity|].
    destruct (decode w); [reflexivity|].
    destruct (write w); [congruence|reflexivity|reflexivity].
  - destruct (get w) as [e|code]; [reflexivity|].
    destruct (code =? 200)%Z; [|reflexivity].
    destruct (write w); [congruence|reflexivity|reflexivity].
Qed.

Lemma find_first_update p f t :
  keeps_prompt f ->
  find_first p (update_first p f t) = option_map f (find_first p t).
Proof.
  intros Hk. induction t as [|r t IH]; simpl; [reflexivity|].
  destruct (String.eqb (prompt r) p) eqn:He; simpl.
  - rewrite Hk, He. reflexivity.
  - rewrite He. exact IH.
Qed.

Lemma nth_error_snoc {A} (l : list A) x : nth_error (l ++ [x]) (List.length l) = Some x.
Proof. induction l; simpl; auto. Qed.

Lemma remove_nth_snoc {A} (l : list A) x : remove_nth (List.length l) (l ++ [x]) = l.
Proof. induction l as [|a l IH]; simpl; [reflexivity|rewrite IH; reflexivity]. Qed.

Lemma apply_effects_gets gets : forall t pending,
  (gets = [] \/ exists u, gets = [Get u]) ->
  forall p m,
    apply_effects (gets ++ [DeferFailed p m]) t pending
    = (t, (pending ++ [(p, m)])%list).
Proof.
  intros t pending [->|[u ->]] p m; reflexivity.
Qed.

Lemma update_first_at p f : forall t n r,
  nth_error t n = Some r ->
  prompt r = p ->
  (forall m r0, m < n -> nth_error t m = Some r0 -> prompt r0 <> p) ->
  nth_error (update_first p f t) n = Some (f r)
  /\ forall m, m <> n -> nth_error (update_first p f t) m = nth_error t m.
Proof.
  induction t as [|r0 t IH]; intros n r Hn Hp Hbefore.
  - destruct n; discriminate.
  - cbn [update_first]. destruct n as [|n].
    + injection Hn as ->. apply String.eqb_eq in Hp. rewrite Hp.
      split; [reflexivity|]. intros [|m] Hm; [congruence|reflexivity].
    + assert (H0 : prompt r0 <> p) by (apply (Hbefore 0 r0); [lia|reflexivity]).
      apply String.eqb_neq in H0. rewrite H0.
      destruct (IH n r Hn Hp) as [Hat Hother].
      { intros m r1 Hm Hr1. apply (Hbefore (S m) r1); [lia|exact Hr1]. }
      split; [exact Hat|].
      intros [|m] Hm; [reflexivity|]. simpl. apply Hother. lia.
Qed.

(** C9 fails as stated: the table holds a finished row and a waiting
    row with the same prompt text.  The only worker is that of the
    waiting row; its download fails, the finished row is set to 失败 and
    the waiting row never leaves 等待中. *)
Lemma download_failure_counterexample :
  exists s,
    run demo_settings (idle 1 [done_row; fresh "2" "a"] [])
        [Submit always_spawns; Acquire 0; Finish 0 (Ok "http://h/a.png");
         RunDownload 0 http_404; Fire 0] = Some s
    /\ filter is_waiting [done_row; fresh "2" "a"] = [fresh "2" "a"]
    /\ nth_error (rows s) 1 = Some (fresh "2" "a")
    /\ option_map status (nth_error (rows s) 1) <> Some Failed
    /\ option_map status (nth_error (rows s) 0) = Some Failed
    /\ option_map (fun r => starts_with download_failed_prefix (error_msg r))
                  (nth_error (rows s) 0) = Some true
    /\ timers s = [] /\ downloads s = [].
Proof.
  eexists. split; [vm_compute; reflexivity|]. cbn [rows timers downloads].
  split; [reflexivity|]. split; [reflexivity|].
  split; [discriminate|]. repeat split.
Qed.

(** C9, as amended: a download that fails (HTTP status other than 200,
    write error, or any other exception) issues at most one GET, starts
    no further download or generation, and leaves exactly one pending
    [mark_download_failed] call; when that call runs, the first row of
    the table that carries the prompt text of the download goes to 失败
    with the error text [下载失败: <cause>], a prefix no generation
    failure carries, and no call remains.  A row with that prompt text
    which no row with the same text precedes is that first row: it is
    the one set to 失败, and every other row is left as it was. *)
Theorem download_failure_is_final :
  forall cfg s i d w,
    nth_error (downloads s) i = Some d ->
    let effs := fst (download_image_async w (files s) (save_path cfg)
                                          (d_url d) (d_number d) (d_original d)) in
    (* an HTTP error status and a write error are failures *)
    (forall e, starts_with download_failed_prefix (request_failed e) = false)
    /\ (forall code, starts_with "data:image/" (d_url d) = false ->
                  get w = GetStatus code -> (code <> 200)%Z ->
                  completes effs = false)
    /\ (write w <> Written -> completes effs = false)
    /\ (completes effs = false ->
        exists msg s1 s2,
          count_gets effs <= 1
          /\ (effs = [DeferFailed (d_original d) msg]
              \/ effs = [Get (d_url d); DeferFailed (d_original d) msg])
          /\ step cfg s (RunDownload i w) = Some s1
          /\ rows s1 = rows s
          /\ timers s1 = (timers s ++ [(d_original d, msg)])%list
          /\ downloads s1 = remove_nth i (downloads s)
          /\ queued s1 = queued s /\ running s1 = running s
          /\ step cfg s1 (Fire (List.length (timers s))) = Some s2
          /\ timers s2 = timers s
          /\ downloads s2 = remove_nth i (downloads s)
          /\ queued s2 = queued s /\ running s2 = running s
          /\ rows s2 = mark_download_failed (rows s) (d_original d) msg
          /\ (forall r, find_first (d_original d) (rows s) = Some r ->
               exists r',
                 find_first (d_original d) (rows s2) = Some r'
                 /\ status r' = Failed
                 /\ error_msg r' = download_failed_prefix ++ msg
                 /\ starts_with "下载失败: " (error_msg r') = true
                 /\ number r' = number r /\ prompt r' = prompt r
                 /\ image_url r' = image_url r)
          /\ (forall n r,
                 nth_error (rows s) n = Some r ->
                 prompt r = d_original d ->
                 (forall m r0, m < n -> nth_error (rows s) m = Some r0 ->
                               prompt r0 <> d_original d) ->
                 (exists r',
                    nth_error (rows s2) n = Some r'
                    /\ status r' = Failed
                    /\ error_msg r' = download_failed_prefix ++ msg
                    /\ starts_with "下载失败: " (error_msg r') = true
                    /\ number r' = number r /\ prompt r' = prompt r
                    /\ image_url r' = image_url r)
                 /\ forall m, m <> n ->
                       nth_error (rows s2) m = nth_error (rows s) m)).
Proof.
  intros cfg s i d w Hn effs. split; [|split; [|split]].
  - intros e. reflexivity.
  - intros code. apply http_error_fails.
  - apply write_error_fails.
  - intros Hfail.
    destruct (download_outcome w (files s) (save_path cfg) (d_url d) (d_number d)
                               (d_original d)) as (gets & Hgets & Hout).
    fold effs in Hout.
    destruct Hout as [[Hc _]|[_ [e He]]]; [congruence|].
    set (msg := save_failed e) in *.
    assert (Hstep : step cfg s (RunDownload i w)
                    = Some {| rows := rows s; permits := permits s;
                              queued := queued s; running := running s;
                              downloads := remove_nth i (downloads s);
                              timers := (timers s ++ [(d_original d, msg)])%list;
                              files := snd (download_image_async w (files s)
                                              (save_path cfg) (d_url d)
                                              (d_number d) (d_original d)) |}).
    { simpl. rewrite Hn. unfold effs in He.
      destruct (download_image_async w (files s) (save_path cfg) (d_url d)
                  (d_number d) (d_original d)) as [effs0 files'].
      simpl in He. subst effs0.
      rewrite apply_effects_gets; [reflexivity|].
      destruct Hgets as [->| ->]; [left; reflexivity|right; eexists; reflexivity]. }
    eexists msg, _, _. split; [|split; [|split; [exact Hstep|]]].
    + rewrite He. destruct Hgets as [->| ->]; unfold count_gets; simpl; lia.
    + rewrite He. destruct Hgets as [->| ->]; simpl; auto.
    + cbn [rows timers downloads queued running].
      split; [reflexivity|]. split; [reflexivity|]. split; [reflexivity|].
      split; [reflexivity|]. split; [reflexivity|].
      split.
      { simpl. rewrite nth_error_snoc. reflexivity. }
      cbn [rows timers downloads queued running].
      split; [apply remove_nth_snoc|]. split; [reflexivity|].
      split; [reflexivity|]. split; [reflexivity|]. split; [reflexivity|].
      split.
      { intros r Hr. unfold mark_download_failed.
        rewrite find_first_update by (intros r0; reflexivity). rewrite Hr. simpl.
        eexists. split; [reflexivity|]. simpl. repeat split. }
      intros n r Hr Hp Hbefore. unfold mark_download_failed.
      destruct (update_first_at (d_original d)
                  (fun r => {| number := number r; prompt := prompt r;
                               status := Failed; image_url := image_url r;
                               error_msg := download_failed_prefix ++ msg;
                               actual_filename := actual_filename r |})
                  (rows s) n r Hr Hp Hbefore) as [Hat Hother].
      split; [|exact Hother].
      eexists. split; [exact Hat|]. simpl. repeat split.
Qed.

(** A download answered with status 404. *)
Lemma download_failure_is_final_witness :
  nth_error (downloads downloading_state) 0
  = Some {| d_url := "http://h/a.png"; d_number := "1"; d_original := "a" |}
  /\ completes (fst (download_image_async http_404 [] "/out"
                                          "http://h/a.png" "1" "a")) = false
  /\ exists s2,
       run demo_settings downloading_state [RunDownload 0 http_404; Fire 0] = Some s2
       /\ map status (rows s2) = [Failed; Waiting]
       /\ timers s2 = [].
Proof.
  assert (Hn : nth_error (downloads downloading_state) 0
               = Some {| d_url := "http://h/a.png"; d_number := "1";
                         d_original := "a" |}) by reflexivity.
  destruct (download_failure_is_final demo_settings downloading_state 0 _ http_404 Hn)
    as (_ & Hhttp & _ & Hfinal).
  assert (Hfail : completes (fst (download_image_async http_404 [] "/out"
                                    "http://h/a.png" "1" "a")) = false).
  { apply (Hhttp 404%Z); [reflexivity|reflexivity|discriminate]. }
  split; [exact Hn|]. split; [exact Hfail|].
  destruct (Hfinal Hfail) as (msg & s1 & s2 & _ & _ & H1 & _ & _ & _ & _ & _ & H2
                              & Ht & _ & _ & _ & Hrows & _).
  exists s2. split.
  - cbn [run]. rewrite H1.
    change (Fire 0) with (Fire (List.length (timers downloading_state))).
    rewrite H2. reflexivity.
  - split; [rewrite Hrows; reflexivity|exact Ht].
Defined.

End SchedulerFacts.

Module HistoryFacts.
Import Json Exn PyVal Str History.
Open Scope string_scope.

(** * The history store *)

Lemma read_put_file name c d : read_file name (put_file name c d) = Some c.
Proof.
  induction d as [|[n c'] d IH]; simpl.
  - rewrite String.eqb_refl. reflexivity.
  - destruct (String.eqb n name) eqn:He; simpl; rewrite He; auto.
Qed.

Lemma lookup_assign k v kv : lookup k (assign k v kv) = Some v.
Proof.
  induction kv as [|[k' v'] kv IH]; simpl.
  - rewrite String.eqb_refl. reflexivity.
  - destruct (String.eqb k k') eqn:He; simpl.
    + rewrite String.eqb_refl. reflexivity.
    + rewrite He. exact IH.
Qed.




Lemma count_status_ok s : forall prompt_data,
  forallb is_dict prompt_data = true -> exists n, count_status s prompt_data = Ok n.
Proof.
  induction prompt_data as [|p l IH]; intros H; [exists 0%Z; reflexivity|].
  cbn [forallb] in H. apply andb_true_iff in H as [Hp Hl].
  destruct (IH Hl) as [n Hn]. destruct p; try discriminate.
  cbn [count_status py_get bind]. rewrite Hn. cbn [bind]. eexists. reflexivity.
Qed.

Lemma prompt_texts_ok : forall prompt_data,
  forallb is_dict prompt_data = true -> exists texts, prompt_texts prompt_data = Ok texts.
Proof.
  unfold prompt_texts.
  induction prompt_data as [|p l IH]; intros H; [exists []; reflexivity|].
  cbn [forallb] in H. apply andb_true_iff in H as [Hp Hl].
  destruct (IH Hl) as [texts Ht]. destruct p; try discriminate.
  cbn [map_result py_get bind]. rewrite Ht. cbn [bind]. eexists. reflexivity.
Qed.



Section Facts.
Variable md5 : string -> string.








End Facts.




(** C6, at the failing input: two saves of the same configuration and
    prompt texts under the names the automatic save passes
    ([auto_save_<time>]) leave two records: the search for a record with
    the same content hash only opens files named [sora_history_*.json]. *)
Theorem repeated_auto_save_duplicates :
  forall md5,
    let first := save_history_record md5 morning batch_failed demo_config "/app"
                   (Some "auto_save_20240101_100000") None in
    let second := save_history_record md5 noon batch_done demo_config "/app"
                    (Some "auto_save_20240101_120000") (fst first) in
    snd first = Ok (Some "/app/history/auto_save_20240101_100000.json")
    /\ snd second = Ok (Some "/app/history/auto_save_20240101_120000.json")
    /\ records (fst second)
       = ["auto_save_20240101_100000.json"; "auto_save_20240101_120000.json"]
    /\ List.length (records (fst second)) = 2.
Proof.
  intros md5. vm_compute. repeat split.
Qed.

(** Under the default name the second save rewrites the record of the
    first. *)
Lemma default_named_save_updates :
  forall md5,
    let first := save_history_record md5 morning batch_failed demo_config "/app"
                   None None in
    let second := save_history_record md5 noon batch_done demo_config "/app"
                    None (fst first) in
    snd first = Ok (Some "/app/history/sora_history_20240101_100000.json")
    /\ snd second = Ok (Some "/app/history/sora_history_20240101_100000.json")
    /\ records (fst second) = ["sora_history_20240101_100000.json"].
Proof.
  intros md5. cbv zeta.
  assert (H1 : save_history_record md5 morning batch_failed demo_config "/app" None None
               = (Some [("sora_history_20240101_100000.json",
                         Doc (JObj [ ("version", JStr "3.4");
                                     ("created_time", JStr "2024-01-01 10:00:00");
                                     ("total_prompts", JInt 1);
                                     ("success_count", JInt 0);
                                     ("failed_count", JInt 1);
                                     ("config", config_snapshot demo_config);
                                     ("prompts", JArr batch_failed) ]))],
                  Ok (Some "/app/history/sora_history_20240101_100000.json")))
    by (vm_compute; reflexivity).
  rewrite H1. cbn [fst snd]. split; [reflexivity|].
  unfold save_history_record, save_body.
  cbn [ensure_history_directory].
  change (build_record noon batch_done demo_config)
    with (Ok (JObj [ ("version", JStr "3.4");
                     ("created_time", JStr "2024-01-01 12:00:00");
                     ("total_prompts", JInt 1);
                     ("success_count", JInt 1);
                     ("failed_count", JInt 0);
                     ("config", config_snapshot demo_config);
                     ("prompts", JArr batch_done) ])).
  cbv beta iota.
  change (prompt_texts batch_done) with (Ok [JObj [("prompt", JStr "cat")]]).
  cbv beta iota.
  match goal with
  | |- context [find_duplicate md5 ?h (glob ?d)] =>
    assert (Hd : find_duplicate md5 h (glob d)
                 = Ok (Some "sora_history_20240101_100000.json"))
  end.
  { cbn. rewrite String.eqb_refl. reflexivity. }
  rewrite Hd. cbv beta iota. cbn. split; reflexivity.
Qed.

End HistoryFacts.

(* ------------------------------------------------------------------ *)
Module MatchingFacts.
Import Unicode Matcher MatcherFacts Matching.

(** * Where the accepted matches come from *)

Lemma result_accepted uniq prompt n :
  In n (extract_sorted uniq prompt) ->
  exists sp, In (n, sp)
                (accepted (tscan_all (normalize prompt) (sorted_by_len_desc uniq))).
Proof.
  unfold extract_sorted. rewrite dedup_In.
  destruct (scan_all_agree (normalize prompt) (sorted_by_len_desc uniq)) as [Hm _].
  rewrite Hm. intros [Hin _]. apply in_map_iff in Hin as ([n' sp] & Heq & Hin).
  simpl in Heq. subst n'. eauto.
Qed.

Lemma reported_origin uniq prompt n :
  In n (extract_sorted uniq prompt) ->
  In n uniq /\ exists sp, In sp (finditer n None (normalize prompt) 0 0).
Proof.
  intros Hin. destruct (result_accepted _ _ _ Hin) as [sp Hacc].
  apply tscan_origin in Hacc as [[]|[Hn Hsp]]. simpl in Hn, Hsp.
  split; [apply sorted_by_len_desc_In; assumption|eauto].
Qed.

(** X1: every reported name is a candidate that occurs in the
    normalized prompt at a place where it is delimited on both sides. *)
Theorem reported_names_are_delimited :
  forall uniq prompt n,
    In n (extract_sorted uniq prompt) ->
    In n uniq
    /\ exists sp,
         occurs n (normalize prompt) sp
         /\ delimited (normalize prompt) sp.
Proof.
  intros uniq prompt n Hin.
  destruct (reported_origin _ _ _ Hin) as (Hn & sp & Hsp).
  split; [assumption|].
  exists sp. split.
  - eapply finditer_occurs; [|eassumption]. reflexivity.
  - eapply finditer_delimited; [| |eassumption]; reflexivity.
Qed.

Lemma reported_names_are_delimited_witness :
  In (u "小猫") (extract_sorted [u "猫"; u "小猫"] (u "一只 小猫"))
  /\ exists sp, delimited (normalize (u "一只 小猫")) sp.
Proof.
  assert (H : In (u "小猫") (extract_sorted [u "猫"; u "小猫"] (u "一只 小猫")))
    by (vm_compute; auto).
  split; [exact H|].
  destruct (reported_names_are_delimited _ _ _ H) as (_ & sp & _ & Hd).
  exists sp. exact Hd.
Defined.

(** * Characters the normalization removes *)

Lemma normalize_chars prompt c :
  In c (normalize prompt) -> unified_away c = false.
Proof.
  unfold normalize, replace_char. rewrite !map_map. intros Hin.
  apply in_map_iff in Hin as (x & <- & _).
  unfold unified_away.
  destruct (N.eqb_spec x 12288) as [->|H1]; [reflexivity|].
  destruct (N.eqb_spec x 40) as [->|H2]; [reflexivity|].
  destruct (N.eqb_spec x 41) as [->|H3]; [reflexivity|].
  apply N.eqb_neq in H1, H2, H3. rewrite H1, H2, H3. reflexivity.
Qed.

Lemma In_firstn {A} (x : A) k l : In x (firstn k l) -> In x l.
Proof.
  intros H. rewrite <- (firstn_skipn k l). apply in_or_app. left. exact H.
Qed.

Lemma In_skipn {A} (x : A) k l : In x (skipn k l) -> In x l.
Proof.
  intros H. rewrite <- (firstn_skipn k l). apply in_or_app. right. exact H.
Qed.

Lemma occurs_chars n text sp c : occurs n text sp -> In c n -> In c text.
Proof.
  intros (_ & _ & Hf) Hin. rewrite <- Hf in Hin.
  apply In_firstn in Hin. apply In_skipn in Hin. exact Hin.
Qed.

(** X2: a name that contains an ASCII parenthesis or an ideographic
    space is never reported, whatever the prompt. *)
Theorem names_with_ascii_parentheses_never_match :
  forall uniq prompt n c,
    In c n -> unified_away c = true ->
    ~ In n (extract_sorted uniq prompt).
Proof.
  intros uniq prompt n c Hc Hu Hin.
  destruct (reported_origin _ _ _ Hin) as (_ & sp & Hsp).
  assert (Ho : occurs n (normalize prompt) sp)
    by (eapply finditer_occurs; [|eassumption]; reflexivity).
  pose proof (normalize_chars _ _ (occurs_chars _ _ _ _ Ho Hc)). congruence.
Qed.

Lemma names_with_ascii_parentheses_never_match_witness :
  In 40%N (u "cat(1)") /\ unified_away 40%N = true
  /\ ~ In (u "cat(1)") (extract_sorted [u "cat(1)"] (u "a cat(1) here")).
Proof.
  assert (Hc : In 40%N (u "cat(1)")) by (vm_compute; auto 10).
  assert (Hu : unified_away 40%N = true) by reflexivity.
  split; [exact Hc|]. split; [exact Hu|].
  exact (names_with_ascii_parentheses_never_match
           [u "cat(1)"] (u "a cat(1) here") (u "cat(1)") 40%N Hc Hu).
Defined.

(** * The longest candidate *)

Lemma firstn_starts_with n : forall t,
  firstn (List.length n) t = n -> starts_with n t = true.
Proof.
  induction n as [|a n IH]; intros t H; [reflexivity|].
  destruct t as [|b t]; [discriminate|].
  simpl in H. injection H as -> H. cbn [starts_with].
  rewrite N.eqb_refl, (IH _ H). reflexivity.
Qed.

Lemma finditer_finds n : n <> [] -> forall rest prev pos j,
  starts_with n (skipn j rest) = true ->
  boundary (match j with O => prev | S k => nth_error rest k end) = true ->
  boundary (nth_error rest (j + List.length n)) = true ->
  finditer n prev rest pos 0 <> [].
Proof.
  intros Hne. induction rest as [|c rest IH]; intros prev pos j Hs Hb Ha.
  - rewrite skipn_nil in Hs. destruct n; [congruence|discriminate].
  - cbn [finditer].
    destruct (starts_with n (c :: rest) && boundary prev
              && boundary (nth_error (c :: rest) (List.length n))) eqn:Hm;
      [discriminate|].
    destruct j as [|j].
    + simpl in Hs, Ha. rewrite Hs, Hb, Ha in Hm. discriminate.
    + apply (IH (Some c) (S pos) j).
      * exact Hs.
      * destruct j; exact Hb.
      * exact Ha.
Qed.

Lemma covered_clean text s e : ~ In 0%N text -> covered text s e = false.
Proof.
  intros H0. unfold covered.
  destruct (existsb _ _) eqn:He; [|reflexivity].
  apply existsb_exists in He as (x & Hin & Hx). apply N.eqb_eq in Hx. subst x.
  apply In_firstn, In_skipn in Hin. contradiction.
Qed.

Lemma visits_keep n spans : forall st x,
  In x (matched st) -> In x (matched (fold_left (visit n) spans st)).
Proof.
  induction spans as [|[s e] spans IH]; cbn [fold_left]; intros st x Hin; [assumption|].
  apply IH. unfold visit. destruct (covered (masked st) s e); [assumption|].
  simpl. apply in_or_app. left. assumption.
Qed.

Lemma scans_keep text names : forall st x,
  In x (matched st) -> In x (matched (fold_left (scan_name text) names st)).
Proof.
  induction names as [|n names IH]; cbn [fold_left]; intros st x Hin; [assumption|].
  apply IH. apply visits_keep. assumption.
Qed.

Lemma normalize_keeps_nul prompt : ~ In 0%N prompt -> ~ In 0%N (normalize prompt).
Proof.
  unfold normalize, replace_char. rewrite !map_map. intros H Hin.
  apply in_map_iff in Hin as (x & Hx & Hin).
  destruct (N.eqb_spec x 12288) as [E1|H1]; [clear - Hx; cbv in Hx; discriminate|].
  destruct (N.eqb_spec x 40) as [E2|H2]; [clear - Hx; cbv in Hx; discriminate|].
  destruct (N.eqb_spec x 41) as [E3|H3]; [clear - Hx; cbv in Hx; discriminate|].
  subst x. contradiction.
Qed.

Lemma head_of_sorted uniq n :
  In n uniq ->
  (forall m, In m uniq -> m <> n -> List.length m < List.length n) ->
  exists others, sorted_by_len_desc uniq = n :: others.
Proof.
  intros Hin Hlong.
  pose proof (sorted_by_len_desc_sorted uniq) as Hs.
  pose proof (sorted_by_len_desc_In uniq) as Hi.
  destruct (sorted_by_len_desc uniq) as [|h others].
  - apply Hi in Hin. contradiction.
  - exists others. f_equal.
    destruct (list_eq_dec N.eq_dec h n) as [|Hd]; [assumption|exfalso].
    assert (Hh : In h uniq) by (apply Hi; left; reflexivity).
    specialize (Hlong h Hh Hd).
    destruct (proj2 (Hi n) Hin) as [Heq|Hin']; [congruence|].
    apply StronglySorted_inv in Hs as [_ Hall].
    rewrite Forall_forall in Hall. specialize (Hall n Hin'). unfold len_ge in Hall. lia.
Qed.

(** X3: in a prompt without NUL characters, a non-empty candidate
    that is strictly longer than every other candidate is reported as
    soon as the normalized prompt holds one delimited copy of it. *)
Theorem longest_delimited_name_is_reported :
  forall uniq prompt n sp,
    In n uniq -> n <> [] ->
    (forall m, In m uniq -> m <> n -> List.length m < List.length n) ->
    ~ In 0%N prompt ->
    occurs n (normalize prompt) sp ->
    delimited (normalize prompt) sp ->
    In n (extract_sorted uniq prompt).
Proof.
  intros uniq prompt n [s e] Hin Hne Hlong Hnul (He & Hlen & Hocc) [Hb Ha].
  simpl in He, Hlen, Hocc, Hb, Ha.
  destruct (head_of_sorted _ _ Hin Hlong) as [others Hsorted].
  unfold extract_sorted. rewrite dedup_In. split; [|intros []].
  rewrite Hsorted. unfold scan_all. cbn [fold_left]. apply scans_keep.
  unfold scan_name.
  assert (Hf : finditer n None (normalize prompt) 0 0 <> []).
  { apply (finditer_finds n Hne (normalize prompt) None 0 s).
    - apply firstn_starts_with. exact Hocc.
    - exact Hb.
    - rewrite <- He. exact Ha. }
  destruct (finditer n None (normalize prompt) 0 0) as [|[s1 e1] spans]; [congruence|].
  cbn [fold_left]. apply visits_keep. unfold visit. cbn [masked matched].
  rewrite covered_clean by (apply normalize_keeps_nul; assumption).
  simpl. left. reflexivity.
Qed.

Lemma longest_delimited_name_is_reported_witness :
  In (u "小猫") (extract_sorted [u "猫"; u "小猫"] (u "一只 小猫（白）")).
Proof.
  apply (longest_delimited_name_is_reported
           [u "猫"; u "小猫"] (u "一只 小猫（白）") (u "小猫") (3, 5)).
  - vm_compute. auto.
  - vm_compute. discriminate.
  - intros m [<-|[<-|[]]] Hm; [vm_compute; lia|congruence].
  - vm_compute. intros H.
    repeat (destruct H as [H|H]; [discriminate H|]). exact H.
  - unfold occurs. vm_compute. repeat split. lia.
  - vm_compute. auto.
Defined.

End MatchingFacts.

Module AttachFacts.
Import Unicode Matcher MatcherFacts Matching Scheduler Attaching.

(** * [str.strip] *)

Lemma lstrip_head s :
  match lstrip s with [] => True | c :: _ => py_isspace c = false end.
Proof.
  induction s as [|c s IH]; cbn [lstrip]; [exact I|].
  destruct (py_isspace c) eqn:Hc; [exact IH|exact Hc].
Qed.

Lemma lstrip_suffix s : exists p, s = (p ++ lstrip s)%list.
Proof.
  induction s as [|c s [p IH]]; cbn [lstrip]; [exists []; reflexivity|].
  destruct (py_isspace c); [|exists []; reflexivity].
  exists (c :: p). simpl. f_equal. exact IH.
Qed.

Lemma lstrip_fix s :
  match s with [] => True | c :: _ => py_isspace c = false end -> lstrip s = s.
Proof.
  destruct s as [|c s]; [reflexivity|]. cbn [lstrip]. intros ->. reflexivity.
Qed.

Lemma strip_strip x : strip (strip x) = strip x.
Proof.
  unfold strip.
  pose proof (lstrip_head x) as Ha.
  destruct (lstrip_suffix (rev (lstrip x))) as [p Hp].
  pose proof (lstrip_head (rev (lstrip x))) as Hb.
  set (a := lstrip x) in *. set (b := lstrip (rev a)) in *.
  assert (Hrb : lstrip (rev b) = rev b).
  { apply lstrip_fix.
    apply (f_equal (@rev _)) in Hp. rewrite rev_involutive, rev_app_distr in Hp.
    destruct (rev b) as [|c r]; [exact I|].
    rewrite Hp in Ha. exact Ha. }
  rewrite Hrb, rev_involutive.
  rewrite (lstrip_fix b Hb). reflexivity.
Qed.

Lemma collect_names_stripped links n :
  In n (collect_names links) -> n <> [] /\ strip n = n.
Proof.
  unfold collect_names. intros Hin.
  apply in_flat_map in Hin as (cat & _ & Hin).
  apply in_flat_map in Hin as (l & _ & Hin).
  destruct (strip (match name l with Some s => s | None => [] end)) eqn:Hs;
    [contradiction|].
  destruct Hin as [<-|[]]. split; [discriminate|].
  rewrite <- Hs. apply strip_strip.
Qed.

(** X4: a reference image is attached to a prompt only if its stored
    name is one of the reported names, and then the stored name is
    non-empty and carries no surrounding white space: a link stored
    with such white space is matched by its stripped name but never
    attached. *)
Theorem attached_images_have_trimmed_names :
  forall cfg p l,
    In l (image_data_list cfg p) ->
    In l (List.concat (category_links cfg))
    /\ exists n,
         name l = Some n /\ n <> [] /\ strip n = n
         /\ In n (extract_image_names (category_links cfg) (u p)).
Proof.
  intros cfg p l Hin. unfold image_data_list in Hin.
  apply in_flat_map in Hin as (n & Hn & Hl).
  destruct (get_image_data_map cfg n) as [l'|] eqn:Hg; [|contradiction].
  destruct Hl as [<-|[]]. unfold get_image_data_map in Hg.
  apply find_some in Hg as [Hl Hm]. apply in_rev in Hl.
  split; [exact Hl|].
  destruct (name l') as [m|]; [|discriminate].
  apply pystr_eqb_eq in Hm. subst m. exists n.
  assert (Hc : In n (collect_names (category_links cfg))).
  { unfold extract_image_names in Hn.
    destruct (MatchingFacts.reported_origin _ _ _ Hn) as [Hu _].
    unfold set_first_seen in Hu. apply in_rev in Hu. apply nodup_In in Hu.
    apply in_rev in Hu. exact Hu. }
  destruct (collect_names_stripped _ _ Hc) as [Hne Hst].
  repeat split; assumption.
Qed.

Lemma attached_images_have_trimmed_names_witness :
  extract_image_names (category_links pets_settings) (u "一只 小猫 和 狗")
  = [u "小猫"; u "狗"]
  /\ image_data_list pets_settings "一只 小猫 和 狗" = [cat_link]
  /\ exists n, name cat_link = Some n /\ strip n = n.
Proof.
  split; [vm_compute; reflexivity|].
  assert (H : image_data_list pets_settings "一只 小猫 和 狗" = [cat_link])
    by (vm_compute; reflexivity).
  split; [exact H|].
  destruct (attached_images_have_trimmed_names pets_settings "一只 小猫 和 狗" cat_link)
    as (_ & n & Hn & _ & Hs & _).
  - rewrite H. left. reflexivity.
  - exists n. split; assumption.
Defined.

(** * The prompt that is sent *)

Lemma starts_with_sapp p s : Str.starts_with p (p ++ s)%string = true.
Proof.
  induction p as [|c p IH]; [reflexivity|].
  cbn [append Str.starts_with]. rewrite Ascii.eqb_refl. exact IH.
Qed.

Lemma starts_with_more p : forall a b,
  Str.starts_with p a = true -> Str.starts_with p (a ++ b)%string = true.
Proof.
  induction p as [|c p IH]; intros a b H; [reflexivity|].
  destruct a as [|d a]; [discriminate|].
  cbn [append Str.starts_with] in *. apply andb_true_iff in H as [Hc Hp].
  rewrite Hc. apply IH. exact Hp.
Qed.

Lemma contains_empty s : Str.contains "" s = true.
Proof. destruct s; reflexivity. Qed.

Lemma contains_more x : forall a b,
  Str.contains x a = true -> Str.contains x (a ++ b)%string = true.
Proof.
  induction a as [|c a IH]; intros b H.
  - cbn [Str.contains] in H. rewrite orb_false_r in H.
    destruct x; [apply contains_empty|discriminate].
  - cbn [append Str.contains] in *. apply orb_true_iff in H as [H|H].
    + change (String c (a ++ b)%string) with ((String c a) ++ b)%string.
      rewrite (starts_with_more _ _ _ H). reflexivity.
    + rewrite (IH _ H). apply orb_true_r.
Qed.

Lemma contains_after x : forall a b,
  Str.contains x b = true -> Str.contains x (a ++ b)%string = true.
Proof.
  induction a as [|c a IH]; intros b H; [exact H|].
  cbn [append Str.contains]. rewrite (IH _ H). apply orb_true_r.
Qed.

Lemma contains_starts x h : Str.starts_with x h = true -> Str.contains x h = true.
Proof. destruct h; cbn [Str.contains]; intros ->; reflexivity. Qed.

Lemma contains_self x s : Str.contains x (x ++ s)%string = true.
Proof. apply contains_starts. apply starts_with_sapp. Qed.

(** X5: the prompt that is sent always carries the ratio tag, starts
    with the prompt of the row, and holds the style text unless the
    row's prompt already carried the ratio tag; processing it again
    changes nothing, so neither the style nor the tag is ever added
    twice. *)
Theorem processed_prompt_is_stable :
  forall cfg p,
    let q := process_prompt cfg p in
    Str.contains (ratio_tag cfg) q = true
    /\ Str.starts_with p q = true
    /\ process_prompt cfg q = q
    /\ (Str.contains (ratio_tag cfg) p = false ->
        Str.contains (style_content cfg) q = true).
Proof.
  intros cfg p. cbv zeta.
  assert (Hself : Str.starts_with p p = true).
  { rewrite <- (StrFacts.sapp_nil_r p) at 2. apply starts_with_sapp. }
  assert (Hstable : forall q, Str.contains (ratio_tag cfg) q = true ->
                              process_prompt cfg q = q).
  { intros q Hq. unfold process_prompt. rewrite Hq. reflexivity. }
  destruct (Str.contains (ratio_tag cfg) p) eqn:Hp.
  - rewrite (Hstable p Hp). rewrite (Hstable p Hp).
    split; [exact Hp|]. split; [exact Hself|]. split; [reflexivity|discriminate].
  - assert (Htag : forall p1, Str.contains (ratio_tag cfg)
                                (p1 ++ " " ++ ratio_tag cfg)%string = true).
    { intros p1. apply contains_after. apply contains_after.
      rewrite <- (StrFacts.sapp_nil_r (ratio_tag cfg)) at 2. apply contains_self. }
    assert (Hq : process_prompt cfg p
                 = ((if negb (String.eqb (style_content cfg) "")
                        && negb (Str.contains (style_content cfg) p)
                     then p ++ " " ++ style_content cfg else p)
                      ++ " " ++ ratio_tag cfg)%string).
    { unfold process_prompt. rewrite Hp. reflexivity. }
    rewrite Hq.
    split; [apply Htag|]. split; [|split; [apply Hstable; apply Htag|]].
    + destruct (negb (String.eqb (style_content cfg) "")
                && negb (Str.contains (style_content cfg) p)).
      * rewrite StrFacts.sapp_assoc. apply starts_with_sapp.
      * apply starts_with_sapp.
    + intros _.
      destruct (String.eqb_spec (style_content cfg) "") as [->|Hs]; cbn [negb andb].
      * apply contains_empty.
      * destruct (Str.contains (style_content cfg) p) eqn:Hc; cbn [negb].
        -- apply contains_more. exact Hc.
        -- apply contains_more. apply contains_after. apply contains_after.
           rewrite <- (StrFacts.sapp_nil_r (style_content cfg)) at 2.
           apply contains_self.
Qed.

End AttachFacts.

(* ------------------------------------------------------------------ *)
Module ParsingFacts.
Import Json Exn PyVal ApiClient StrFacts ApiFacts Parsing.
Open Scope string_scope.

(** * The markdown links *)

Lemma lazy_group_sound : forall s g,
  lazy_group s = Some g ->
  all_chars link_char g = true /\ exists post, s = g ++ ")" ++ post.
Proof.
  induction s as [|c s IH]; cbn [lazy_group]; intros g H; [discriminate|].
  destruct (Ascii.eqb c ")") eqn:Hp.
  - injection H as <-. apply Ascii.eqb_eq in Hp. subst c.
    split; [reflexivity|]. exists s. reflexivity.
  - destruct (Ascii.eqb c newline) eqn:Hn; [discriminate|].
    destruct (lazy_group s) as [g'|]; [|discriminate].
    injection H as <-. destruct (IH _ eq_refl) as [Hall [post ->]].
    split.
    + cbn [all_chars]. unfold link_char at 1. rewrite Hp, Hn. exact Hall.
    + exists post. reflexivity.
Qed.

Lemma search_link_sound lit : forall s g,
  search_link lit s = Some g ->
  all_chars link_char g = true
  /\ exists pre post, s = pre ++ lit ++ g ++ ")" ++ post.
Proof.
  induction s as [|c s IH]; intros g H.
  - cbn [search_link] in H.
    destruct (strip_prefix lit "") as [rest|] eqn:Hs; [|discriminate].
    destruct (lazy_group rest) as [g'|] eqn:Hg; [|discriminate].
    injection H as <-. apply strip_prefix_sound in Hs.
    destruct (lazy_group_sound _ _ Hg) as [Hall [post ->]].
    split; [exact Hall|]. exists "", post. exact Hs.
  - cbn [search_link] in H.
    destruct (match strip_prefix lit (String c s) with
              | Some rest => lazy_group rest
              | None => None
              end) as [g'|] eqn:Hhere.
    + injection H as <-.
      destruct (strip_prefix lit (String c s)) as [rest|] eqn:Hs; [|discriminate].
      apply strip_prefix_sound in Hs.
      destruct (lazy_group_sound _ _ Hhere) as [Hall [post ->]].
      split; [exact Hall|]. exists "", post. exact Hs.
    + destruct (IH _ H) as [Hall (pre & post & ->)].
      split; [exact Hall|]. exists (String c pre), post. reflexivity.
Qed.

(** X6: with a model other than nano-banana, a string content that
    holds a markdown link is answered with the text between the
    link's opening parenthesis and the first closing parenthesis after
    it on the same line, before any base64 data is looked for. *)
Theorem markdown_link_is_cut_at_first_parenthesis :
  forall model_type data s g,
    get_content data = Ok (JStr s) ->
    markdown_link model_type s = Some g ->
    parse_response model_type data = Ok (JStr g)
    /\ model_type <> "nano-banana"
    /\ all_chars link_char g = true
    /\ exists lit pre post,
         (lit = click_download \/ lit = image_markdown)
         /\ s = pre ++ lit ++ g ++ ")" ++ post.
Proof.
  intros model_type data s g Hc Hm.
  split; [unfold parse_response; rewrite Hc; cbn [bind]; rewrite Hm; reflexivity|].
  unfold markdown_link in Hm.
  destruct (String.eqb model_type "nano-banana") eqn:Hn; [discriminate|].
  apply String.eqb_neq in Hn. split; [exact Hn|]. cbn [negb] in Hm.
  unfold or_else in Hm.
  destruct (search_link click_download s) as [g1|] eqn:H1.
  - injection Hm as <-. destruct (search_link_sound _ _ _ H1) as [Hall (pre & post & Hs)].
    split; [exact Hall|]. exists click_download, pre, post. auto.
  - destruct (search_link_sound _ _ _ Hm) as [Hall (pre & post & Hs)].
    split; [exact Hall|]. exists image_markdown, pre, post. auto.
Qed.

Lemma markdown_link_is_cut_at_first_parenthesis_witness :
  parse_response "sora_image"
    (with_content (JStr "ok ![图片](http://h/a(1).png) data:image/png;base64,AAAA"))
  = Ok (JStr "http://h/a(1").
Proof.
  apply (markdown_link_is_cut_at_first_parenthesis "sora_image" _
           "ok ![图片](http://h/a(1).png) data:image/png;base64,AAAA");
    reflexivity.
Defined.

(** X7: with the model nano-banana a string content is never read as
    a markdown link: whatever is returned is a base64 data URI that
    the content holds. *)
Theorem nano_banana_reads_only_data_uris :
  forall data s v,
    get_content data = Ok (JStr s) ->
    parse_response "nano-banana" data = Ok v ->
    exists m, v = JStr m /\ is_data_uri m
              /\ exists pre post, s = pre ++ m ++ post.
Proof.
  intros data s v Hc Hp. unfold parse_response in Hp. rewrite Hc in Hp.
  cbn [bind] in Hp. unfold markdown_link in Hp.
  rewrite String.eqb_refl in Hp. cbn [negb] in Hp.
  destruct (search_data_uri s) as [m|] eqn:Hs; [|discriminate].
  injection Hp as <-. exists m. split; [reflexivity|].
  apply search_data_uri_sound. exact Hs.
Qed.

Lemma nano_banana_reads_only_data_uris_witness :
  exists m,
    JStr "data:image/png;base64,AAAA" = JStr m /\ is_data_uri m.
Proof.
  destruct (nano_banana_reads_only_data_uris
              (with_content (JStr "[点击下载](http://h/a.png) data:image/png;base64,AAAA"))
              "[点击下载](http://h/a.png) data:image/png;base64,AAAA"
              (JStr "data:image/png;base64,AAAA") eq_refl eq_refl)
    as (m & Hv & Hd & _).
  exists m. split; assumption.
Defined.

(** * The parts of a list content *)

Lemma json_is_str_eq t s : json_is_str t s = true <-> t = JStr s.
Proof.
  destruct t; simpl; split; try discriminate.
  - intros H. apply String.eqb_eq in H. congruence.
  - intros H. injection H as ->. apply String.eqb_refl.
Qed.

Lemma scan_parts_spec : forall parts,
  match scan_parts parts with
  | Ok (Some url) =>
    exists pre part post,
      parts = (pre ++ part :: post)%list /\ usable part url
      /\ forall q u, In q pre -> ~ usable q u
  | Ok None => forall q u, In q parts -> ~ usable q u
  | Raise e => e = AttributeError
  end.
Proof.
  induction parts as [|part rest IH]; [intros q u []|].
  assert (Hskip : (forall u, ~ usable part u) ->
    match scan_parts rest with
    | Ok (Some url) =>
      exists pre part0 post,
        (part :: rest = pre ++ part0 :: post)%list /\ usable part0 url
        /\ forall q u, In q pre -> ~ usable q u
    | Ok None => forall q u, In q (part :: rest) -> ~ usable q u
    | Raise e => e = AttributeError
    end).
  { intros Hno. destruct (scan_parts rest) as [[url|]|e]; [| |exact IH].
    - destruct IH as (pre & p0 & post & -> & Hu & Hpre).
      exists (part :: pre), p0, post. split; [reflexivity|]. split; [exact Hu|].
      intros q u [<-|Hin]; [apply Hno|apply Hpre; exact Hin].
    - intros q u [<-|Hin]; [apply Hno|apply IH; exact Hin]. }
  cbn [scan_parts].
  destruct part as [| | | | | |kv];
    try (apply Hskip; intros u (kv' & h & Heq & _); discriminate).
  destruct (lookup "type" kv) as [t|] eqn:Ht.
  2:{ apply Hskip. intros u (kv' & h & Heq & Ht' & _). congruence. }
  destruct (json_is_str t "image_url") eqn:Hty.
  2:{ apply Hskip. intros u (kv' & h & Heq & Ht' & _).
      injection Heq as <-. rewrite Ht in Ht'. injection Ht' as ->.
      simpl in Hty. discriminate. }
  apply json_is_str_eq in Hty. subst t.
  unfold py_get at 1. cbn [bind].
  destruct (lookup "image_url" kv) as [holder|] eqn:Hh.
  - destruct holder as [| | | | | |hkv]; try reflexivity.
    cbn [py_get bind].
    destruct (lookup "url" hkv) as [url|] eqn:Hu.
    + destruct (truthy url) eqn:Htr.
      * exists [], (JObj kv), rest. split; [reflexivity|].
        split; [exists kv, hkv; auto|intros q u []].
      * apply Hskip. intros u (kv' & h & Heq & _ & Hh' & Hu' & Htr').
        injection Heq as <-. rewrite Hh in Hh'. injection Hh' as <-.
        rewrite Hu in Hu'. injection Hu' as <-. congruence.
    + cbn [truthy]. apply Hskip. intros u (kv' & h & Heq & _ & Hh' & Hu' & _).
      injection Heq as <-. rewrite Hh in Hh'. injection Hh' as <-. congruence.
  - cbn [py_get bind lookup truthy]. apply Hskip.
    intros u (kv' & h & Heq & _ & Hh' & _). injection Heq as <-. congruence.
Qed.

(** X8: from a list content the parser returns the locator of the
    first image part that carries a non-empty one; parts of other
    types, other values and image parts without a locator are passed
    over; without such a part the call fails with the list message; the
    only other error is the attribute error of an [image_url] entry
    that is not an object. *)
Theorem list_content_first_image_part :
  forall model_type data parts,
    get_content data = Ok (JArr parts) ->
    match parse_response model_type data with
    | Ok url =>
      exists pre part post,
        parts = (pre ++ part :: post)%list /\ usable part url
        /\ forall q u, In q pre -> ~ usable q u
    | Raise e =>
      (e = no_image_data_list /\ forall q u, In q parts -> ~ usable q u)
      \/ e = AttributeError
    end.
Proof.
  intros model_type data parts Hc. unfold parse_response. rewrite Hc. cbn [bind].
  pose proof (scan_parts_spec parts) as Hs.
  destruct (scan_parts parts) as [[url|]|e]; cbn [bind]; auto.
Qed.

Lemma list_content_first_image_part_witness :
  exists pre part post,
    [JStr "x"; JObj [("type", JStr "text")];
     JObj [("type", JStr "image_url"); ("image_url", JObj [("url", JStr "")])];
     JObj [("type", JStr "image_url"); ("image_url", JObj [("url", JStr "http://h/1.png")])];
     JObj [("type", JStr "image_url"); ("image_url", JObj [("url", JStr "http://h/2.png")])]]
    = (pre ++ part :: post)%list
    /\ usable part (JStr "http://h/1.png").
Proof.
  pose proof (list_content_first_image_part "nano-banana"
    (with_content (JArr
      [JStr "x"; JObj [("type", JStr "text")];
       JObj [("type", JStr "image_url"); ("image_url", JObj [("url", JStr "")])];
       JObj [("type", JStr "image_url"); ("image_url", JObj [("url", JStr "http://h/1.png")])];
       JObj [("type", JStr "image_url"); ("image_url", JObj [("url", JStr "http://h/2.png")])]]))
    _ eq_refl) as H.
  cbv beta in H.
  change (parse_response _ _) with (@Ok json (JStr "http://h/1.png")) in H.
  destruct H as (pre & part & post & Heq & Hu & _).
  exists pre, part, post. split; assumption.
Defined.

(** * Which attempt decides *)

(** X9: with a retry count of zero or more the call sends exactly one
    request, whatever the network answers; and when the first attempt
    succeeds, raises something the loop does not catch, or is the only
    one allowed, the call returns or raises what that attempt produced,
    with nothing slept. *)
Theorem one_request_decides_the_call :
  forall model_type retry_count network api_key,
    api_key <> "" ->
    (0 <= retry_count)%Z ->
    (decisive retry_count 0 (attempt_result model_type (network 0%Z)) ->
     generate_image_async model_type retry_count network api_key
     = ([Post 0], settle (attempt_result model_type (network 0%Z))))
    /\ count_posts (fst (generate_image_async model_type retry_count
                                               network api_key)) = 1.
Proof.
  intros model_type retry_count network api_key Hkey Hrc.
  rewrite (generate_image_async_first model_type retry_count network api_key
                                      Hkey Hrc).
  destruct (attempt_result model_type (network 0%Z)) as [v|e]; cbn [settle decisive].
  - split; reflexivity.
  - destruct (caught e); cbn [andb]; [|split; reflexivity].
    destruct (Z.leb_spec 1 retry_count) as [Hle|Hlt]; [|split; reflexivity].
    split; [|reflexivity].
    intros [Hd|Hd]; [discriminate|lia].
Qed.

Lemma one_request_decides_the_call_witness :
  generate_image_async "sora_image" 3
    (always_answers (with_content (JStr "[点击下载](http://h/a.png)"))) "key"
  = ([Post 0], Returned (Some (JStr "http://h/a.png"))).
Proof.
  assert (Hkey : "key" <> "") by discriminate.
  assert (Hrc : (0 <= 3)%Z) by lia.
  exact (proj1 (one_request_decides_the_call "sora_image" 3
                  (always_answers (with_content (JStr "[点击下载](http://h/a.png)")))
                  "key" Hkey Hrc) I).
Defined.

(** X10: the call gives [None] exactly when the retry count is
    negative, and then without a single request; with a retry count of
    zero or more it returns a locator or raises. *)
Theorem none_only_for_negative_retry_count :
  forall model_type retry_count network api_key,
    api_key <> "" ->
    (snd (generate_image_async model_type retry_count network api_key)
     = Returned None
     <-> (retry_count < 0)%Z)
    /\ ((retry_count < 0)%Z ->
        fst (generate_image_async model_type retry_count network api_key) = []).
Proof.
  intros model_type retry_count network api_key Hkey.
  assert (Hneg : (retry_count < 0)%Z ->
    generate_image_async model_type retry_count network api_key
    = ([], Returned None)).
  { intros Hn. unfold generate_image_async.
    apply String.eqb_neq in Hkey. rewrite Hkey. cbn [retry_loop].
    destruct (Z.leb_spec 0 retry_count) as [Hle|_]; [lia|reflexivity]. }
  split; [split|].
  - intros Hnone. destruct (Z.ltb_spec retry_count 0) as [|Hge]; [assumption|].
    exfalso. revert Hnone.
    rewrite (generate_image_async_first model_type retry_count network api_key
                                        Hkey Hge).
    destruct (attempt_result model_type (network 0%Z)) as [v|e]; [discriminate|].
    destruct (caught e && (1 <=? retry_count)%Z); discriminate.
  - intros Hn. rewrite (Hneg Hn). reflexivity.
  - intros Hn. rewrite (Hneg Hn). reflexivity.
Qed.

Lemma none_only_for_negative_retry_count_witness :
  generate_image_async "sora_image" (-1) (always_answers JNull) "key"
  = ([], Returned None).
Proof.
  assert (Hkey : "key" <> "") by discriminate.
  destruct (none_only_for_negative_retry_count
              "sora_image" (-1) (always_answers JNull) "key" Hkey) as [[_ Hout] Hevs].
  apply injective_projections; [apply Hevs; lia|apply Hout; lia].
Defined.

(** * A part in the flat form *)

Lemma scan_parts_skips : forall pre rest,
  Forall (fun p => is_image_part p = false) pre ->
  scan_parts (pre ++ rest) = scan_parts rest.
Proof.
  induction pre as [|p pre IH]; intros rest Hf; [reflexivity|].
  apply Forall_cons_iff in Hf as [Hp Hf].
  cbn [app scan_parts]. unfold is_image_part in Hp.
  destruct p as [| | | | | |kv]; try (apply IH; exact Hf).
  destruct (lookup "type" kv) as [t|]; [|apply IH; exact Hf].
  rewrite Hp. apply IH. exact Hf.
Qed.

(** X11: a list content whose first image part holds under [image_url]
    anything but an object (the locator itself, say) makes the call
    raise an attribute error, which the retry loop does not catch: the
    call ends after one request, whatever the retry count. *)
Theorem flat_image_part_is_not_retried :
  forall model_type retry_count network api_key r data pre kv h post,
    api_key <> "" -> (0 <= retry_count)%Z ->
    network 0%Z = PostResponse r ->
    status r = 200%Z -> body r = Ok data ->
    get_content data = Ok (JArr (pre ++ JObj kv :: post)) ->
    Forall (fun p => is_image_part p = false) pre ->
    lookup "type" kv = Some (JStr "image_url") ->
    lookup "image_url" kv = Some h ->
    (forall o, h <> JObj o) ->
    generate_image_async model_type retry_count network api_key
    = ([Post 0], Raised AttributeError).
Proof.
  intros model_type retry_count network api_key r data pre kv h post
         Hkey Hrc Hnet Hst Hbody Hc Hpre Hty Hh Hno.
  assert (Hres : attempt_result model_type (network 0%Z) = Raise AttributeError).
  { rewrite Hnet. unfold attempt_result. rewrite Hst, Hbody. cbn [negb Z.eqb bind].
    change (negb (200 =? 200)%Z) with false. cbn iota.
    unfold parse_response. rewrite Hc. cbn [bind].
    rewrite (scan_parts_skips pre _ Hpre). cbn [scan_parts].
    rewrite Hty. cbn [json_is_str]. rewrite String.eqb_refl.
    unfold py_get at 1. rewrite Hh. cbn [bind].
    destruct h; try reflexivity. exfalso. eapply Hno. reflexivity. }
  rewrite (generate_image_async_first model_type retry_count network api_key
                                      Hkey Hrc).
  rewrite Hres. reflexivity.
Qed.

Lemma flat_image_part_is_not_retried_witness :
  generate_image_async "nano-banana" 5
    (always_answers (with_content (JArr [JStr "x"; flat_image_part]))) "key"
  = ([Post 0], Raised AttributeError).
Proof.
  apply (flat_image_part_is_not_retried "nano-banana" 5 _ "key"
           {| status := 200; text := ""; body := Ok (with_content (JArr [JStr "x"; flat_image_part])) |}
           (with_content (JArr [JStr "x"; flat_image_part]))
           [JStr "x"] [("type", JStr "image_url"); ("image_url", JStr "http://h/a.png")]
           (JStr "http://h/a.png") []);
    try reflexivity; try discriminate; try lia.
  repeat constructor.
Defined.

End ParsingFacts.

(* ------------------------------------------------------------------ *)
Module RequestFacts.
Import Json Exn Str Download ApiClient StrFacts ApiFacts Request.
Open Scope string_scope.

Example b64encode_vectors :
  b64encode "Man" = "TWFu" /\ b64encode "Ma" = "TWE=" /\ b64encode "M" = "TQ=="
  /\ b64encode "foobar" = "Zm9vYmFy" /\ b64encode "" = "".
Proof. repeat split. Qed.

Example suffix_examples :
  suffix "images/pets/cat.png" = ".png" /\ suffix "a.tar.gz" = ".gz"
  /\ suffix "dir.d/name" = "" /\ suffix ".hidden" = "" /\ suffix "name." = ""
  /\ mime_type "images/pets/Cat.JPG" = "image/jpeg"
  /\ mime_type "x.bmp" = "image/png".
Proof. repeat split. Qed.

Lemma b64_digit_ok n : is_b64_char (b64_digit n) = true.
Proof.
  unfold b64_digit.
  destruct (N.ltb_spec n 26).
  { unfold is_b64_char. rewrite N_ascii_embedding by lia.
    replace ((65 <=? 65 + n) && (65 + n <=? 90))%N with true; [reflexivity|].
    symmetry. apply andb_true_iff. split; apply N.leb_le; lia. }
  destruct (N.ltb_spec n 52).
  { unfold is_b64_char. rewrite N_ascii_embedding by lia.
    replace ((97 <=? 97 + (n - 26)) && (97 + (n - 26) <=? 122))%N with true;
      [rewrite orb_true_r; reflexivity|].
    symmetry. apply andb_true_iff. split; apply N.leb_le; lia. }
  destruct (N.ltb_spec n 62).
  { unfold is_b64_char. rewrite N_ascii_embedding by lia.
    replace ((48 <=? 48 + (n - 52)) && (48 + (n - 52) <=? 57))%N with true;
      [rewrite !orb_true_r; reflexivity|].
    symmetry. apply andb_true_iff. split; apply N.leb_le; lia. }
  destruct (n =? 62)%N; reflexivity.
Qed.

Lemma b64encode_chars_aux : forall k data,
  String.length data <= k -> all_chars is_b64_char (b64encode data) = true.
Proof.
  induction k as [|k IH]; intros data Hlen.
  - destruct data; [reflexivity|simpl in Hlen; lia].
  - destruct data as [|a [|b [|c rest]]]; cbn [b64encode all_chars];
      rewrite ?b64_digit_ok; try reflexivity.
    cbn [andb]. apply IH. simpl in Hlen. lia.
Qed.

Lemma b64encode_chars data : all_chars is_b64_char (b64encode data) = true.
Proof. apply (b64encode_chars_aux (String.length data)). lia. Qed.

Lemma b64encode_not_empty data : data <> "" -> b64encode data <> "".
Proof.
  destruct data as [|a [|b [|c rest]]]; [congruence| | |]; intros _; discriminate.
Qed.

Lemma data_uri_here_exact mime payload :
  mime <> "" -> all_chars not_semicolon mime = true ->
  payload <> "" -> all_chars is_b64_char payload = true ->
  data_uri_here ("data:image/" ++ mime ++ ";base64," ++ payload)
  = Some ("data:image/" ++ mime ++ ";base64," ++ payload).
Proof.
  intros Hm0 Hm Hp0 Hp. unfold data_uri_here.
  rewrite strip_prefix_app.
  rewrite (span_app _ _ _ Hm). rewrite span_stops by reflexivity.
  cbn [fst snd]. rewrite sapp_nil_r.
  destruct mime as [|c mime]; [congruence|].
  rewrite strip_prefix_app.
  rewrite <- (sapp_nil_r payload) at 1.
  rewrite (span_app _ _ _ Hp). cbn [span fst snd]. rewrite sapp_nil_r.
  destruct payload as [|d payload]; [congruence|]. reflexivity.
Qed.

Lemma mime_type_cases p :
  exists sub, mime_type p = "image/" ++ sub
              /\ sub <> "" /\ all_chars not_semicolon sub = true.
Proof.
  unfold mime_type.
  destruct (_ || _); [exists "jpeg"; repeat split; discriminate|].
  destruct (String.eqb _ ".png"); [exists "png"; repeat split; discriminate|].
  destruct (String.eqb _ ".gif"); [exists "gif"; repeat split; discriminate|].
  destruct (String.eqb _ ".webp"); [exists "webp"; repeat split; discriminate|].
  exists "png"; repeat split; discriminate.
Qed.

(** X12: what [image_to_base64] makes of a file that is not empty is a
    base64 data URI by the parser's own pattern, which matches it from
    the first to the last character, and a locator that the download
    treats as embedded data; the media type is jpeg, png, gif or webp. *)
Theorem image_to_base64_gives_a_data_uri :
  forall read_bytes image_path data u,
    read_bytes image_path = Some data -> data <> "" ->
    image_to_base64 read_bytes image_path = Some u ->
    search_data_uri u = Some u
    /\ is_data_uri u
    /\ starts_with "data:image/" u = true
    /\ has_comma u = true.
Proof.
  intros read_bytes image_path data u Hread Hne Hu.
  unfold image_to_base64 in Hu. rewrite Hread in Hu.
  destruct (mime_type_cases image_path) as (sub & Hmime & Hs0 & Hs).
  rewrite Hmime in Hu. injection Hu as Hu.
  assert (Heq : u = "data:image/" ++ sub ++ ";base64," ++ b64encode data)
    by (rewrite <- Hu; reflexivity).
  clear Hu. subst u.
  pose proof (b64encode_chars data) as Hc.
  pose proof (b64encode_not_empty data Hne) as Hp0.
  pose proof (data_uri_here_exact sub _ Hs0 Hs Hp0 Hc) as Hhere.
  split; [|split; [|split]].
  - cbn [append search_data_uri]. cbn [append] in Hhere. rewrite Hhere. reflexivity.
  - exists sub, (b64encode data). auto.
  - reflexivity.
  - unfold has_comma.
    assert (Hcontains : forall a b, contains "," (a ++ String "," b) = true).
    { induction a as [|c a IH]; intros b; [reflexivity|].
      cbn [append contains]. rewrite IH. apply orb_true_r. }
    replace ("data:image/" ++ sub ++ ";base64," ++ b64encode data)
      with (("data:image/" ++ sub ++ ";base64") ++ String "," (b64encode data)).
    + apply Hcontains.
    + rewrite !sapp_assoc. reflexivity.
Qed.

Lemma image_to_base64_gives_a_data_uri_witness :
  image_to_base64 one_image "/app/images/pets/Cat.JPG"
  = Some "data:image/jpeg;base64,TWFu"
  /\ search_data_uri "data:image/jpeg;base64,TWFu"
     = Some "data:image/jpeg;base64,TWFu".
Proof.
  split; [reflexivity|].
  apply (image_to_base64_gives_a_data_uri one_image "/app/images/pets/Cat.JPG" "Man");
    [reflexivity|discriminate|reflexivity].
Defined.

(** X13: the content of a request starts with the text part that
    holds the prompt; every further part is an image part with a
    non-empty locator, taken from one entry of the image data: the data
    URI of its file when the entry has a path, its URL only when it has
    no path.  An entry with a path whose file is missing or unreadable
    contributes nothing, even if it has a URL. *)
Theorem request_content_shape :
  forall path_present read_bytes prompt image_data app_path,
    exists parts,
      _build_content path_present read_bytes prompt image_data app_path
      = text_part prompt :: parts
      /\ List.length parts <= List.length image_data
      /\ forall part, In part parts ->
           exists img u,
             In img image_data /\ part = image_part u /\ u <> ""
             /\ ((Matcher.path img <> ""
                  /\ path_present (path_join app_path (Matcher.path img)) = true
                  /\ image_to_base64 read_bytes
                       (path_join app_path (Matcher.path img)) = Some u)
                 \/ (Matcher.path img = "" /\ u = Matcher.url img)).
Proof.
  intros path_present read_bytes prompt image_data app_path.
  eexists. split; [reflexivity|]. split.
  - induction image_data as [|img l IH]; [simpl; lia|].
    cbn [flat_map]. rewrite length_app. cbn [List.length].
    assert (H1 : List.length (image_entry path_present read_bytes app_path img) <= 1).
    { unfold image_entry.
      destruct (negb (String.eqb (Matcher.path img) "")).
      - destruct (if path_present _ then _ else None) as [b|]; [|simpl; lia].
        destruct (negb (String.eqb b "")); simpl; lia.
      - destruct (negb (String.eqb (Matcher.url img) "")); simpl; lia. }
    lia.
  - intros part Hin. apply in_flat_map in Hin as (img & Himg & Hpart).
    exists img. unfold image_entry in Hpart.
    destruct (String.eqb_spec (Matcher.path img) "") as [Hp|Hp]; cbn [negb] in Hpart.
    + destruct (String.eqb_spec (Matcher.url img) "") as [Hu|Hu]; cbn [negb] in Hpart;
        [contradiction|].
      destruct Hpart as [<-|[]]. exists (Matcher.url img).
      split; [exact Himg|]. split; [reflexivity|]. split; [exact Hu|].
      right. split; [exact Hp|reflexivity].
    + destruct (path_present (path_join app_path (Matcher.path img))) eqn:Hex;
        [|contradiction].
      destruct (image_to_base64 read_bytes (path_join app_path (Matcher.path img)))
        as [b|] eqn:Hb; [|contradiction].
      destruct (String.eqb_spec b "") as [Hb0|Hb0]; cbn [negb] in Hpart; [contradiction|].
      destruct Hpart as [<-|[]]. exists b.
      split; [exact Himg|]. split; [reflexivity|]. split; [exact Hb0|].
      left. split; [exact Hp|]. split; reflexivity.
Qed.

End RequestFacts.

(* ------------------------------------------------------------------ *)
Module SavingFacts.
Import Exn Str Download DownloadFacts Saving.
Open Scope string_scope.



(** X15: when the write of a download fails after the file was opened,
    the incomplete file stays and the download is reported as failed;
    a later download for the same number is given another name. *)
Theorem failed_write_leaves_the_file :
  forall w files save_path image_url number original_prompt e,
    makedirs w = None ->
    starts_with "data:image/" image_url = false ->
    get w = GetStatus 200 ->
    write w = WriteFails e ->
    let r := download_image_async w files save_path image_url number
                                  original_prompt in
    exists filename,
      get_unique_filename files number save_path = Some filename
      /\ snd r = path_join save_path filename :: files
      /\ fst r = [Get image_url;
                  DeferFailed original_prompt (save_failed e)]
      /\ get_unique_filename (snd r) number save_path <> Some filename.
Proof.
  intros w files sp url num p e Hmk Hdata Hget Hwrite. cbv zeta.
  destruct (get_unique_filename_spec files num sp) as (f & Hf & Hfree & _).
  exists f. split; [exact Hf|].
  unfold download_image_async, download_body, write_file.
  rewrite Hmk, Hf, Hdata, Hget, Hwrite. cbn [Z.eqb Pos.eqb fst snd app].
  change (200 =? 200)%Z with true. cbn iota. cbn [fst snd app].
  repeat split.
  destruct (get_unique_filename_spec (path_join sp f :: files) num sp)
    as (f' & -> & Hfree' & _).
  intros Heq. injection Heq as Heq. subst f'.
  assert (Hin : path_exists (path_join sp f :: files) (path_join sp f) = true)
    by (apply mem_In; left; reflexivity).
  congruence.
Qed.

Lemma failed_write_leaves_the_file_witness :
  get_unique_filename
    (snd (download_image_async disk_full [] "/out" "http://h/a.png" "7" "a"))
    "7" "/out"
  <> Some "7.png".
Proof.
  destruct (failed_write_leaves_the_file disk_full [] "/out" "http://h/a.png" "7" "a"
              (OSError "No space left on device")
              eq_refl eq_refl eq_refl eq_refl)
    as (f & Hf & _ & _ & Hne).
  vm_compute in Hf. injection Hf as <-. exact Hne.
Defined.

End SavingFacts.

(* ------------------------------------------------------------------ *)
Module TrackingFacts.
Import Exn Str Download Scheduler DownloadFacts SchedulerFacts Tracking.
Open Scope string_scope.

(** * The shape of the table *)

Lemma update_first_map {B} (g : row -> B) p f t :
  (forall r, g (f r) = g r) -> map g (update_first p f t) = map g t.
Proof.
  intros Hf. induction t as [|r t IH]; simpl; [reflexivity|].
  destruct (String.eqb (prompt r) p); simpl; [rewrite Hf; reflexivity|].
  rewrite IH. reflexivity.
Qed.

Lemma dispatch_map {B} (g : row -> B) spawn :
  (forall p f t, (forall r, prompt (f r) = prompt r) ->
                 (forall r, number (f r) = number r) ->
                 map g (update_first p f t) = map g t) ->
  forall jobs t, map g (fst (dispatch spawn jobs t)) = map g t.
Proof.
  intros Hg. induction jobs as [|j jobs IH]; intros t; [reflexivity|].
  rewrite dispatch_cons. cbn [fst]. rewrite IH.
  destruct (run_async_worker_table spawn j t) as [->|[e ->]]; [reflexivity|].
  apply Hg; intros r; reflexivity.
Qed.

Lemma apply_effects_map {B} (g : row -> B) :
  (forall p f t, (forall r, prompt (f r) = prompt r) ->
                 (forall r, number (f r) = number r) ->
                 map g (update_first p f t) = map g t) ->
  forall effs t pending, map g (fst (apply_effects effs t pending)) = map g t.
Proof.
  intros Hg. induction effs as [|[u|p f|p m] effs IH]; intros t pending;
    cbn [apply_effects]; [reflexivity|apply IH| |apply IH].
  rewrite IH. apply Hg; intros r; reflexivity.
Qed.

Lemma step_map {B} (g : row -> B) cfg s e s' :
  (forall p f t, (forall r, prompt (f r) = prompt r) ->
                 (forall r, number (f r) = number r) ->
                 map g (update_first p f t) = map g t) ->
  step cfg s e = Some s' -> map g (rows s') = map g (rows s).
Proof.
  intros Hg Hstep. destruct e as [spawn|i|i r|i w|i]; simpl in Hstep.
  - destruct (start_generation cfg spawn (rows s)) as [t started] eqn:Hs.
    injection Hstep as <-. cbn [rows].
    change t with (fst (t, started)). rewrite <- Hs.
    unfold start_generation.
    destruct (String.eqb (api_key cfg) ""); [reflexivity|].
    destruct (String.eqb (save_path cfg) ""); [reflexivity|].
    destruct (rows s) as [|r0 t0]; [reflexivity|]. apply dispatch_map. exact Hg.
  - destruct (nth_error (queued s) i) as [j|]; [|discriminate].
    destruct (permits s) as [|k]; [discriminate|].
    injection Hstep as <-. cbn [rows]. apply Hg; intros r; reflexivity.
  - destruct (nth_error (running s) i) as [j|]; [|discriminate].
    destruct r as [url|e].
    + unfold handle_success in Hstep.
      destruct (negb (String.eqb (save_path cfg) "")); injection Hstep as <-; cbn [rows].
      * apply Hg; intros r; reflexivity.
      * unfold mark_download_complete. rewrite Hg by (intros r; reflexivity).
        apply Hg; intros r; reflexivity.
    + injection Hstep as <-. cbn [rows]. apply Hg; intros r; reflexivity.
  - destruct (nth_error (downloads s) i) as [d|]; [|discriminate].
    destruct (download_image_async w (files s) (save_path cfg) (d_url d)
                (d_number d) (d_original d)) as [effs files'].
    destruct (apply_effects effs (rows s) (timers s)) as [t pending] eqn:Ha.
    injection Hstep as <-. cbn [rows].
    change t with (fst (t, pending)). rewrite <- Ha. apply apply_effects_map. exact Hg.
  - destruct (nth_error (timers s) i) as [[p m]|]; [|discriminate].
    injection Hstep as <-. cbn [rows]. apply Hg; intros r; reflexivity.
Qed.

Lemma run_map {B} (g : row -> B) cfg :
  (forall p f t, (forall r, prompt (f r) = prompt r) ->
                 (forall r, number (f r) = number r) ->
                 map g (update_first p f t) = map g t) ->
  forall evs s s', run cfg s evs = Some s' -> map g (rows s') = map g (rows s).
Proof.
  intros Hg. induction evs as [|e evs IH]; simpl; intros s s' Hrun.
  - injection Hrun as <-. reflexivity.
  - destruct (step cfg s e) as [s1|] eqn:Hs; [|discriminate].
    rewrite (IH _ _ Hrun). eapply step_map; eassumption.
Qed.

(** X16: no start, worker, download or callback adds, removes or
    reorders rows, and none changes the prompt text or the number of a
    row: in every reachable state the table lists the same prompts and
    numbers in the same order. *)
Theorem table_shape_is_invariant :
  forall cfg s evs s',
    run cfg s evs = Some s' ->
    map prompt (rows s') = map prompt (rows s)
    /\ map number (rows s') = map number (rows s).
Proof.
  intros cfg s evs s' Hrun. split.
  - apply (run_map prompt cfg) with (evs := evs); [|exact Hrun].
    intros p f t Hp _. apply update_first_map. exact Hp.
  - apply (run_map number cfg) with (evs := evs); [|exact Hrun].
    intros p f t _ Hn. apply update_first_map. exact Hn.
Qed.

Lemma table_shape_is_invariant_witness :
  exists s',
    run demo_settings (idle 1 two_waiting []) one_task_trace = Some s'
    /\ map prompt (rows s') = ["a"; "b"]
    /\ map number (rows s') = ["1"; "2"].
Proof.
  assert (H : exists s', run demo_settings (idle 1 two_waiting []) one_task_trace = Some s')
    by (eexists; reflexivity).
  destruct H as [s' H]. exists s'. split; [exact H|].
  exact (table_shape_is_invariant demo_settings _ one_task_trace s' H).
Defined.

(** * Rows in progress and the work in flight *)

Lemma first_active_In seen t :
  first_active seen t -> forall r, In r t -> is_active r = true ->
  ~ In (prompt r) seen.
Proof.
  revert seen. induction t as [|r0 t IH]; simpl; intros seen Hf r Hin Hg.
  - contradiction.
  - destruct Hf as [H0 Ht]. destruct Hin as [->|Hin]; [auto|].
    intros Hs. apply (IH _ Ht r Hin Hg). right. assumption.
Qed.

Lemma first_active_quiet p f t : forall seen,
  keeps_prompt f -> quiets f ->
  first_active seen t -> first_active seen (update_first p f t).
Proof.
  intros seen Hk Hs. revert seen.
  induction t as [|r t IH]; simpl; intros seen Hf; [exact I|].
  destruct Hf as [H0 Ht].
  destruct (String.eqb (prompt r) p); simpl.
  - rewrite Hk. split; [|assumption]. rewrite Hs. discriminate.
  - split; auto.
Qed.

Lemma first_active_start p f t : forall seen,
  keeps_prompt f -> ~ In p seen ->
  first_active seen t -> first_active seen (update_first p f t).
Proof.
  intros seen Hk. revert seen.
  induction t as [|r t IH]; simpl; intros seen Hp Hf; [exact I|].
  destruct Hf as [H0 Ht].
  destruct (String.eqb_spec (prompt r) p) as [He|Hne]; simpl.
  - rewrite Hk. split; [|assumption]. intros _. rewrite He. assumption.
  - split; [assumption|]. apply IH; [|assumption].
    simpl. intros [H|H]; [congruence|contradiction].
Qed.

Lemma quiet_prompt_free p f t : forall seen,
  keeps_prompt f -> quiets f ->
  first_active seen (update_first p f t) ->
  forall r', In r' (update_first p f t) -> is_active r' = true ->
             prompt r' <> p.
Proof.
  intros seen Hk Hs. revert seen.
  induction t as [|r t IH]; simpl; intros seen Hg r' Hin Hgen; [contradiction|].
  destruct (String.eqb_spec (prompt r) p) as [He|Hne]; simpl in *.
  - destruct Hg as [_ Hg]. destruct Hin as [<-|Hin].
    + rewrite Hs in Hgen. discriminate.
    + pose proof (first_active_In _ _ Hg r' Hin Hgen) as Hn. rewrite Hk, He in Hn.
      simpl in Hn. intros Heq. apply Hn. left. symmetry. assumption.
  - destruct Hg as [_ Hg]. destruct Hin as [<-|Hin]; [assumption|].
    eapply IH; eauto.
Qed.

Lemma accounted_quiet p f t P :
  quiets f -> accounted t P -> accounted (update_first p f t) P.
Proof.
  intros Hs Hc r' Hin Hg.
  apply update_first_In in Hin as [Hin|(r & _ & _ & ->)]; [auto|].
  rewrite Hs in Hg. discriminate.
Qed.

Lemma accounted_leave p f t P P' :
  keeps_prompt f -> quiets f -> first_active [] t ->
  accounted t P ->
  (forall q, In q P -> q <> p -> In q P') ->
  accounted (update_first p f t) P'.
Proof.
  intros Hk Hs Hg Hc Hsub r' Hin Hact.
  assert (Hne : prompt r' <> p).
  { eapply quiet_prompt_free; eauto. apply first_active_quiet; eauto. }
  apply Hsub; [|assumption]. eapply accounted_quiet; eauto.
Qed.

Lemma accounted_start p f t P P' :
  keeps_prompt f -> accounted t P ->
  (forall q, In q P -> In q P') -> In p P' ->
  accounted (update_first p f t) P'.
Proof.
  intros Hk Hc Hsub Hp r' Hin Hact.
  apply update_first_In in Hin as [Hin|(r & _ & Hpr & ->)]; [auto|].
  rewrite Hk, Hpr. exact Hp.
Qed.

Lemma dispatch_tracked spawn jobs : forall t P,
  first_active [] t -> accounted t P ->
  first_active [] (fst (dispatch spawn jobs t))
  /\ accounted (fst (dispatch spawn jobs t)) P.
Proof.
  induction jobs as [|j jobs IH]; intros t P Hg Hc; [simpl; auto|].
  rewrite dispatch_cons. cbn [fst].
  destruct (run_async_worker_table spawn j t) as [->|[e ->]]; [auto|].
  apply IH.
  - apply first_active_quiet; auto; intros r; reflexivity.
  - apply accounted_quiet; auto; intros r; reflexivity.
Qed.

Lemma start_generation_tracked cfg spawn t P :
  first_active [] t -> accounted t P ->
  first_active [] (fst (start_generation cfg spawn t))
  /\ accounted (fst (start_generation cfg spawn t)) P.
Proof.
  intros Hg Hc. unfold start_generation.
  destruct (String.eqb (api_key cfg) ""); [auto|].
  destruct (String.eqb (save_path cfg) ""); [auto|].
  destruct t as [|r t]; [auto|]. apply dispatch_tracked; assumption.
Qed.

Lemma apply_effects_complete gets : forall t pending,
  (gets = [] \/ exists u, gets = [Get u]) ->
  forall p f,
    apply_effects (gets ++ [Complete p f]) t pending
    = (mark_download_complete t p (Some f), pending).
Proof.
  intros t pending [->|[u ->]] p f; reflexivity.
Qed.

Lemma in_flight_In s q :
  In q (in_flight s)
  <-> In q (map j_original (running s)) \/ In q (map d_original (downloads s))
      \/ In q (map fst (timers s)).
Proof. unfold in_flight. rewrite !in_app_iff. tauto. Qed.

Lemma step_tracked cfg s e s' :
  tracked s -> step cfg s e = Some s' -> tracked s'.
Proof.
  intros [Hfirst Hacc] Hstep. destruct e as [spawn|i|i r|i w|i]; simpl in Hstep.
  - destruct (start_generation cfg spawn (rows s)) as [t started] eqn:Hs.
    injection Hstep as <-.
    destruct (start_generation_tracked cfg spawn _ _ Hfirst Hacc) as [H1 H2].
    rewrite Hs in H1, H2. constructor; assumption.
  - destruct (nth_error (queued s) i) as [j|]; [|discriminate].
    destruct (permits s) as [|k]; [discriminate|].
    injection Hstep as <-. constructor; cbn [rows].
    + apply first_active_start; auto. intros r; reflexivity.
    + eapply accounted_start; [intros r; reflexivity|exact Hacc| |].
      * intros q Hq. apply in_flight_In in Hq. apply in_flight_In. cbn [running downloads timers].
        rewrite map_app, in_app_iff. tauto.
      * apply in_flight_In. cbn [running]. rewrite map_app, in_app_iff.
        left. right. left. reflexivity.
  - destruct (nth_error (running s) i) as [j|] eqn:Hn; [|discriminate].
    assert (Hleave : forall q, In q (map j_original (running s)) ->
                               q <> j_original j ->
                               In q (map j_original (remove_nth i (running s)))).
    { intros q Hq Hne. eapply remove_nth_keeps; eassumption. }
    destruct r as [url|e].
    + unfold handle_success in Hstep.
      destruct (negb (String.eqb (save_path cfg) "")); injection Hstep as <-;
        constructor; cbn [rows].
      * apply first_active_start; auto. intros r; reflexivity.
      * eapply accounted_start; [intros r; reflexivity|exact Hacc| |].
        -- intros q Hq. apply in_flight_In in Hq. apply in_flight_In.
           cbn [running downloads timers]. rewrite map_app, in_app_iff.
           destruct (string_dec q (j_original j)) as [->|Hne].
           ++ right. left. right. left. reflexivity.
           ++ destruct Hq as [Hq|[Hq|Hq]]; auto.
        -- apply in_flight_In. cbn [downloads]. rewrite map_app, in_app_iff.
           right. left. right. left. reflexivity.
      * apply first_active_quiet; [intros r; reflexivity|intros r; reflexivity|].
        apply first_active_start; auto. intros r; reflexivity.
      * eapply accounted_leave with (P := j_original j :: in_flight s);
          [intros r; reflexivity|intros r; reflexivity| | |].
        -- apply first_active_start; auto. intros r; reflexivity.
        -- eapply accounted_start; [intros r; reflexivity|exact Hacc| |].
           ++ intros q Hq. right. exact Hq.
           ++ left. reflexivity.
        -- intros q [<-|Hq] Hne; [congruence|].
           apply in_flight_In in Hq. apply in_flight_In.
           cbn [running downloads timers]. destruct Hq as [Hq|[Hq|Hq]]; auto.
    + injection Hstep as <-. constructor; cbn [rows].
      * apply first_active_quiet; auto; intros r; reflexivity.
      * eapply accounted_leave; [intros r; reflexivity|intros r; reflexivity| | |];
          [exact Hfirst|exact Hacc|].
        intros q Hq Hne. apply in_flight_In in Hq. apply in_flight_In.
        cbn [running downloads timers]. destruct Hq as [Hq|[Hq|Hq]]; auto.
  - destruct (nth_error (downloads s) i) as [d|] eqn:Hn; [|discriminate].
    pose proof (download_outcome w (files s) (save_path cfg) (d_url d)
                  (d_number d) (d_original d)) as Hout.
    destruct (download_image_async w (files s) (save_path cfg) (d_url d)
                (d_number d) (d_original d)) as [effs files'].
    cbn [fst] in Hout. cbv zeta in Hout.
    destruct Hout as (gets & Hgets & Hcase).
    assert (Hgets' : gets = [] \/ exists u, gets = [Get u])
      by (destruct Hgets as [->| ->]; eauto).
    assert (Hleave : forall q, In q (map d_original (downloads s)) ->
                               q <> d_original d ->
                               In q (map d_original (remove_nth i (downloads s)))).
    { intros q Hq Hne. eapply remove_nth_keeps; eassumption. }
    destruct Hcase as [[_ [f ->]]|[_ [e ->]]].
    + rewrite (apply_effects_complete gets _ _ Hgets') in Hstep.
      injection Hstep as <-. constructor; cbn [rows].
      * apply first_active_quiet; auto; intros r; reflexivity.
      * eapply accounted_leave; [intros r; reflexivity|intros r; reflexivity| | |];
          [exact Hfirst|exact Hacc|].
        intros q Hq Hne. apply in_flight_In in Hq. apply in_flight_In.
        cbn [running downloads timers]. destruct Hq as [Hq|[Hq|Hq]]; auto.
    + rewrite (apply_effects_gets gets _ _ Hgets') in Hstep.
      injection Hstep as <-. constructor; cbn [rows]; [exact Hfirst|].
      intros r Hin Hact. specialize (Hacc r Hin Hact).
      apply in_flight_In in Hacc. apply in_flight_In.
      cbn [running downloads timers]. rewrite map_app, in_app_iff.
      destruct (string_dec (prompt r) (d_original d)) as [->|Hne].
      * right. right. right. left. reflexivity.
      * destruct Hacc as [Hq|[Hq|Hq]]; auto.
  - destruct (nth_error (timers s) i) as [[p m]|] eqn:Hn; [|discriminate].
    injection Hstep as <-. constructor; cbn [rows].
    + apply first_active_quiet; auto; intros r; reflexivity.
    + eapply accounted_leave; [intros r; reflexivity|intros r; reflexivity| | |];
        [exact Hfirst|exact Hacc|].
      intros q Hq Hne. apply in_flight_In in Hq. apply in_flight_In.
      cbn [running downloads timers]. destruct Hq as [Hq|[Hq|Hq]]; auto.
      right. right. eapply (remove_nth_keeps fst); [exact Hn|exact Hq|exact Hne].
Qed.

Lemma run_tracked cfg evs : forall s s',
  tracked s -> run cfg s evs = Some s' -> tracked s'.
Proof.
  induction evs as [|e evs IH]; simpl; intros s s' Hok Hrun.
  - injection Hrun as <-. assumption.
  - destruct (step cfg s e) as [s1|] eqn:Hs; [|discriminate].
    eapply IH; [|eassumption]. eapply step_tracked; eassumption.
Qed.

Lemma quiet_first_active t : forall seen,
  count_active t = 0 -> first_active seen t.
Proof.
  unfold count_active. induction t as [|r t IH]; simpl; intros seen H; [exact I|].
  destruct (is_active r) eqn:Hg; simpl in H; [discriminate|].
  split; [discriminate|auto].
Qed.

Lemma idle_tracked K t disk : count_active t = 0 -> tracked (idle K t disk).
Proof.
  intros H. constructor; cbn [rows idle].
  - apply quiet_first_active. assumption.
  - intros r Hin Hact. exfalso. unfold count_active in H.
    assert (Hf : In r (filter is_active t)) by (apply filter_In; auto).
    destruct (filter is_active t); [contradiction|discriminate].
Qed.

(** X17: a row is in 生成中, 重试 or 下载中 only while a worker, a
    download or a pending failure call works for its prompt: in a batch
    started with no such row, once no worker runs and no download or
    callback is pending, every row is waiting, succeeded or failed. *)
Theorem no_row_is_left_in_progress :
  forall cfg K t disk evs s,
    count_active t = 0 ->
    run cfg (idle K t disk) evs = Some s ->
    (forall r, In r (rows s) -> is_active r = true ->
               In (prompt r) (in_flight s))
    /\ (running s = [] -> downloads s = [] -> timers s = [] ->
        count_active (rows s) = 0).
Proof.
  intros cfg K t disk evs s H0 Hrun.
  destruct (run_tracked cfg evs _ _ (idle_tracked K t disk H0) Hrun) as [_ Hacc].
  split; [exact Hacc|].
  intros Hr Hd Ht. unfold count_active.
  destruct (filter is_active (rows s)) as [|r l] eqn:Hf; [reflexivity|exfalso].
  assert (Hin : In r (filter is_active (rows s))) by (rewrite Hf; left; reflexivity).
  apply filter_In in Hin as [Hin Hact].
  specialize (Hacc r Hin Hact). unfold in_flight in Hacc.
  rewrite Hr, Hd, Ht in Hacc. exact Hacc.
Qed.

Lemma no_row_is_left_in_progress_witness :
  exists s,
    run demo_settings (idle 1 two_waiting []) one_task_trace = Some s
    /\ count_active (rows s) = 0.
Proof.
  assert (H : exists s, run demo_settings (idle 1 two_waiting []) one_task_trace = Some s
                        /\ running s = [] /\ downloads s = [] /\ timers s = [])
    by (eexists; repeat split; reflexivity).
  destruct H as (s & Hrun & Hr & Hd & Ht). exists s. split; [exact Hrun|].
  exact (proj2 (no_row_is_left_in_progress demo_settings 1 two_waiting [] _ s
                  eq_refl Hrun) Hr Hd Ht).
Defined.

End TrackingFacts.

(* ------------------------------------------------------------------ *)
Module RecordingFacts.
Import Exn Str Download Scheduler DownloadFacts SchedulerFacts Tracking.
Open Scope string_scope.

(** * Succeeded rows and their files *)

Lemma recorded_update sp p f t files files' :
  (forall x, path_exists files x = true -> path_exists files' x = true) ->
  (forall r, is_succeeded (f r) = true -> has_file sp files' (f r)) ->
  files_recorded sp t files ->
  files_recorded sp (update_first p f t) files'.
Proof.
  intros Hgrow Hf Hrec r' Hin Hs.
  apply update_first_In in Hin as [Hin|(r & _ & _ & ->)]; [|auto].
  destruct (Hrec r' Hin Hs) as (x & Hx & He). exists x. auto.
Qed.

Lemma recorded_same sp p f t files :
  (forall r, is_succeeded (f r) = false) ->
  files_recorded sp t files ->
  files_recorded sp (update_first p f t) files.
Proof.
  intros Hf. apply recorded_update; [auto|].
  intros r Hs. rewrite Hf in Hs. discriminate.
Qed.

Lemma dispatch_recorded sp files spawn : forall jobs t,
  files_recorded sp t files ->
  files_recorded sp (fst (dispatch spawn jobs t)) files.
Proof.
  induction jobs as [|j jobs IH]; intros t Hrec; [exact Hrec|].
  rewrite dispatch_cons. cbn [fst]. apply IH.
  destruct (run_async_worker_table spawn j t) as [->|[e ->]]; [exact Hrec|].
  apply recorded_same; [intros r; reflexivity|exact Hrec].
Qed.

Lemma unique_filename_not_empty files number sp f :
  get_unique_filename files number sp = Some f -> f <> "".
Proof.
  intros Hf.
  destruct (get_unique_filename_spec files number sp) as (name & Hn & _ & Hbase & Hnum).
  rewrite Hf in Hn. injection Hn as <-.
  destruct (path_exists files (path_join sp (base_filename number))).
  - destruct (Hnum eq_refl) as (k & _ & -> & _). unfold numbered_filename.
    destruct number; discriminate.
  - rewrite (Hbase eq_refl). unfold base_filename. destruct number; discriminate.
Qed.

Lemma download_result w files sp url num p :
  let r := download_image_async w files sp url num p in
  (forall x, path_exists files x = true -> path_exists (snd r) x = true)
  /\ forall q f, In (Complete q f) (fst r) ->
                 f <> "" /\ path_exists (snd r) (path_join sp f) = true.
Proof.
  cbv zeta.
  assert (Hgrow : forall y x, path_exists files x = true ->
                              path_exists (y :: files) x = true).
  { intros y x Hx. apply mem_In. right. apply mem_In. exact Hx. }
  destruct (get_unique_filename files num sp) as [f|] eqn:Hf.
  2:{ unfold download_image_async, download_body. rewrite Hf.
      destruct (makedirs w); cbn [fst snd app]; (split; [auto|]); intros q f' Hin;
        [destruct Hin as [H|[]]; discriminate|contradiction]. }
  pose proof (unique_filename_not_empty _ _ _ _ Hf) as Hne.
  unfold download_image_async, download_body, write_file. rewrite Hf.
  assert (Hhere : path_exists (path_join sp f :: files) (path_join sp f) = true)
    by (apply mem_In; left; reflexivity).
  destruct (makedirs w).
  { cbn [fst snd app]. split; [auto|]. intros q f' [H|[]]. discriminate. }
  destruct (starts_with "data:image/" url).
  - destruct (negb (has_comma url)).
    { cbn [fst snd app]. split; [auto|]. intros q f' [H|[]]. discriminate. }
    destruct (decode w).
    { cbn [fst snd app]. split; [auto|]. intros q f' [H|[]]. discriminate. }
    destruct (write w); cbn [fst snd app].
    + split; [auto|]. intros q f' [H|[]]. injection H as _ <-. auto.
    + split; [auto|]. intros q f' [H|[]]. discriminate.
    + split; [auto|]. intros q f' [H|[]]. discriminate.
  - destruct (get w) as [e|code].
    { cbn [fst snd app]. split; [auto|]. intros q f' [H|[H|[]]]; discriminate. }
    destruct (code =? 200)%Z.
    + destruct (write w); cbn [fst snd app].
      * split; [auto|]. intros q f' [H|[H|[]]]; [discriminate|].
        injection H as _ <-. auto.
      * split; [auto|]. intros q f' [H|[H|[]]]; discriminate.
      * split; [auto|]. intros q f' [H|[H|[]]]; discriminate.
    + cbn [fst snd app]. split; [auto|]. intros q f' [H|[H|[]]]; discriminate.
Qed.

Lemma apply_effects_recorded sp files : forall effs t pending,
  (forall q f, In (Complete q f) effs ->
               f <> "" /\ path_exists files (path_join sp f) = true) ->
  files_recorded sp t files ->
  files_recorded sp (fst (apply_effects effs t pending)) files.
Proof.
  induction effs as [|[u|q f|q m] effs IH]; intros t pending Hc Hrec;
    cbn [apply_effects].
  - exact Hrec.
  - apply IH; [|exact Hrec]. intros q f Hin. apply (Hc q f). right. exact Hin.
  - apply IH; [intros q' f' Hin; apply (Hc q' f'); right; exact Hin|].
    destruct (Hc q f (or_introl eq_refl)) as [Hne Hex].
    unfold mark_download_complete.
    apply (recorded_update sp _ _ _ files files); [auto| |exact Hrec].
    intros r _. exists f. split; [|exact Hex].
    cbn [actual_filename]. destruct f; [congruence|reflexivity].
  - apply IH; [|exact Hrec]. intros q' f Hin. apply (Hc q' f). right. exact Hin.
Qed.

Lemma recorded_grow sp t files files' :
  (forall x, path_exists files x = true -> path_exists files' x = true) ->
  files_recorded sp t files -> files_recorded sp t files'.
Proof.
  intros Hgrow Hrec r Hin Hs. destruct (Hrec r Hin Hs) as (x & Hx & He).
  exists x. auto.
Qed.

Lemma step_recorded cfg s e s' :
  save_path cfg <> "" ->
  files_recorded (save_path cfg) (rows s) (files s) ->
  step cfg s e = Some s' ->
  files_recorded (save_path cfg) (rows s') (files s').
Proof.
  intros Hsp Hrec Hstep. destruct e as [spawn|i|i r|i w|i]; simpl in Hstep.
  - destruct (start_generation cfg spawn (rows s)) as [t started] eqn:Hs.
    injection Hstep as <-. cbn [rows files].
    change t with (fst (t, started)). rewrite <- Hs. unfold start_generation.
    destruct (String.eqb (api_key cfg) ""); [exact Hrec|].
    destruct (String.eqb (save_path cfg) ""); [exact Hrec|].
    destruct (rows s) as [|r0 t0] eqn:Hr; [exact Hrec|].
    apply dispatch_recorded. exact Hrec.
  - destruct (nth_error (queued s) i) as [j|]; [|discriminate].
    destruct (permits s) as [|k]; [discriminate|].
    injection Hstep as <-. cbn [rows files].
    apply recorded_same; [intros r; reflexivity|exact Hrec].
  - destruct (nth_error (running s) i) as [j|]; [|discriminate].
    destruct r as [url|e].
    + unfold handle_success in Hstep.
      apply String.eqb_neq in Hsp. rewrite Hsp in Hstep. cbn [negb] in Hstep.
      injection Hstep as <-. cbn [rows files].
      apply recorded_same; [intros r; reflexivity|exact Hrec].
    + injection Hstep as <-. cbn [rows files].
      apply recorded_same; [intros r; reflexivity|exact Hrec].
  - destruct (nth_error (downloads s) i) as [d|]; [|discriminate].
    pose proof (download_result w (files s) (save_path cfg) (d_url d)
                  (d_number d) (d_original d)) as Hres.
    destruct (download_image_async w (files s) (save_path cfg) (d_url d)
                (d_number d) (d_original d)) as [effs files'].
    cbv zeta in Hres. cbn [fst snd] in Hres. destruct Hres as [Hgrow Hc].
    destruct (apply_effects effs (rows s) (timers s)) as [t pending] eqn:Ha.
    injection Hstep as <-. cbn [rows files].
    change t with (fst (t, pending)). rewrite <- Ha.
    apply apply_effects_recorded; [exact Hc|].
    eapply recorded_grow; eassumption.
  - destruct (nth_error (timers s) i) as [[p m]|]; [|discriminate].
    injection Hstep as <-. cbn [rows files].
    apply recorded_same; [intros r; reflexivity|exact Hrec].
Qed.

Lemma run_recorded cfg evs : forall s s',
  save_path cfg <> "" ->
  files_recorded (save_path cfg) (rows s) (files s) ->
  run cfg s evs = Some s' ->
  files_recorded (save_path cfg) (rows s') (files s').
Proof.
  induction evs as [|e evs IH]; simpl; intros s s' Hsp Hrec Hrun.
  - injection Hrun as <-. assumption.
  - destruct (step cfg s e) as [s1|] eqn:Hs; [|discriminate].
    eapply IH; [assumption| |eassumption]. eapply step_recorded; eassumption.
Qed.

(** X18: a row is set to 成功 only after its image file has been
    written: with a save directory configured, if every succeeded row
    names an existing file at the start, so does every succeeded row of
    every reachable state. *)
Theorem succeeded_rows_name_existing_files :
  forall cfg s evs s',
    save_path cfg <> "" ->
    files_recorded (save_path cfg) (rows s) (files s) ->
    run cfg s evs = Some s' ->
    forall r, In r (rows s') -> is_succeeded r = true ->
              exists f, actual_filename r = Some f
                        /\ path_exists (files s') (path_join (save_path cfg) f) = true.
Proof.
  intros cfg s evs s' Hsp Hrec Hrun.
  exact (run_recorded cfg evs s s' Hsp Hrec Hrun).
Qed.

Lemma succeeded_rows_name_existing_files_witness :
  exists s',
    run demo_settings (idle 1 two_waiting []) one_task_trace = Some s'
    /\ map status (rows s') = [Succeeded; Waiting]
    /\ forall r, In r (rows s') -> is_succeeded r = true ->
                 exists f, actual_filename r = Some f
                           /\ path_exists (files s') (path_join "/out" f) = true.
Proof.
  assert (H : exists s', run demo_settings (idle 1 two_waiting []) one_task_trace = Some s'
                         /\ map status (rows s') = [Succeeded; Waiting])
    by (eexists; split; reflexivity).
  destruct H as (s' & Hrun & Hst). exists s'. split; [exact Hrun|]. split; [exact Hst|].
  apply (succeeded_rows_name_existing_files demo_settings
           (idle 1 two_waiting []) one_task_trace s'); [discriminate| |exact Hrun].
  intros r [<-|[<-|[]]] Hs; discriminate.
Defined.

(** * A second start *)

(** X19: [start_generation] does not look at the workers that are
    already queued: started again before they have entered the
    semaphore, it leaves the table as it is and queues a second worker
    for every row that is still waiting. *)
Theorem second_start_queues_waiting_rows_again :
  forall cfg K t disk spawn,
    api_key cfg <> "" -> save_path cfg <> "" ->
    (forall j, spawn j = None) ->
    exists s,
      run cfg (idle K t disk) [Submit spawn; Submit spawn] = Some s
      /\ rows s = t
      /\ queued s = (make_jobs cfg 0 (waiting_prompts t)
                       ++ make_jobs cfg 0 (waiting_prompts t))%list
      /\ map j_original (queued s)
         = (waiting_prompts t ++ waiting_prompts t)%list.
Proof.
  intros cfg K t disk spawn Hkey Hsp Hspawn.
  assert (Hstart : start_generation cfg spawn t
                   = (t, make_jobs cfg 0 (waiting_prompts t))).
  { unfold start_generation.
    apply String.eqb_neq in Hkey, Hsp. rewrite Hkey, Hsp.
    destruct t as [|r t]; [reflexivity|].
    apply dispatch_all_spawn. exact Hspawn. }
  eexists. cbn [run step idle rows queued permits running downloads timers files].
  rewrite Hstart. cbn [rows queued]. rewrite Hstart.
  split; [reflexivity|]. cbn [rows queued app]. split; [reflexivity|].
  split; [reflexivity|]. rewrite map_app, make_jobs_originals. reflexivity.
Qed.

Lemma second_start_queues_waiting_rows_again_witness :
  exists s,
    run demo_settings (idle 1 two_waiting []) [Submit always_spawns; Submit always_spawns]
    = Some s
    /\ map j_original (queued s) = ["a"; "b"; "a"; "b"].
Proof.
  destruct (second_start_queues_waiting_rows_again demo_settings 1 two_waiting []
              always_spawns) as (s & Hrun & _ & _ & Hq);
    [discriminate|discriminate|reflexivity|].
  exists s. split; [exact Hrun|exact Hq].
Defined.

(** * The progress display *)

Lemma status_partition t :
  List.length (filter is_waiting t) + List.length (filter is_generating t)
  + List.length (filter is_succeeded t) + List.length (filter is_failed t)
  + List.length (filter is_downloading t)
  = List.length t.
Proof.
  induction t as [|r t IH]; [reflexivity|].
  cbn [filter]. unfold is_waiting, is_generating, is_succeeded, is_failed, is_downloading.
  destruct (status r); cbn [List.length]; fold is_waiting; fold is_generating;
    fold is_succeeded; fold is_failed; fold is_downloading; lia.
Qed.

(** X20: the four numbers of the progress display leave out exactly the
    rows that are downloading: together with them they add up to the
    number of rows, and the value of the progress bar is the number of
    succeeded and failed rows. *)
Theorem progress_counts_leave_out_downloads :
  forall t,
    let c := update_generation_progress t in
    waiting_count c + generating_count c + success_count c + failed_count c
    + List.length (filter is_downloading t)
    = total_tasks c
    /\ completed_tasks c = success_count c + failed_count c.
Proof.
  intros t. cbv zeta. unfold update_generation_progress.
  cbn [waiting_count generating_count success_count failed_count total_tasks
       completed_tasks].
  split; [apply status_partition|reflexivity].
Qed.

Lemma no_active_tasks t :
  active_tasks t = [] ->
  List.length (filter is_waiting t) = 0
  /\ List.length (filter is_generating t) = 0
  /\ List.length (filter is_downloading t) = 0.
Proof.
  unfold active_tasks. induction t as [|r t IH]; [auto|].
  cbn [filter]. destruct (is_waiting r || is_active r) eqn:Ha; [discriminate|].
  intros H. specialize (IH H).
  assert (Hr : is_waiting r = false /\ is_generating r = false
               /\ is_downloading r = false).
  { unfold is_waiting, is_active, is_generating, is_downloading in *.
    destruct (status r); try discriminate; auto. }
  destruct Hr as (-> & -> & ->). exact IH.
Qed.

(** X21: when [check_generation_completion] declares the batch
    finished, every row is succeeded or failed, so the progress bar is
    full and the label, when set, reads [已处理 n/n]. *)
Theorem completion_means_full_progress :
  forall t generate regenerate_selected regenerate_all,
    check_generation_completion t generate regenerate_selected regenerate_all
    = true ->
    let c := update_generation_progress t in
    completed_tasks c = total_tasks c
    /\ generating_count c = 0
    /\ (forall r, In r t -> is_succeeded r = true \/ is_failed r = true)
    /\ (t <> [] ->
        progress_label t
        = Some ("已处理 " ++ nat_to_string (List.length t) ++ "/"
                ++ nat_to_string (List.length t)
                ++ " 个任务 | 成功" ++ nat_to_string (success_count c)
                ++ "个 | 失败" ++ nat_to_string (failed_count c) ++ "个")).
Proof.
  intros t g rs ra Hc. cbv zeta.
  unfold check_generation_completion in Hc.
  destruct (active_tasks t) eqn:Ha; [|discriminate].
  destruct (no_active_tasks t Ha) as (Hw & Hg & Hd).
  pose proof (status_partition t) as Hp.
  assert (Hfull : completed_tasks (update_generation_progress t)
                  = total_tasks (update_generation_progress t)).
  { unfold update_generation_progress. cbn [completed_tasks total_tasks]. lia. }
  split; [exact Hfull|]. split; [exact Hg|]. split.
  - intros r Hin. unfold active_tasks in Ha.
    assert (Hn : (is_waiting r || is_active r) = false).
    { destruct (is_waiting r || is_active r) eqn:He; [|reflexivity].
      assert (Hf : In r (filter (fun r => is_waiting r || is_active r) t))
        by (apply filter_In; auto).
      rewrite Ha in Hf. contradiction. }
    unfold is_waiting, is_active, is_succeeded, is_failed in *.
    destruct (status r); try discriminate; auto.
  - intros Hne. unfold progress_label. rewrite Hfull.
    unfold update_generation_progress at 1 2.
    cbn [total_tasks generating_count]. rewrite Hg.
    destruct t as [|r t]; [congruence|]. reflexivity.
Qed.

Lemma completion_means_full_progress_witness :
  progress_label [done_row]
  = Some "已处理 1/1 个任务 | 成功1个 | 失败0个".
Proof.
  destruct (completion_means_full_progress [done_row] false true true eq_refl)
    as (_ & _ & _ & Hl).
  rewrite Hl; [reflexivity|discriminate].
Defined.

End RecordingFacts.

(* ------------------------------------------------------------------ *)
Module HistoryReadFacts.
Import Json Exn PyVal Str History StrFacts ApiFacts HistoryFacts HistoryRead.
Open Scope string_scope.

(** * File names *)

Lemma length_sapp a b : String.length (a ++ b) = String.length a + String.length b.
Proof. induction a as [|c a IH]; simpl; [reflexivity|rewrite IH; reflexivity]. Qed.

Lemma substring_skip a : forall b k,
  substring (String.length a) k (a ++ b) = substring 0 k b.
Proof. induction a as [|c a IH]; intros b k; [reflexivity|apply IH]. Qed.

Lemma substring_all b : substring 0 (String.length b) b = b.
Proof. induction b as [|c b IH]; simpl; [reflexivity|rewrite IH; reflexivity]. Qed.

Lemma ends_with_app a b : ends_with b (a ++ b) = true.
Proof.
  unfold ends_with. rewrite length_sapp.
  replace (String.length a + String.length b - String.length b)
    with (String.length a) by lia.
  rewrite substring_skip, substring_all, String.eqb_refl, andb_true_r.
  apply Nat.leb_le. lia.
Qed.

Lemma target_name_json w filename : ends_with ".json" (target_name w filename) = true.
Proof.
  unfold target_name.
  set (f := match filename with
            | None | Some "" => default_name w
            | Some f => f
            end).
  destruct (ends_with ".json" f) eqn:He; cbn [negb]; [exact He|apply ends_with_app].
Qed.

Lemma find_duplicate_In md5 h : forall files name,
  find_duplicate md5 h files = Ok (Some name) -> exists c, In (name, c) files.
Proof.
  induction files as [|[n c] files IH]; intros name H; [discriminate|].
  cbn [find_duplicate] in H.
  assert (Hrest : find_duplicate md5 h files = Ok (Some name) ->
                  exists c0, In (name, c0) ((n, c) :: files)).
  { intros Hr. destruct (IH _ Hr) as [c0 Hc]. exists c0. right. exact Hc. }
  destruct c as [| |v]; [auto|discriminate H|].
  unfold bind in H.
  destruct (py_get v "config" (JObj [])) as [config|]; [|discriminate H].
  destruct (py_get v "prompts" (JArr [])) as [prompts|]; [|discriminate H].
  destruct (py_iter prompts) as [items|]; [|discriminate H].
  destruct (prompt_texts items) as [texts|]; [|discriminate H].
  destruct (String.eqb _ h); [|auto].
  injection H as <-. exists (Doc v). left. reflexivity.
Qed.

(** * What a successful save leaves in the file *)

Lemma lookup_assign_other k k' v kv :
  k <> k' -> lookup k (assign k' v kv) = lookup k kv.
Proof.
  intros Hne. induction kv as [|[k0 v0] kv IH]; simpl.
  - destruct (String.eqb_spec k k'); [contradiction|reflexivity].
  - destruct (String.eqb_spec k' k0) as [->|Hd]; simpl.
    + destruct (String.eqb_spec k k0); [contradiction|reflexivity].
    + destruct (String.eqb k k0); [reflexivity|exact IH].
Qed.

Section Saved.
Variable md5 : string -> string.

Lemma save_body_file w prompt_data config_data app_path filename disk disk' p :
  save_body md5 w prompt_data config_data app_path filename disk = (disk', Ok p) ->
  exists name d' kv ok ko,
    disk' = Some d' /\ p = file_path app_path name
    /\ ends_with ".json" name = true
    /\ read_file name d' = Some (Doc (JObj kv))
    /\ count_status "成功" prompt_data = Ok ok
    /\ count_status "失败" prompt_data = Ok ko
    /\ lookup "prompts" kv = Some (JArr prompt_data)
    /\ lookup "created_time" kv = Some (JStr (created_time w))
    /\ lookup "total_prompts" kv
       = Some (JInt (Z.of_nat (List.length prompt_data)))
    /\ lookup "success_count" kv = Some (JInt ok)
    /\ lookup "failed_count" kv = Some (JInt ko).
Proof.
  unfold save_body.
  destruct (ensure_history_directory w disk) as [d|]; [|intros H; discriminate].
  unfold build_record.
  destruct (count_status "成功" prompt_data) as [ok|]; [|intros H; discriminate].
  destruct (count_status "失败" prompt_data) as [ko|]; [|intros H; discriminate].
  cbn [bind].
  set (rec := JObj _).
  destruct (prompt_texts prompt_data) as [texts|]; [|intros H; discriminate].
  destruct (find_duplicate md5 _ (glob d)) as [dup|] eqn:Hdup; [|intros H; discriminate].
  assert (Hcreate :
    match write_error w (target_name w filename) with
    | Some e => (Some d, Raise e)
    | None => (Some (put_file (target_name w filename) (Doc rec) d),
               Ok (file_path app_path (target_name w filename)))
    end = (disk', Ok p) ->
    exists name d' kv ok0 ko0,
      disk' = Some d' /\ p = file_path app_path name
      /\ ends_with ".json" name = true
      /\ read_file name d' = Some (Doc (JObj kv))
      /\ Ok ok = Ok ok0 /\ Ok ko = Ok ko0
      /\ lookup "prompts" kv = Some (JArr prompt_data)
      /\ lookup "created_time" kv = Some (JStr (created_time w))
      /\ lookup "total_prompts" kv
         = Some (JInt (Z.of_nat (List.length prompt_data)))
      /\ lookup "success_count" kv = Some (JInt ok0)
      /\ lookup "failed_count" kv = Some (JInt ko0)).
  { destruct (write_error w (target_name w filename)); [intros H; discriminate|].
    intros H. injection H as <- <-.
    eexists _, _, _, ok, ko. split; [reflexivity|]. split; [reflexivity|].
    split; [apply target_name_json|]. split; [apply read_put_file|].
    repeat split. }
  destruct dup as [dup|]; [|exact Hcreate].
  unfold update_in_place.
  destruct (read_file dup d) as [[| |[| | | | | |kv]]|] eqn:Hread; try exact Hcreate.
  destruct (write_error w dup); [exact Hcreate|].
  intros H. injection H as <- <-.
  destruct (find_duplicate_In _ _ _ _ Hdup) as [c Hin].
  apply filter_In in Hin as [_ Hname]. cbn [fst] in Hname.
  unfold is_history_name in Hname.
  apply andb_true_iff in Hname as [Hname _]. apply andb_true_iff in Hname as [_ Hjson].
  eexists dup, _, _, ok, ko. split; [reflexivity|]. split; [reflexivity|].
  split; [exact Hjson|]. split; [apply read_put_file|].
  split; [reflexivity|]. split; [reflexivity|].
  split; [apply lookup_assign|].
  repeat split; repeat (rewrite lookup_assign_other by discriminate);
    rewrite lookup_assign; reflexivity.
Qed.

End Saved.

Lemma read_file_In name : forall d c, read_file name d = Some c -> In (name, c) d.
Proof.
  induction d as [|[n c'] d IH]; intros c H; [discriminate|].
  cbn [read_file] in H. destruct (String.eqb_spec n name) as [->|Hne].
  - injection H as <-. left. reflexivity.
  - right. apply IH. exact H.
Qed.

(** X22: what [save_history_record] has saved, [load_history_record]
    reads back from the returned path: the task list as given, its
    length as the total and the time of the save. *)
Theorem saved_record_loads_back :
  forall md5 w elsewhere prompt_data config_data app_path filename disk disk' p,
    save_history_record md5 w prompt_data config_data app_path filename disk
    = (disk', Ok (Some p)) ->
    exists v,
      load_history_record elsewhere app_path p disk' = Some v
      /\ field v "prompts" = JArr prompt_data
      /\ field v "total_prompts"
         = JInt (Z.of_nat (List.length prompt_data))
      /\ field v "created_time" = JStr (created_time w).
Proof.
  intros md5 w elsewhere prompt_data config_data app_path filename disk disk' p Hsave.
  unfold save_history_record in Hsave.
  destruct (save_body md5 w prompt_data config_data app_path filename disk)
    as [disk1 [p1|e]] eqn:Hb; [|discriminate].
  injection Hsave as <- <-.
  destruct (save_body_file _ _ _ _ _ _ _ _ _ Hb)
    as (name & d' & kv & ok & ko & -> & -> & _ & Hread & _ & _ & Hp & Hc & Ht & _).
  exists (JObj kv). unfold load_history_record, file_path.
  rewrite <- sapp_assoc, strip_prefix_app, Hread.
  unfold field. rewrite Hp, Hc, Ht. repeat split.
Qed.

Lemma saved_record_loads_back_witness :
  exists v,
    load_history_record nothing_elsewhere "/app"
      "/app/history/auto_save_1.json"
      (fst (save_history_record (fun s => s) morning batch_done demo_config "/app"
                                (Some "auto_save_1") None))
    = Some v
    /\ field v "prompts" = JArr batch_done.
Proof.
  destruct (saved_record_loads_back (fun s => s) morning nothing_elsewhere batch_done
              demo_config "/app" (Some "auto_save_1") None _ _ eq_refl)
    as (v & Hl & Hp & _).
  exists v. split; [exact Hl|exact Hp].
Defined.

(** * The listing *)

Lemma insert_newest_In x l z : In z (insert_newest x l) <-> z = x \/ In z l.
Proof.
  induction l as [|y r IH]; simpl; [intuition|].
  destruct (String.ltb _ _); simpl; [rewrite IH|]; intuition.
Qed.

Lemma sort_newest_In l z : In z (sort_newest l) <-> In z l.
Proof.
  induction l as [|x l IH]; simpl; [tauto|].
  rewrite insert_newest_In, IH. intuition.
Qed.





Lemma listed_entry stat app_path d e :
  In e (flat_map (fun f => match file_entry stat app_path f with
                           | Some i => [i]
                           | None => []
                           end)
                 (glob_json d))
  <-> exists name data st,
        In (name, Doc (JObj data)) d /\ ends_with ".json" name = true
        /\ stat name = Some st
        /\ file_entry stat app_path (name, Doc (JObj data)) = Some e.
Proof.
  rewrite in_flat_map. split.
  - intros ([name c] & Hin & He). apply filter_In in Hin as [Hin Hj].
    cbn [fst] in Hj.
    destruct (file_entry stat app_path (name, c)) as [i|] eqn:Hf; [|contradiction].
    destruct He as [<-|[]].
    unfold file_entry in Hf. cbn [fst snd] in Hf.
    destruct (stat name) as [st|] eqn:Hst; [|discriminate].
    destruct c as [| |[| | | | | |data]]; try discriminate.
    exists name, data, st. repeat split; try assumption.
    unfold file_entry. cbn [fst snd]. rewrite Hst. exact Hf.
  - intros (name & data & st & Hin & Hj & Hst & Hf).
    exists (name, Doc (JObj data)). split.
    + apply filter_In. split; assumption.
    + rewrite Hf. left. reflexivity.
Qed.


(** X24: a record that [save_history_record] has saved under a file
    name without separator, in a storage path without pattern
    characters, appears in the listing of [get_history_files] with the
    returned path, the number of tasks and the time of the save,
    provided the file can be examined. *)
Theorem saved_record_is_listed :
  forall md5 w w' stat prompt_data config_data app_path filename disk disk' p,
    plain_name (target_name w filename) = true ->
    literal_path (history_path app_path) = true ->
    save_history_record md5 w prompt_data config_data app_path filename disk
    = (disk', Ok (Some p)) ->
    (forall name, stat name <> None) ->
    exists e,
      In e (snd (get_history_files w' stat app_path disk'))
      /\ info_path e = p
      /\ info_total_prompts e = JInt (Z.of_nat (List.length prompt_data))
      /\ info_created_time e = JStr (created_time w).
Proof.
  intros md5 w w' stat prompt_data config_data app_path filename disk disk' p
         _ _ Hsave Hstat.
  unfold save_history_record in Hsave.
  destruct (save_body md5 w prompt_data config_data app_path filename disk)
    as [disk1 [p1|e]] eqn:Hb; [|discriminate].
  injection Hsave as <- <-.
  destruct (save_body_file _ _ _ _ _ _ _ _ _ Hb)
    as (name & d' & kv & ok & ko & -> & -> & Hj & Hread & _ & _ & _ & Hc & Ht & _).
  destruct (stat name) as [st|] eqn:Hst; [|exfalso; exact (Hstat name Hst)].
  eexists. split.
  - unfold get_history_files. cbn [ensure_history_directory snd].
    apply sort_newest_In. apply listed_entry.
    exists name, kv, st. split; [apply read_file_In; exact Hread|].
    split; [exact Hj|]. split; [exact Hst|].
    unfold file_entry. cbn [fst snd]. rewrite Hst. reflexivity.
  - cbn [info_path info_total_prompts info_created_time].
    unfold get_or. rewrite Hc, Ht. repeat split.
Qed.

Lemma saved_record_is_listed_witness :
  exists e,
    In e (snd (get_history_files noon same_stat "/app"
                 (fst (save_history_record (fun s => s) morning batch_done
                         demo_config "/app" (Some "auto_save_1") None))))
    /\ info_path e = "/app/history/auto_save_1.json".
Proof.
  destruct (saved_record_is_listed (fun s => s) morning noon same_stat batch_done
              demo_config "/app" (Some "auto_save_1") None _ _
              eq_refl eq_refl eq_refl)
    as (e & Hin & Hp & _); [discriminate|].
  exists e. split; [exact Hin|exact Hp].
Defined.

End HistoryReadFacts.

Module HistoryUpdateFacts.
Import Json Exn PyVal Str History StrFacts ApiFacts HistoryFacts HistoryRead HistoryReadFacts.
Open Scope string_scope.

Lemma starts_with_app p s : starts_with p (p ++ s) = true.
Proof.
  induction p as [|c p IH]; [reflexivity|].
  cbn [append starts_with]. rewrite Ascii.eqb_refl. exact IH.
Qed.

Lemma default_name_history w : is_history_name (default_name w) = true.
Proof.
  unfold is_history_name, default_name.
  rewrite starts_with_app.
  rewrite <- (sapp_assoc "sora_history_" (timestamp w) ".json").
  rewrite ends_with_app.
  rewrite length_sapp. cbn [andb]. apply Nat.leb_le. simpl. lia.
Qed.

Lemma target_name_default w : target_name w None = default_name w.
Proof.
  unfold target_name.
  pose proof (default_name_history w) as H. unfold is_history_name in H.
  apply andb_true_iff in H as [H _]. apply andb_true_iff in H as [_ H].
  rewrite H. reflexivity.
Qed.

Lemma glob_put_new name c : forall d,
  is_history_name name = true -> glob d = [] ->
  glob (put_file name c d) = [(name, c)].
Proof.
  unfold glob. induction d as [|[n c'] d IH]; intros Hn Hg.
  - cbn [put_file filter fst]. rewrite Hn. reflexivity.
  - cbn [filter fst] in Hg. destruct (is_history_name n) eqn:Hh; [discriminate|].
    cbn [put_file]. destruct (String.eqb_spec n name) as [->|Hne]; [congruence|].
    cbn [filter fst]. rewrite Hh. apply IH; assumption.
Qed.

Lemma put_file_names name c : forall d,
  read_file name d <> None -> map fst (put_file name c d) = map fst d.
Proof.
  induction d as [|[n c'] d IH]; intros H; [contradiction H; reflexivity|].
  cbn [read_file] in H. cbn [put_file].
  destruct (String.eqb n name); [reflexivity|].
  cbn [map fst]. rewrite IH by exact H. reflexivity.
Qed.

(** X25: in a storage path without pattern characters, a record
    saved again under the default name with the same configuration and
    prompt texts is updated in place: the second [save_history_record]
    returns the path of the first, creates no file, and leaves the new
    task list and time in that file. *)
Theorem repeated_default_save_updates_in_place :
  forall md5 w1 w2 prompt_data1 prompt_data2 config_data app_path d0,
    literal_path (history_path app_path) = true ->
    glob d0 = [] ->
    (forall name, write_error w1 name = None) ->
    (forall name, write_error w2 name = None) ->
    forallb is_dict prompt_data1 = true ->
    forallb is_dict prompt_data2 = true ->
    prompt_texts prompt_data1 = prompt_texts prompt_data2 ->
    exists d1 d2 v,
      save_history_record md5 w1 prompt_data1 config_data app_path None (Some d0)
      = (Some d1, Ok (Some (file_path app_path (default_name w1))))
      /\ save_history_record md5 w2 prompt_data2 config_data app_path None (Some d1)
         = (Some d2, Ok (Some (file_path app_path (default_name w1))))
      /\ map fst d2 = map fst d1
      /\ read_file (default_name w1) d2 = Some (Doc v)
      /\ field v "prompts" = JArr prompt_data2
      /\ field v "created_time" = JStr (created_time w2).
Proof.
  intros md5 w1 w2 pd1 pd2 cfg app d0 _ Hg Hw1 Hw2 Hd1 Hd2 Htexts.
  destruct (count_status_ok "成功" pd1 Hd1) as [ok1 Hok1].
  destruct (count_status_ok "失败" pd1 Hd1) as [ko1 Hko1].
  destruct (count_status_ok "成功" pd2 Hd2) as [ok2 Hok2].
  destruct (count_status_ok "失败" pd2 Hd2) as [ko2 Hko2].
  destruct (prompt_texts_ok pd1 Hd1) as [texts Ht1].
  assert (Ht2 : prompt_texts pd2 = Ok texts) by congruence.
  set (rec1 := JObj [ ("version", JStr "3.4");
                      ("created_time", JStr (created_time w1));
                      ("total_prompts", JInt (Z.of_nat (List.length pd1)));
                      ("success_count", JInt ok1);
                      ("failed_count", JInt ko1);
                      ("config", config_snapshot cfg);
                      ("prompts", JArr pd1) ]).
  set (d1 := put_file (default_name w1) (Doc rec1) d0).
  assert (Hfirst :
    save_history_record md5 w1 pd1 cfg app None (Some d0)
    = (Some d1, Ok (Some (file_path app (default_name w1))))).
  { unfold save_history_record, save_body, build_record.
    cbn [ensure_history_directory]. rewrite Hok1, Hko1. cbn [bind].
    rewrite Ht1, Hg. cbn [find_duplicate].
    rewrite target_name_default, Hw1. reflexivity. }
  assert (Hglob : glob d1 = [(default_name w1, Doc rec1)])
    by (apply glob_put_new; [apply default_name_history|exact Hg]).
  set (kv5 :=
    assign "prompts" (JArr pd2)
      (assign "failed_count" (JInt ko2)
         (assign "success_count" (JInt ok2)
            (assign "total_prompts" (JInt (Z.of_nat (List.length pd2)))
               (assign "created_time" (JStr (created_time w2))
                  [ ("version", JStr "3.4");
                    ("created_time", JStr (created_time w1));
                    ("total_prompts", JInt (Z.of_nat (List.length pd1)));
                    ("success_count", JInt ok1);
                    ("failed_count", JInt ko1);
                    ("config", config_snapshot cfg);
                    ("prompts", JArr pd1) ]))))).
  exists d1, (put_file (default_name w1) (Doc (JObj kv5)) d1), (JObj kv5).
  split; [exact Hfirst|].
  assert (Hread : read_file (default_name w1) d1 = Some (Doc rec1))
    by apply read_put_file.
  split; [|split; [|split; [|split]]].
  - unfold save_history_record, save_body, build_record.
    cbn [ensure_history_directory]. rewrite Hok2, Hko2. cbn [bind].
    rewrite Ht2, Hglob. cbn [find_duplicate].
    unfold rec1. cbn [py_get bind].
    change (lookup "config" _) with (Some (config_snapshot cfg)).
    change (lookup "prompts" _) with (Some (JArr pd1)).
    cbn [bind py_iter]. rewrite Ht1. cbn [bind].
    change (field _ "config") with (config_snapshot cfg).
    rewrite String.eqb_refl.
    unfold update_in_place. rewrite Hread. unfold rec1. rewrite Hw2.
    reflexivity.
  - apply put_file_names. rewrite Hread. discriminate.
  - apply read_put_file.
  - reflexivity.
  - reflexivity.
Qed.

Lemma repeated_default_save_updates_in_place_witness :
  exists d1 d2,
    save_history_record (fun s => s) morning batch_failed demo_config "/app" None (Some [])
    = (Some d1, Ok (Some "/app/history/sora_history_20240101_100000.json"))
    /\ save_history_record (fun s => s) noon batch_done demo_config "/app" None (Some d1)
       = (Some d2, Ok (Some "/app/history/sora_history_20240101_100000.json"))
    /\ map fst d2 = ["sora_history_20240101_100000.json"].
Proof.
  destruct (repeated_default_save_updates_in_place (fun s => s) morning noon
              batch_failed batch_done demo_config "/app" [])
    as (d1 & d2 & v & H1 & H2 & Hn & _); try reflexivity.
  exists d1, d2. split; [exact H1|]. split; [exact H2|].
  rewrite Hn. clear - H1.
  vm_compute in H1. injection H1 as <-. reflexivity.
Defined.

End HistoryUpdateFacts.

(* ------------------------------------------------------------------ *)
Module GalleryFacts.
Import Exn Str StrFacts DownloadFacts Gallery.
Open Scope string_scope.

Lemma found_in_plain images name :
  found_in images None name = true <-> In name (map img_name images).
Proof.
  unfold found_in. rewrite existsb_exists, in_map_iff. split.
  - intros (img & Hin & He). apply String.eqb_eq in He. eauto.
  - intros (img & He & Hin). exists img. split; [exact Hin|].
    apply String.eqb_eq. exact He.
Qed.

Lemma found_in_any images skip name :
  found_in images skip name = true -> In name (map img_name images).
Proof.
  unfold found_in. rewrite existsb_exists, in_map_iff.
  intros (img & Hin & He). exists img. split; [|exact Hin].
  destruct skip; [apply andb_true_iff in He as [_ He]|]; apply String.eqb_eq; exact He.
Qed.

Lemma check_taken links name ec en :
  fst (check_image_name_unique links name ec en) = false ->
  In name (all_names links).
Proof.
  unfold all_names, all_images.
  induction links as [|[category images] rest IH]; cbn [check_image_name_unique];
    [discriminate|].
  cbn [flat_map snd]. rewrite map_app, in_app_iff.
  destruct (found_in images _ name) eqn:Hf.
  - intros _. left. eapply found_in_any. exact Hf.
  - intros H. right. apply IH. exact H.
Qed.

Lemma check_plain links name :
  fst (check_image_name_unique links name None None) = true
  <-> ~ In name (all_names links).
Proof.
  unfold all_names, all_images.
  induction links as [|[category images] rest IH]; cbn [check_image_name_unique].
  - simpl. tauto.
  - cbn [flat_map snd given andb]. rewrite map_app, in_app_iff.
    destruct (found_in images None name) eqn:Hf.
    + apply found_in_plain in Hf. cbn [fst]. split; [discriminate|tauto].
    + rewrite IH. split; [|tauto]. intros Hr [Hl|Hl]; [|tauto].
      apply found_in_plain in Hl. congruence.
Qed.

Lemma suffixed_inj base j k : suffixed base j = suffixed base k -> j = k.
Proof.
  unfold suffixed. intros H. apply sapp_inv_head in H.
  simpl in H. injection H as H. apply nat_to_string_inj. exact H.
Qed.

Section Probing.
Variable links : gallery.
Variable base : string.
Variables ec en : option string.

Lemma probe_name_sound : forall fuel counter name,
  probe_name links base ec en fuel counter = Some name ->
  exists k, counter <= k /\ name = suffixed base k
            /\ name_free links ec en name = true
            /\ forall j, counter <= j < k -> name_free links ec en (suffixed base j) = false.
Proof.
  induction fuel as [|fuel IH]; cbn [probe_name]; intros counter name H;
    [discriminate|].
  fold (name_free links ec en (suffixed base counter)) in H.
  destruct (name_free links ec en (suffixed base counter)) eqn:He.
  - injection H as <-. exists counter. repeat split; auto. intros j Hj. lia.
  - apply IH in H as (k & Hk & Hn & Hfree & Hall).
    exists k. repeat split; auto; [lia|].
    intros j Hj. destruct (Nat.eq_dec j counter) as [->|Hne]; [exact He|].
    apply Hall. lia.
Qed.

Lemma probe_name_none : forall fuel counter,
  probe_name links base ec en fuel counter = None ->
  forall j, counter <= j < counter + fuel -> name_free links ec en (suffixed base j) = false.
Proof.
  induction fuel as [|fuel IH]; cbn [probe_name]; intros counter H j Hj; [lia|].
  fold (name_free links ec en (suffixed base counter)) in H.
  destruct (name_free links ec en (suffixed base counter)) eqn:He; [discriminate|].
  destruct (Nat.eq_dec j counter) as [->|Hne]; [exact He|].
  apply (IH (S counter)); [assumption|lia].
Qed.

Lemma probe_name_total counter :
  probe_name links base ec en (S (List.length (all_images links))) counter <> None.
Proof.
  intros Hnone.
  pose proof (probe_name_none _ _ Hnone) as Hall.
  set (names := map (suffixed base) (seq counter (S (List.length (all_images links))))).
  assert (Hnd : NoDup names).
  { unfold names. apply Injective_map_NoDup.
    - intros j k. apply suffixed_inj.
    - apply seq_NoDup. }
  assert (Hincl : incl names (all_names links)).
  { intros p Hp. unfold names in Hp. apply in_map_iff in Hp as (k & <- & Hk).
    apply in_seq in Hk. eapply check_taken. apply Hall. lia. }
  pose proof (NoDup_incl_length Hnd Hincl) as Hlen.
  unfold names, all_names in Hlen. rewrite !length_map, length_seq in Hlen. lia.
Qed.

Lemma get_unique_image_name_spec :
  exists name,
    get_unique_image_name links base ec en = Some name
    /\ name_free links ec en name = true
    /\ (name_free links ec en base = true -> name = base)
    /\ (name_free links ec en base = false ->
        exists k, 1 <= k /\ name = suffixed base k
                  /\ forall j, 1 <= j < k -> name_free links ec en (suffixed base j) = false).
Proof.
  unfold get_unique_image_name. fold (name_free links ec en base).
  destruct (name_free links ec en base) eqn:Hb.
  - exists base. repeat split; auto. discriminate.
  - destruct (probe_name links base ec en (S (List.length (all_images links))) 1)
      as [name|] eqn:Hp.
    + apply probe_name_sound in Hp as (k & Hk & -> & Hfree & Hall).
      exists (suffixed base k). repeat split; auto; [discriminate|].
      intros _. exists k. auto.
    + exfalso. eapply probe_name_total. exact Hp.
Qed.

End Probing.

(** X26: [get_unique_image_name] always ends, within one probe more
    than there are images, and returns a name that
    [check_image_name_unique] accepts: the base name when it is free,
    otherwise the base name with the least suffix [_k], [k >= 1], that
    is free. *)
Theorem unique_image_name_is_least_free :
  forall links base_name exclude_category exclude_name,
    exists name,
      get_unique_image_name links base_name exclude_category exclude_name
      = Some name
      /\ name_free links exclude_category exclude_name name = true
      /\ (name_free links exclude_category exclude_name base_name = true ->
          name = base_name)
      /\ (name_free links exclude_category exclude_name base_name = false ->
          exists k, 1 <= k /\ name = suffixed base_name k
                    /\ forall j, 1 <= j < k ->
                         name_free links exclude_category exclude_name
                                   (suffixed base_name j) = false).
Proof.
  intros links base ec en. apply get_unique_image_name_spec.
Qed.

(** * Adding images *)

Lemma all_names_append links category img :
  incl (all_names (append_image links category img)) (img_name img :: all_names links).
Proof.
  unfold all_names, all_images.
  induction links as [|[c images] rest IH]; cbn [append_image]; [intros x []|].
  destruct (String.eqb c category); cbn [flat_map snd]; intros x Hx.
  - rewrite !map_app, !in_app_iff in Hx. cbn [map In] in Hx.
    cbn [In]. rewrite map_app, in_app_iff. tauto.
  - rewrite map_app, in_app_iff in Hx. destruct Hx as [Hx|Hx].
    + right. rewrite map_app, in_app_iff. tauto.
    + destruct (IH x Hx) as [He|Hin]; [left; exact He|].
      right. rewrite map_app, in_app_iff. tauto.
Qed.

Lemma NoDup_app_disjoint {A} (l r : list A) :
  NoDup (l ++ r) -> forall a, In a l -> ~ In a r.
Proof.
  induction l as [|x l IH]; intros Hnd a Hin; [contradiction|].
  cbn [app] in Hnd. apply NoDup_cons_iff in Hnd as [Hx Hnd].
  destruct Hin as [<-|Hin]; [|apply IH; assumption].
  intros Hr. apply Hx. apply in_or_app. right. exact Hr.
Qed.

Lemma NoDup_middle {A} (x : A) r : forall l,
  NoDup (l ++ r) -> ~ In x (l ++ r) -> NoDup (l ++ x :: r).
Proof.
  induction l as [|a l IH]; cbn [app]; intros Hnd Hx.
  - constructor; assumption.
  - apply NoDup_cons_iff in Hnd as [Ha Hnd]. constructor.
    + rewrite in_app_iff in *. cbn [In]. intros [H|[H|H]]; [tauto| |tauto].
      apply Hx. left. symmetry. exact H.
    + apply IH; [exact Hnd|]. intros H. apply Hx. right. exact H.
Qed.

Lemma NoDup_append links category img :
  ~ In (img_name img) (all_names links) ->
  NoDup (all_names links) ->
  NoDup (all_names (append_image links category img)).
Proof.
  unfold all_names, all_images.
  induction links as [|[c images] rest IH]; cbn [append_image]; intros Hnew Hnd;
    [constructor|].
  cbn [flat_map snd] in Hnew, Hnd. rewrite map_app in Hnew, Hnd.
  destruct (String.eqb c category); cbn [flat_map snd]; rewrite !map_app.
  - cbn [map]. rewrite <- app_assoc. cbn [app].
    apply NoDup_middle; assumption.
  - rewrite in_app_iff in Hnew.
    apply NoDup_app.
    + eapply NoDup_app_remove_r. exact Hnd.
    + apply IH; [tauto|]. eapply NoDup_app_remove_l. exact Hnd.
    + intros a Ha Hr.
      destruct (all_names_append rest category img a Hr) as [He|Hin].
      * apply Hnew. left. rewrite He. exact Ha.
      * exact (NoDup_app_disjoint _ _ Hnd a Ha Hin).
Qed.

Section Adding.
Variable stem : string -> string.
Variable copy_image_to_category : string -> string -> string -> result string.

Lemma add_files_distinct category : forall file_paths links,
  NoDup (all_names links) ->
  NoDup (all_names (add_files stem copy_image_to_category category file_paths links)).
Proof.
  induction file_paths as [|fp rest IH]; intros links Hnd; [exact Hnd|].
  cbn [add_files].
  destruct (get_unique_image_name_spec links (stem fp) None None)
    as (name & -> & Hfree & _).
  destruct (copy_image_to_category fp category name) as [rel|e]; [|apply IH; exact Hnd].
  apply IH. apply NoDup_append; [|exact Hnd].
  cbn [img_name]. apply check_plain. exact Hfree.
Qed.

End Adding.

(** X27: adding image files keeps the image names distinct across all
    categories: if no two images share a name before [add_image], none
    do after it, however many of the chosen files have the same base
    name and whichever copies fail. *)
Theorem added_images_keep_names_distinct :
  forall stem copy_image_to_category current_category file_paths links links',
    NoDup (all_names links) ->
    add_image stem copy_image_to_category current_category file_paths links
    = Ok links' ->
    NoDup (all_names links').
Proof.
  intros stem copy cat fps links links' Hnd Hadd. unfold add_image in Hadd.
  destruct (String.eqb cat ""); [injection Hadd as <-; exact Hnd|].
  destruct fps as [|fp fps]; [injection Hadd as <-; exact Hnd|].
  destruct (images_of links cat); [|discriminate].
  injection Hadd as <-.
  exact (add_files_distinct stem copy cat (fp :: fps) links Hnd).
Qed.

Lemma added_images_keep_names_distinct_witness :
  all_names demo_gallery = ["cat"; "cat_1"]
  /\ all_names (add_files demo_stem demo_copy "pets"
                          ["/tmp/cat.png"; "/home/me/cat.png"] demo_gallery)
     = ["cat"; "cat_2"; "cat_3"; "cat_1"]
  /\ NoDup (all_names (add_files demo_stem demo_copy "pets"
                                 ["/tmp/cat.png"; "/home/me/cat.png"] demo_gallery)).
Proof.
  split; [reflexivity|]. split; [reflexivity|].
  apply (added_images_keep_names_distinct demo_stem demo_copy "pets"
           ["/tmp/cat.png"; "/home/me/cat.png"] demo_gallery).
  - repeat constructor; simpl; intuition discriminate.
  - reflexivity.
Defined.

End GalleryFacts.
